(** * teamcity-ldap-sync: a shallow embedding of [teamcity-ldap-sync-py3.py]

    The script resolves the members of configured directory groups over LDAP
    and converges the membership of the equally named TeamCity groups through
    TeamCity's REST interface.  The two remote parties (the directory and the
    TeamCity server) are parameters of the development; everything the script
    itself computes is translated function by function. *)

From Stdlib Require Import String Ascii List Bool Arith ZArith Lia.
Import ListNotations.

Local Open Scope string_scope.
Local Open Scope list_scope.

Infix "+++" := String.append (right associativity, at level 60).

(** ** Python values used by the script *)

(** A [str] is a Rocq string.  On a string of ASCII characters a character
    is a byte, and the slices, [strip], [split] and [lower] below are
    Python's; what [str.lower] does to other strings is left to the
    environment of a run ([str_lower]), and the statements that cut or strip
    a string ask it to be ASCII. *)
Module Py.

(** [x in l] for a list of strings. *)
Definition in_list (x : string) (l : list string) : bool :=
  existsb (String.eqb x) l.

(** [str.lower] on an ASCII string: the [str_lower] of the concrete runs. *)
Definition lower_ascii (c : ascii) : ascii :=
  let n := nat_of_ascii c in
  if ((65 <=? n) && (n <=? 90))%nat then ascii_of_nat (n + 32) else c.

Fixpoint lower (s : string) : string :=
  match s with
  | EmptyString => EmptyString
  | String c rest => String (lower_ascii c) (lower rest)
  end.

(** [sub in s] for strings. *)
Fixpoint contains (sub s : string) : bool :=
  if String.prefix sub s then true
  else match s with
       | EmptyString => false
       | String _ rest => contains sub rest
       end.

(** [s[:n]] on an ASCII string. *)
Definition slice_to (n : nat) (s : string) : string := substring 0 n s.

(** [template % arg] for a string [arg] and a template whose only [%] is
    that of one [%s] directive, as the constant templates of the script are
    and as the filter templates of a configuration file are meant to be.  On
    another template Python's [%] raises or formats otherwise. *)
Fixpoint pct (template arg : string) : string :=
  match template with
  | EmptyString => EmptyString
  | String c rest =>
      match rest with
      | String c' rest' =>
          if Ascii.eqb c "%"%char && Ascii.eqb c' "s"%char
          then arg +++ rest'
          else String c (pct rest arg)
      | EmptyString => String c EmptyString
      end
  end.

(** [s.split(sep, maxsplit)] for a one-character separator. *)
Fixpoint split (sep : ascii) (maxsplit : nat) (s : string) : list string :=
  match s with
  | EmptyString => [EmptyString]
  | String c rest =>
      if Ascii.eqb c sep then
        match maxsplit with
        | 0 => [s]
        | S m => EmptyString :: split sep m rest
        end
      else
        match split sep maxsplit rest with
        | [] => [String c EmptyString]
        | hd :: tl => String c hd :: tl
        end
  end.

(** A [dict] with string keys.  Python keeps the insertion order, and
    assigning to a key that is present replaces the value in place. *)
Definition dict (V : Type) : Type := list (string * V).

Fixpoint dict_get {V} (d : dict V) (k : string) : option V :=
  match d with
  | [] => None
  | (k', v) :: rest => if String.eqb k' k then Some v else dict_get rest k
  end.

Fixpoint dict_set {V} (d : dict V) (k : string) (v : V) : dict V :=
  match d with
  | [] => [(k, v)]
  | (k', v') :: rest =>
      if String.eqb k' k then (k', v) :: rest
      else (k', v') :: dict_set rest k v
  end.

Definition keys {V} (d : dict V) : list string := map fst d.
Definition items {V} (d : dict V) : list (string * V) := d.

(** The last element of a list: what [l.pop()] returns, and what the loop
    variable of [for x in l] holds after the loop. *)
Fixpoint last_item {A} (l : list A) : option A :=
  match l with
  | [] => None
  | [a] => Some a
  | _ :: rest => last_item rest
  end.

(** The exceptions the script can die of. *)
Inductive exn : Type :=
| AttributeError
| IndexError
| KeyError
| TypeError
| NameError
| ValueError
| SystemExit (msg : string).

Inductive outcome (A : Type) : Type :=
| Ok (a : A)
| Raise (e : exn).
Arguments Ok {A} a.
Arguments Raise {A} e.

End Py.
Import Py.

(** ** The two remote parties *)

(** An entry of an LDAP search response: its DN and its attribute map.  The
    attribute map is split by the JSON type the script expects of a value:
    a string (sAMAccountName, cn, sn, givenName, mail) or a list of strings
    (the group's member attribute). *)
Record entry : Type := {
  dn : string;
  str_attrs : dict string;
  list_attrs : dict (list string)
}.

(** A TeamCity group as the REST interface lists it. *)
Record tc_group : Type := {
  g_name : string;
  g_key : string;
  g_href : string
}.

Definition tc_group_eqb (a b : tc_group) : bool :=
  String.eqb (g_name a) (g_name b) && String.eqb (g_key a) (g_key b)
  && String.eqb (g_href a) (g_href b).

(** The REST requests the script sends. *)
Inductive request : Type :=
| GET_userGroups
| GET_users
| GET_user_groups (user : string)
| PUT_user_groups (user : string) (groups : list tc_group)
| POST_userGroups (name key : string)
| POST_users (username name email : string)
| GET_userGroups_key (key : string).

(** The JSON document of a response, by the shape the script reads:
    [{"group": [...]}], [{"user": [{"username": ...}, ...]}],
    [{"users": {"user": [...]}}], or no JSON at all. *)
Inductive payload : Type :=
| Groups (l : list tc_group)
| Users (l : list string)
| GroupDetail (l : list string)
| NoBody.

Record response : Type := {
  status_code : Z;
  json : payload
}.

(** The environment of a run: what the directory answers to a search
    (base, filter, requested attributes), the TeamCity server as a state
    machine over requests, and the interpreter's [str.lower], whose Unicode
    case mapping is left open ([lower] is what it does to ASCII). *)
Record Env : Type := {
  directory : string -> string -> list string -> list entry;
  tc_state : Type;
  tc_handle : tc_state -> request -> tc_state * response;
  str_lower : string -> string
}.

(** What a run does that can be observed from outside, in order. *)
Inductive call : Type :=
| CreateGroup (group_name : string)
| CreateUser (username : string)
| GetUsersFromGroup (group_name : string)
| AddUserToGroup (user group_name : string)
| RemoveUserFromGroup (user group_name : string).

Inductive event : Type :=
| LdapSearch (search_base search_filter : string) (attributes : list string)
| Print (line : string)
| Http (r : request)
| Call (c : call).

(** ** The script's classes, as records *)

(** The command line switches ([get_args]). *)
Module Args.
Record t : Type := {
  wildcard_search : bool;
  recursive : bool;
  lowercase : bool;
  skip_disabled : bool
}.
End Args.

(** [TeamCityLDAPConf]: the entries of the configuration file the
    reconciliation reads. *)
Module Conf.
Record t : Type := {
  ldap_base : string;
  ldap_groups : list string;
  ldap_type : option string;
  ad_filtergroup : string;
  ad_filteruser : string;
  ad_filterdisabled : string;
  ad_filtermemberof : string;
  ad_groupattribute : string;
  ad_userattribute : string;
  openldap_type : string;
  openldap_filtergroup : string;
  openldap_filteruser : string;
  openldap_groupattribute : string;
  openldap_userattribute : string
}.

Definition with_ldap_groups (c : t) (groups : list string) : t :=
  {| ldap_base := ldap_base c;
     ldap_groups := groups;
     ldap_type := ldap_type c;
     ad_filtergroup := ad_filtergroup c;
     ad_filteruser := ad_filteruser c;
     ad_filterdisabled := ad_filterdisabled c;
     ad_filtermemberof := ad_filtermemberof c;
     ad_groupattribute := ad_groupattribute c;
     ad_userattribute := ad_userattribute c;
     openldap_type := openldap_type c;
     openldap_filtergroup := openldap_filtergroup c;
     openldap_filteruser := openldap_filteruser c;
     openldap_groupattribute := openldap_groupattribute c;
     openldap_userattribute := openldap_userattribute c |}.
End Conf.

(** [LDAPConn].  [active_directory] is ["true"] or [None] in the script and
    only ever tested for truth.  The filters a flavor does not set are never
    read on that flavor's branch; they are empty here. *)
Module LDAPConn.
Record t : Type := {
  base : string;
  lowercase : bool;
  skipdisabled : bool;
  recursive : bool;
  active_directory : bool;
  openldap_type : string;
  group_filter : string;
  user_filter : string;
  disabled_filter : string;
  memberof_filter : string;
  group_member_attribute : string;
  uid_attribute : string
}.

(** [LDAPConn.__init__] *)
Definition init (args : Args.t) (config : Conf.t) : t :=
  match Conf.ldap_type config with
  | Some "activedirectory" =>
      {| base := Conf.ldap_base config;
         lowercase := Args.lowercase args;
         skipdisabled := Args.skip_disabled args;
         recursive := Args.recursive args;
         active_directory := true;
         openldap_type := "";
         group_filter := Conf.ad_filtergroup config;
         user_filter := Conf.ad_filteruser config;
         disabled_filter := Conf.ad_filterdisabled config;
         memberof_filter := Conf.ad_filtermemberof config;
         group_member_attribute := Conf.ad_groupattribute config;
         uid_attribute := Conf.ad_userattribute config |}
  | _ =>
      {| base := Conf.ldap_base config;
         lowercase := Args.lowercase args;
         skipdisabled := Args.skip_disabled args;
         recursive := Args.recursive args;
         active_directory := false;
         openldap_type := Conf.openldap_type config;
         group_filter := Conf.openldap_filtergroup config;
         user_filter := Conf.openldap_filteruser config;
         disabled_filter := "";
         memberof_filter := "";
         group_member_attribute := Conf.openldap_groupattribute config;
         uid_attribute := Conf.openldap_userattribute config |}
  end.
End LDAPConn.

(** [TeamCityClient]: the fields the reconciliation reads and writes. *)
Module Client.
Record t : Type := {
  ldap_object : LDAPConn.t;
  ldap_groups : list string;
  tc_groups : list tc_group;
  tc_users : list string
}.

Definition with_tc_groups (self : t) (groups : list tc_group) : t :=
  {| ldap_object := ldap_object self;
     ldap_groups := ldap_groups self;
     tc_groups := groups;
     tc_users := tc_users self |}.
End Client.

(** The profile [start_sync] builds for a user it creates. *)
Record user_profile : Type := {
  u_username : string;
  u_name : string;
  u_email : string
}.

(** ** The script *)

Section Script.

Variable E : Env.

(** A computation of the script: it runs against the state of the TeamCity
    server, emits the events it causes and either returns or raises. *)
Definition M (A : Type) : Type :=
  tc_state E -> tc_state E * list event * outcome A.

Definition ret {A} (a : A) : M A := fun s => (s, [], Ok a).

Definition raise {A} (e : exn) : M A := fun s => (s, [], Raise e).

Definition bind {A B} (m : M A) (f : A -> M B) : M B := fun s =>
  match m s with
  | (s1, t1, Ok a) =>
      match f a s1 with
      | (s2, t2, r) => (s2, t1 ++ t2, r)
      end
  | (s1, t1, Raise e) => (s1, t1, Raise e)
  end.

Definition emit (e : event) : M unit := fun s => (s, [e], Ok tt).

Notation "x <- m ;; k" := (bind m (fun x => k))
  (at level 61, m at next level, right associativity).
Notation "m ;;; k" := (bind m (fun _ => k))
  (at level 61, right associativity).

(** [for x in l: body(x)], for a list nothing mutates during the loop. *)
Fixpoint for_ {A} (l : list A) (body : A -> M unit) : M unit :=
  match l with
  | [] => ret tt
  | x :: rest => body x ;;; for_ rest body
  end.

(** [d[k]] *)
Definition getitem {V} (d : dict V) (k : string) : M V :=
  match dict_get d k with
  | Some v => ret v
  | None => raise KeyError
  end.

(** [l[i]] *)
Definition index {A} (l : list A) (i : nat) : M A :=
  match nth_error l i with
  | Some a => ret a
  | None => raise IndexError
  end.

Definition print (line : string) : M unit := emit (Print line).

(** [self.conn.search(...)] followed by reading the response: the entries
    found.  The call itself is true when there is an entry. *)
Definition conn_search (search_base search_filter : string)
    (attributes : list string) : M (list entry) :=
  emit (LdapSearch search_base search_filter attributes) ;;;
  ret (directory E search_base search_filter attributes).

Definition truthy {A} (l : list A) : bool :=
  match l with [] => false | _ :: _ => true end.

(** One request of [self.session]. *)
Definition http (r : request) : M response := fun s =>
  let (s', resp) := tc_handle E s r in (s', [Http r], Ok resp).

(** *** LDAPConn *)

(** Lines 164-177: the loop over the group's member attribute.  Each
    successful lookup assigns [group_members]. *)
Fixpoint direct_members (self : LDAPConn.t) (attrlist : list string)
    (members : list string) (group_members : list entry) : M (list entry) :=
  match members with
  | [] => ret group_members
  | member :: rest =>
      let filter :=
        if LDAPConn.skipdisabled self
        then "(&" +++ LDAPConn.user_filter self
                  +++ LDAPConn.disabled_filter self +++ ")"
        else "(&" +++ LDAPConn.user_filter self +++ ")" in
      uid <- conn_search member filter attrlist ;;
      direct_members self attrlist rest
        (if truthy uid then uid else group_members)
  end.

(** Lines 180-187: fill the dictionary with usernames and DNs. *)
Fixpoint fill_listing (self : LDAPConn.t) (group_members : list entry)
    (final_listing : dict string) : M (dict string) :=
  match group_members with
  | [] => ret final_listing
  | item :: rest =>
      let dn_ := dn item in
      username <- getitem (str_attrs item) "sAMAccountName" ;;
      let username :=
        if LDAPConn.lowercase self then str_lower E username else username in
      fill_listing self rest (dict_set final_listing username dn_)
  end.

(** [LDAPConn.get_group_members]; [None] is Python's [None].  [result] is
    the bool that ldap3's [search] returns, true when an entry was found.
    The Active Directory flavor then reads the entries of the response.  The
    generic flavor calls [result.pop()] on the bool (line 193), which raises
    [AttributeError]: lines 195-217 are never reached. *)
Definition get_group_members (self : LDAPConn.t) (group : string)
    : M (option (dict string)) :=
  let attrlist := [LDAPConn.group_member_attribute self] in
  let filter := pct (LDAPConn.group_filter self) group in
  result <- conn_search (LDAPConn.base self) filter attrlist ;;
  if negb (truthy result) then
    print (pct ">>> Unable to find group %s, skipping group" group) ;;;
    ret None
  else if LDAPConn.active_directory self then
    match last_item result with
    | None => raise NameError
    | Some members =>
        let result_dn := dn members in
        let result_attrs := list_attrs members in
        let attrlist := [LDAPConn.uid_attribute self] in
        group_members <-
          (if LDAPConn.recursive self then
             let member_of_filter_dn :=
               pct (LDAPConn.memberof_filter self) result_dn in
             let filter :=
               if LDAPConn.skipdisabled self
               then "(&" +++ LDAPConn.user_filter self +++ member_of_filter_dn
                         +++ LDAPConn.disabled_filter self +++ ")"
               else "(&" +++ LDAPConn.user_filter self +++ member_of_filter_dn
                         +++ ")" in
             uid <- conn_search (LDAPConn.base self) filter attrlist ;;
             ret (if truthy uid then uid else [])
           else
             members_ <- getitem result_attrs
                           (LDAPConn.group_member_attribute self) ;;
             direct_members self attrlist members_ []) ;;
        final_listing <- fill_listing self group_members [] ;;
        ret (Some final_listing)
    end
  else
    raise AttributeError.

(** Lines 232-234 *)
Fixpoint wildcard_names (result : list entry) (result_groups : list string)
    : M (list string) :=
  match result with
  | [] => ret result_groups
  | group :: rest =>
      group_name <- getitem (str_attrs group) "cn" ;;
      wildcard_names rest (result_groups ++ [group_name])
  end.

(** [LDAPConn.get_groups_with_wildcard] *)
Definition get_groups_with_wildcard (self : LDAPConn.t)
    (groups_wildcard : string) : M (list string) :=
  print (pct ">>> Search group with wildcard: %s" groups_wildcard) ;;;
  let filter := pct (LDAPConn.group_filter self) groups_wildcard in
  result <- conn_search (LDAPConn.base self) filter ["cn"] ;;
  result_groups <-
    (if truthy result then wildcard_names result [] else ret []) ;;
  (if negb (truthy result_groups)
   then print (pct ">>> Unable to find group %s, skipping group wildcard"
                   groups_wildcard)
   else ret tt) ;;;
  ret result_groups.

(** [LDAPConn.get_user_attributes] *)
Definition get_user_attributes (self : LDAPConn.t) (dn_ : string)
    (attr_list : list string) : M (dict string) :=
  let filter := pct "(distinguishedName=%s)" dn_ in
  entries <- conn_search (LDAPConn.base self) filter attr_list ;;
  first <- index entries 0 ;;
  ret (str_attrs first).

(** *** TeamCityLDAPConf *)

(** Lines 324-326 *)
Fixpoint expand_groups (ldap_conn : LDAPConn.t) (groups : list string)
    (result_groups : list string) : M (list string) :=
  match groups with
  | [] => ret result_groups
  | group :: rest =>
      groups_ <- get_groups_with_wildcard ldap_conn group ;;
      expand_groups ldap_conn rest (result_groups ++ groups_)
  end.

(** [TeamCityLDAPConf.set_groups_with_wildcard]: the configuration with its
    groups replaced, or [SystemExit]. *)
Definition set_groups_with_wildcard (self : Conf.t) (ldap_conn : LDAPConn.t)
    : M Conf.t :=
  result_groups <- expand_groups ldap_conn (Conf.ldap_groups self) [] ;;
  if truthy result_groups
  then ret (Conf.with_ldap_groups self result_groups)
  else raise (SystemExit "ERROR - No groups found with wildcard").

(** *** TeamCityClient *)

(** [resp.json()['group']], [resp.json()['user']] and
    [resp.json()['users']['user']]. *)
Definition json_group (p : payload) : M (list tc_group) :=
  match p with
  | Groups l => ret l
  | NoBody => raise ValueError
  | _ => raise KeyError
  end.

Definition json_user (p : payload) : M (list string) :=
  match p with
  | Users l => ret l
  | NoBody => raise ValueError
  | _ => raise KeyError
  end.

Definition json_users_user (p : payload) : M (list string) :=
  match p with
  | GroupDetail l => ret l
  | NoBody => raise ValueError
  | _ => raise KeyError
  end.

(** [TeamCityClient.get_tc_groups] *)
Definition get_tc_groups : M (list tc_group) :=
  resp <- http GET_userGroups ;;
  groups_in_tc <- json_group (json resp) ;;
  ret (filter (fun group => contains ".Zabbix." (g_name group)) groups_in_tc).

(** [TeamCityClient.get_tc_users] *)
Definition get_tc_users : M (list string) :=
  resp <- http GET_users ;;
  json_user (json resp).

(** [TeamCityClient.get_user_groups]: the JSON document, or the error
    string. *)
Definition get_user_groups (user : string) : M (payload + string) :=
  resp <- http (GET_user_groups user) ;;
  if Z.eqb (status_code resp) 200
  then match json resp with
       | NoBody => raise ValueError
       | p => ret (inl p)
       end
  else ret (inr ("Error: Couldn't find user " +++ user)).

(** [[group[f] for group in self.tc_groups if group['name'] == group_name]] *)
Definition named (self : Client.t) (group_name : string) : list tc_group :=
  filter (fun group => String.eqb (g_name group) group_name)
         (Client.tc_groups self).

(** Concatenating [resp.content], which is [bytes], to a [str] raises. *)
Definition str_plus_bytes {A} : M A := raise TypeError.

(** [TeamCityClient.get_users_from_group] *)
Definition get_users_from_group (self : Client.t) (group_name : string)
    : M (list string) :=
  emit (Call (GetUsersFromGroup group_name)) ;;;
  if truthy (Client.tc_groups self) then
    key <- index (map g_key (named self group_name)) 0 ;;
    resp <- http (GET_userGroups_key key) ;;
    (if negb (Z.eqb (status_code resp) 200) then str_plus_bytes else ret tt) ;;;
    users <- json_users_user (json resp) ;;
    ret users
  else ret [].

(** [user_groups['group']] on what [get_user_groups] returned. *)
Definition user_groups_group (user_groups : payload + string)
    : M (list tc_group) :=
  match user_groups with
  | inl (Groups l) => ret l
  | inl _ => raise KeyError
  | inr _ => raise TypeError
  end.

(** [TeamCityClient.add_user_to_group] *)
Definition add_user_to_group (self : Client.t) (user group_name : string)
    : M unit :=
  emit (Call (AddUserToGroup user group_name)) ;;;
  user_groups <- get_user_groups user ;;
  href <- index (map g_href (named self group_name)) 0 ;;
  key <- index (map g_key (named self group_name)) 0 ;;
  let new_group := {| g_name := group_name; g_key := key; g_href := href |} in
  groups <- user_groups_group user_groups ;;
  resp <- http (PUT_user_groups user (groups ++ [new_group])) ;;
  if negb (Z.eqb (status_code resp) 200) then str_plus_bytes else ret tt.

(** [l.remove(x)]: the first element equal to [x] goes. *)
Fixpoint list_remove (x : tc_group) (l : list tc_group) : list tc_group :=
  match l with
  | [] => []
  | y :: rest => if tc_group_eqb y x then rest else y :: list_remove x rest
  end.

(** Lines 392-394: [for group in l: if ...: l.remove(group)].  The list
    iterator holds an index into the list that is being shortened; [fuel]
    bounds the number of steps, and the length of the list is enough. *)
Fixpoint remove_named (fuel i : nat) (l : list tc_group)
    (group_name : string) : list tc_group :=
  match fuel with
  | 0 => l
  | S fuel' =>
      match nth_error l i with
      | None => l
      | Some group =>
          if String.eqb (g_name group) group_name
          then remove_named fuel' (S i) (list_remove group l) group_name
          else remove_named fuel' (S i) l group_name
      end
  end.

(** [TeamCityClient.remove_user_from_group] *)
Definition remove_user_from_group (self : Client.t)
    (user group_name : string) : M unit :=
  emit (Call (RemoveUserFromGroup user group_name)) ;;;
  user_groups <- get_user_groups user ;;
  groups <- user_groups_group user_groups ;;
  let groups := remove_named (length groups) 0 groups group_name in
  resp <- http (PUT_user_groups user groups) ;;
  if negb (Z.eqb (status_code resp) 200) then str_plus_bytes else ret tt.

(** [TeamCityClient.create_group]: the response is dropped. *)
Definition create_group (self : Client.t) (group_name : string) : M unit :=
  emit (Call (CreateGroup group_name)) ;;;
  _ <- http (POST_userGroups group_name (slice_to 16 group_name)) ;;
  ret tt.

(** [TeamCityClient.create_user]: the response is dropped. *)
Definition create_user (self : Client.t) (user : user_profile) : M unit :=
  emit (Call (CreateUser (u_username user))) ;;;
  let email := if negb (String.eqb (u_email user) "") then u_email user else "" in
  _ <- http (POST_users (u_username user) (u_name user) email) ;;
  ret tt.

(** [TeamCityClient.__init__] *)
Definition client_init (config : Conf.t) (ldap_object : LDAPConn.t)
    : M Client.t :=
  tc_groups_ <- get_tc_groups ;;
  tc_users_ <- get_tc_users ;;
  ret {| Client.ldap_object := ldap_object;
         Client.ldap_groups := Conf.ldap_groups config;
         Client.tc_groups := tc_groups_;
         Client.tc_users := tc_users_ |}.

(** Lines 428-436: create one user if TeamCity does not know the login. *)
Definition create_unknown (self : Client.t) (member : string * string)
    : M unit :=
  let (login, dn_) := member in
  if negb (in_list login (Client.tc_users self)) then
    let attr_list := ["sn"; "givenName"; "mail"] in
    attributes <- get_user_attributes (Client.ldap_object self) dn_
                    attr_list ;;
    sn <- getitem attributes "sn" ;;
    name <- (if negb (String.eqb sn "")
             then givenName <- getitem attributes "givenName" ;;
                  ret (givenName +++ " " +++ sn)
             else ret login) ;;
    let email := match dict_get attributes "mail" with
                 | Some mail => mail
                 | None => ""
                 end in
    create_user self
      {| u_username := login; u_name := name; u_email := email |}
  else ret tt.

(** Lines 427-436: create the users TeamCity does not know. *)
Definition create_users (self : Client.t) (members : list (string * string))
    : M unit :=
  for_ members (create_unknown self).

(** Lines 442-444: add users to the TeamCity group. *)
Definition add_users (self : Client.t) (group : string)
    (ldap_users : list string) (tc_group_users : list string) : M unit :=
  for_ ldap_users (fun user =>
    if negb (in_list user tc_group_users)
    then add_user_to_group self user group
    else ret tt).

(** Lines 447-449: remove users from the TeamCity group. *)
Definition remove_users (self : Client.t) (group : string)
    (tc_group_users : list string) (ldap_users : list string) : M unit :=
  for_ tc_group_users (fun user =>
    if negb (in_list user ldap_users)
    then remove_user_from_group self user group
    else ret tt).

(** Lines 438-449: fetch the members TeamCity reports, add, remove. *)
Definition sync_members (self : Client.t) (group : string)
    (ldap_group_users : dict string) : M unit :=
  tc_group_users <- get_users_from_group self group ;;
  add_users self group (keys ldap_group_users) tc_group_users ;;;
  remove_users self group tc_group_users (keys ldap_group_users).

(** Lines 420-424: create the group if the client does not see it. *)
Definition ensure_group (self : Client.t) (group : string) : M Client.t :=
  let tc_groups_ := map g_name (Client.tc_groups self) in
  if negb (in_list group tc_groups_) then
    create_group self group ;;;
    refreshed <- get_tc_groups ;;
    ret (Client.with_tc_groups self refreshed)
  else ret self.

(** Lines 416-449: the body of the loop of [start_sync] for one group.
    [None.items()] raises [AttributeError]. *)
Definition sync_group (self : Client.t) (group : string) : M Client.t :=
  ldap_group_users <- get_group_members (Client.ldap_object self) group ;;
  self <- ensure_group self group ;;
  match ldap_group_users with
  | None => raise AttributeError
  | Some ldap_group_users =>
      create_users self (items ldap_group_users) ;;;
      sync_members self group ldap_group_users ;;;
      ret self
  end.

Fixpoint sync_groups (self : Client.t) (groups : list string) : M Client.t :=
  match groups with
  | [] => ret self
  | group :: rest =>
      self <- sync_group self group ;;
      sync_groups self rest
  end.

(** [TeamCityClient.start_sync] *)
Definition start_sync (self : Client.t) : M Client.t :=
  sync_groups self (Client.ldap_groups self).

(** [main], after the command line and the configuration file are read.
    Binding to the directory and unbinding from it exchange nothing the
    reconciliation reads and are left out. *)
Definition main (args : Args.t) (config : Conf.t) : M unit :=
  let ldap_conn := LDAPConn.init args config in
  config <- (if Args.wildcard_search args
             then set_groups_with_wildcard config ldap_conn
             else ret config) ;;
  tc <- client_init config ldap_conn ;;
  _ <- start_sync tc ;;
  print "HOOOORAY Sync complete".

End Script.

Arguments ret {E A} a.
Arguments raise {E A} e.
Arguments bind {E A B} m f.

(** The three components of what a computation leaves behind. *)
Definition state_of {S A} (x : S * list event * outcome A) : S := fst (fst x).
Definition trace_of {S A} (x : S * list event * outcome A) : list event :=
  snd (fst x).
Definition result_of {S A} (x : S * list event * outcome A) : outcome A := snd x.

(** The client calls, the directory searches and the printed lines of a
    trace. *)
Fixpoint calls_of (t : list event) : list call :=
  match t with
  | [] => []
  | Call c :: rest => c :: calls_of rest
  | _ :: rest => calls_of rest
  end.

Fixpoint searches_of (t : list event) : list event :=
  match t with
  | [] => []
  | LdapSearch b f a :: rest => LdapSearch b f a :: searches_of rest
  | _ :: rest => searches_of rest
  end.

Fixpoint printed (t : list event) : list string :=
  match t with
  | [] => []
  | Print line :: rest => line :: printed rest
  | _ :: rest => printed rest
  end.

(** ** The reconciliation as the specification words it *)

Module Reconciler.

(** [a - b] on lists of usernames read as sets. *)
Definition minus (a b : list string) : list string :=
  filter (fun u => negb (in_list u b)) a.

Record plan : Type := {
  toAdd : list string;
  toRemove : list string
}.

(** [diff(desired, observed)] *)
Definition diff (desired observed : list string) : plan :=
  {| toAdd := minus desired observed;
     toRemove := minus observed desired |}.

(** The calls of one group's pass, in the order of steps 1 to 4. *)
Definition group_plan (self : Client.t) (group : string)
    (desired observed : list string) : list call :=
  (if in_list group (map g_name (Client.tc_groups self))
   then [] else [CreateGroup group])
  ++ map CreateUser (minus desired (Client.tc_users self))
  ++ [GetUsersFromGroup group]
  ++ map (fun u => AddUserToGroup u group) (toAdd (diff desired observed))
  ++ map (fun u => RemoveUserFromGroup u group)
         (toRemove (diff desired observed)).


End Reconciler.

(** ** A reference TeamCity server

    The server is not part of the script.  This one keeps the groups and,
    per user, the list of groups the user is in; a PUT replaces that list as
    a whole, and the members of a group are the users whose list holds a
    group with its key. *)

Module RefServer.

Record state : Type := {
  groups : list tc_group;
  users : dict (list tc_group)
}.

Definition has_key (key : string) (l : list tc_group) : bool :=
  existsb (fun g => String.eqb (g_key g) key) l.

Definition members (key : string) (us : dict (list tc_group)) : list string :=
  keys (filter (fun ul => has_key key (snd ul)) us).

Definition ok (p : payload) : response := {| status_code := 200; json := p |}.
Definition failed (code : Z) : response := {| status_code := code; json := NoBody |}.

Definition handle (s : state) (r : request) : state * response :=
  match r with
  | GET_userGroups => (s, ok (Groups (groups s)))
  | GET_users => (s, ok (Users (keys (users s))))
  | GET_user_groups user =>
      match dict_get (users s) user with
      | Some l => (s, ok (Groups l))
      | None => (s, failed 404)
      end
  | PUT_user_groups user l =>
      match dict_get (users s) user with
      | Some _ =>
          ({| groups := groups s; users := dict_set (users s) user l |},
           ok (Groups l))
      | None => (s, failed 404)
      end
  | POST_userGroups name key =>
      if in_list name (map g_name (groups s)) || has_key key (groups s)
      then (s, failed 400)
      else ({| groups := groups s ++
                 [{| g_name := name; g_key := key;
                     g_href := "/app/rest/userGroups/key:" +++ key |}];
               users := users s |}, ok NoBody)
  | POST_users username _ _ =>
      match dict_get (users s) username with
      | Some _ => (s, failed 400)
      | None =>
          ({| groups := groups s; users := users s ++ [(username, [])] |},
           ok NoBody)
      end
  | GET_userGroups_key key =>
      if has_key key (groups s)
      then (s, ok (GroupDetail (members key (users s))))
      else (s, failed 404)
  end.

(** The states the server above keeps itself in: usernames, group names and
    group keys are unique, and a user's list holds groups of the server,
    each once. *)
Definition consistent (s : state) : Prop :=
  NoDup (keys (users s))
  /\ NoDup (map g_name (groups s))
  /\ NoDup (map g_key (groups s))
  /\ forall u l, In (u, l) (users s) -> NoDup l /\ incl l (groups s).

(** A server like the one above whose POST requests all fail. *)
Definition handle_readonly (s : state) (r : request) : state * response :=
  match r with
  | POST_userGroups _ _ | POST_users _ _ _ => (s, failed 500)
  | _ => handle s r
  end.

(** A directory given by a table from (search base, filter) to entries. *)
Fixpoint table (rows : list (string * string * list entry))
    (search_base search_filter : string) (attributes : list string)
    : list entry :=
  match rows with
  | [] => []
  | (b, f, es) :: rest =>
      if String.eqb b search_base && String.eqb f search_filter then es
      else table rest search_base search_filter attributes
  end.

Definition env (rows : list (string * string * list entry)) : Env :=
  {| directory := table rows; tc_state := state; tc_handle := handle;
     str_lower := lower |}.

Definition env_readonly (rows : list (string * string * list entry)) : Env :=
  {| directory := table rows; tc_state := state;
     tc_handle := handle_readonly; str_lower := lower |}.

End RefServer.

(** ** Concrete runs *)

Module Scenario.

Definition conf (kind : option string) (groups : list string) : Conf.t :=
  {| Conf.ldap_base := "dc=example,dc=com";
     Conf.ldap_groups := groups;
     Conf.ldap_type := kind;
     Conf.ad_filtergroup := "(&(objectClass=group)(name=%s))";
     Conf.ad_filteruser := "(objectClass=user)";
     Conf.ad_filterdisabled := "(!(userAccountControl:1.2.840.113556.1.4.803:=2))";
     Conf.ad_filtermemberof := "(memberOf:1.2.840.113556.1.4.1941:=%s)";
     Conf.ad_groupattribute := "member";
     Conf.ad_userattribute := "sAMAccountName";
     Conf.openldap_type := "posixgroup";
     Conf.openldap_filtergroup := "(&(objectClass=posixGroup)(cn=%s))";
     Conf.openldap_filteruser := "(&(objectClass=posixAccount)(uid=%s))";
     Conf.openldap_groupattribute := "memberUid";
     Conf.openldap_userattribute := "uid" |}.

Definition args (w r l : bool) : Args.t :=
  {| Args.wildcard_search := w; Args.recursive := r; Args.lowercase := l;
     Args.skip_disabled := false |}.

Definition base : string := "dc=example,dc=com".
Definition ad : option string := Some "activedirectory".

Definition user_entry (dn_ name : string) : entry :=
  {| dn := dn_;
     str_attrs := [("sAMAccountName", name); ("sn", "Doe");
                   ("givenName", name); ("mail", name +++ "@example.com")];
     list_attrs := [] |}.

Definition group_entry (attr dn_ cn : string) (members : list string) : entry :=
  {| dn := dn_; str_attrs := [("cn", cn)]; list_attrs := [(attr, members)] |}.

Definition alice_dn := "CN=Alice,dc=example,dc=com".
Definition bob_dn := "CN=Bob,dc=example,dc=com".
Definition admins := "R.Ops.Zabbix.Admins".
Definition admins_dn := "CN=R.Ops.Zabbix.Admins,dc=example,dc=com".
Definition admins_filter := "(&(objectClass=group)(name=R.Ops.Zabbix.Admins))".
Definition user_by_dn (d : string) := "(distinguishedName=" +++ d +++ ")".

(** An Active Directory with one group of two members. *)
Definition ad_rows : list (string * string * list entry) :=
  [ (base, admins_filter,
     [group_entry "member" admins_dn admins [alice_dn; bob_dn]]);
    (alice_dn, "(&(objectClass=user))", [user_entry alice_dn "Alice"]);
    (bob_dn, "(&(objectClass=user))", [user_entry bob_dn "Bob"]);
    (base, "(&(objectClass=user)(memberOf:1.2.840.113556.1.4.1941:=" +++ admins_dn +++ "))",
     [user_entry alice_dn "Alice"; user_entry bob_dn "Bob"]);
    (base, user_by_dn alice_dn, [user_entry alice_dn "Alice"]);
    (base, user_by_dn bob_dn, [user_entry bob_dn "Bob"]) ].

Definition admins_group : tc_group :=
  {| g_name := admins; g_key := "R.Ops.Zabbix.Adm";
     g_href := "/app/rest/userGroups/key:R.Ops.Zabbix.Adm" |}.

Definition empty_server : RefServer.state :=
  {| RefServer.groups := []; RefServer.users := [] |}.

(** TeamCity already has the group, with bob and carol in it. *)
Definition bob_carol_server : RefServer.state :=
  {| RefServer.groups := [admins_group];
     RefServer.users := [("alice", []); ("bob", [admins_group]);
                         ("carol", [admins_group])] |}.

(** The client as [TeamCityClient.__init__] leaves it on that server. *)
Definition ad_conn (recursive lowercase : bool) : LDAPConn.t :=
  LDAPConn.init (args false recursive lowercase) (conf ad [admins]).

Definition client : Client.t :=
  {| Client.ldap_object := ad_conn true true;
     Client.ldap_groups := [admins];
     Client.tc_groups := [admins_group];
     Client.tc_users := ["alice"; "bob"; "carol"] |}.

(** The members the directory resolves for the group. *)
Definition alice_bob : dict string := [("alice", alice_dn); ("bob", bob_dn)].

(** The same directory when the groups are given as wildcard patterns, one
    of which matches nothing. *)
Definition wild_rows : list (string * string * list entry) :=
  (base, "(&(objectClass=group)(name=R.*.Zabbix.*))",
   [group_entry "member" admins_dn admins [alice_dn; bob_dn]]) :: ad_rows.

Definition wild_conf : Conf.t := conf ad ["Typo.*"; "R.*.Zabbix.*"].

Definition wild_args : Args.t := args true false true.

(** Two configured groups, the first of which the directory does not have. *)
Definition gone : string := "Gone.Zabbix.Team".

Definition gone_conf : Conf.t := conf ad [gone; admins].

(** A generic LDAP directory: a posixGroup with one member. *)
Definition devs : string := "Devs.Zabbix.Team".

Definition openldap_rows : list (string * string * list entry) :=
  [ (base, "(&(objectClass=posixGroup)(cn=Devs.Zabbix.Team))",
     [group_entry "memberUid" "cn=Devs.Zabbix.Team,ou=Groups,dc=example,dc=com"
        devs ["Alice"]]) ].

(** The connection of a run with [--lowercase] against that directory. *)
Definition openldap_conn : LDAPConn.t :=
  LDAPConn.init (args false false true) (conf None [devs]).

(** A group without members, for a run against the server that refuses
    every POST. *)
Definition empty_team : string := "Empty.Zabbix.Team".

Definition empty_team_rows : list (string * string * list entry) :=
  [ (base, "(&(objectClass=group)(name=Empty.Zabbix.Team))",
     [group_entry "member" "CN=Empty.Zabbix.Team,dc=example,dc=com"
        empty_team []]) ].

(** A configured group whose name lacks [.Zabbix.]. *)
Definition app_admins : string := "App.Admins".
Definition app_admins_dn : string := "CN=App.Admins,dc=example,dc=com".

Definition app_rows : list (string * string * list entry) :=
  [ (base, "(&(objectClass=group)(name=App.Admins))",
     [group_entry "member" app_admins_dn app_admins [alice_dn]]);
    (base, "(&(objectClass=user)(memberOf:1.2.840.113556.1.4.1941:=" +++ app_admins_dn +++ "))",
     [user_entry alice_dn "Alice"]) ].

End Scenario.

(** ** The configuration file *)

(** [str.strip()] on an ASCII string, where Python's white space is the
    characters 9 to 13 and 28 to 32. *)
Definition is_space (c : ascii) : bool :=
  let n := nat_of_ascii c in
  ((9 <=? n) && (n <=? 13) || (28 <=? n) && (n <=? 32))%nat.

Fixpoint lstrip (s : string) : string :=
  match s with
  | EmptyString => EmptyString
  | String c rest => if is_space c then lstrip rest else s
  end.

Fixpoint rstrip (s : string) : string :=
  match s with
  | EmptyString => EmptyString
  | String c rest =>
      match rstrip rest with
      | EmptyString => if is_space c then EmptyString else String c EmptyString
      | kept => String c kept
      end
  end.

Definition strip (s : string) : string := rstrip (lstrip s).

(** [s.split(sep)] for a one-character separator: [str.split] without a
    bound cuts at every separator, of which there are at most
    [String.length s]. *)
Definition split_all (sep : ascii) (s : string) : list string :=
  split sep (String.length s) s.

(** What the constructor asks of the [RawConfigParser]: the value of an
    option by the mapping protocol, [parser[section][option]], and
    [parser.has_option(section, option)].  A read that fails raises the
    [NoOptionError] the constructor catches, with its message, or another
    exception. *)
Module Parser.
Inductive failure : Type :=
| NoOptionError (message : string)
| Other (e : exn).

Record t : Type := {
  getitem : string -> string -> failure + string;
  has_option : string -> string -> bool
}.
End Parser.

(** [TeamCityLDAPConf], whole: the entries the reconciliation reads
    ([Conf.t]) and the ones that only open the two connections. *)
Module TeamCityLDAPConf.
Record t : Type := {
  conf : Conf.t;
  ldap_uri : string;
  ldap_user : string;
  ldap_pass : string;
  tc_server : string;
  tc_username : string;
  tc_password : string;
  ldap_media : string
}.

Local Notation "x <~ m ;; k" :=
  (match m with inl failed => inl failed | inr x => k end)
  (at level 61, m at next level, right associativity, only parsing).

(** The body of the [try] block (lines 278-312). *)
Definition read (parser : Parser.t) : Parser.failure + t :=
  let get := Parser.getitem parser in
  ldap_uri <~ get "ldap" "uri" ;;
  ldap_base <~ get "ldap" "base" ;;
  groups <~ get "ldap" "groups" ;;
  let ldap_groups := map strip (split_all "," groups) in
  ldap_user <~ get "ldap" "binduser" ;;
  ldap_pass <~ get "ldap" "bindpass" ;;
  ad_filtergroup <~ get "ad" "filtergroup" ;;
  ad_filteruser <~ get "ad" "filteruser" ;;
  ad_filterdisabled <~ get "ad" "filterdisabled" ;;
  ad_filtermemberof <~ get "ad" "filtermemberof" ;;
  ad_groupattribute <~ get "ad" "groupattribute" ;;
  ad_userattribute <~ get "ad" "userattribute" ;;
  openldap_type <~ get "openldap" "type" ;;
  openldap_filtergroup <~ get "openldap" "filtergroup" ;;
  openldap_filteruser <~ get "openldap" "filteruser" ;;
  openldap_groupattribute <~ get "openldap" "groupattribute" ;;
  openldap_userattribute <~ get "openldap" "userattribute" ;;
  tc_server <~ get "teamcity" "server" ;;
  tc_username <~ get "teamcity" "username" ;;
  tc_password <~ get "teamcity" "password" ;;
  ldap_media <~ (if Parser.has_option parser "ldap" "media"
                 then get "ldap" "media" else inr "mail") ;;
  ldap_type <~ (if Parser.has_option parser "ldap" "type"
                then (ty <~ get "ldap" "type" ;; inr (Some ty))
                else inr None) ;;
  ldap_media <~ (if Parser.has_option parser "media" "description"
                 then get "media" "description" else inr "Email") ;;
  inr {| conf :=
           {| Conf.ldap_base := ldap_base;
              Conf.ldap_groups := ldap_groups;
              Conf.ldap_type := ldap_type;
              Conf.ad_filtergroup := ad_filtergroup;
              Conf.ad_filteruser := ad_filteruser;
              Conf.ad_filterdisabled := ad_filterdisabled;
              Conf.ad_filtermemberof := ad_filtermemberof;
              Conf.ad_groupattribute := ad_groupattribute;
              Conf.ad_userattribute := ad_userattribute;
              Conf.openldap_type := openldap_type;
              Conf.openldap_filtergroup := openldap_filtergroup;
              Conf.openldap_filteruser := openldap_filteruser;
              Conf.openldap_groupattribute := openldap_groupattribute;
              Conf.openldap_userattribute := openldap_userattribute |};
         ldap_uri := ldap_uri;
         ldap_user := ldap_user;
         ldap_pass := ldap_pass;
         tc_server := tc_server;
         tc_username := tc_username;
         tc_password := tc_password;
         ldap_media := ldap_media |}.

(** [TeamCityLDAPConf.__init__] *)
Definition init (parser : Parser.t) : outcome t :=
  match read parser with
  | inr self => Ok self
  | inl (Parser.NoOptionError e) =>
      Raise (SystemExit (pct "Configuration issues detected in %s" e))
  | inl (Parser.Other e) => Raise e
  end.
End TeamCityLDAPConf.

(** ** More concrete inputs *)

Module Example.

(** An Active Directory group whose transitive members hold two accounts
    that differ in case only. *)
Definition twins : string := "Twins.Zabbix.Team".
Definition twins_dn : string := "CN=Twins.Zabbix.Team,dc=example,dc=com".
Definition alice2_dn : string := "CN=Alice Second,dc=example,dc=com".

Definition twins_rows : list (string * string * list entry) :=
  [ (Scenario.base, "(&(objectClass=group)(name=Twins.Zabbix.Team))",
     [Scenario.group_entry "member" twins_dn twins []]);
    (Scenario.base,
     "(&(objectClass=user)(memberOf:1.2.840.113556.1.4.1941:=" +++ twins_dn +++ "))",
     [Scenario.user_entry Scenario.alice_dn "Alice";
      Scenario.user_entry alice2_dn "ALICE"]) ].

(** A TeamCity server with three groups: dave is in all of them, erin in
    the first and the last. *)
Definition devs_group : tc_group :=
  {| g_name := "Devs.Zabbix.Team"; g_key := "Devs.Zabbix.Team";
     g_href := "/app/rest/userGroups/key:Devs.Zabbix.Team" |}.

Definition ops_group : tc_group :=
  {| g_name := "Ops.Zabbix.Team"; g_key := "Ops.Zabbix.Team";
     g_href := "/app/rest/userGroups/key:Ops.Zabbix.Team" |}.

Definition three_groups_server : RefServer.state :=
  {| RefServer.groups := [devs_group; Scenario.admins_group; ops_group];
     RefServer.users :=
       [("dave", [devs_group; Scenario.admins_group; ops_group]);
        ("erin", [devs_group; ops_group])] |}.

Definition three_groups_client : Client.t :=
  {| Client.ldap_object := Scenario.ad_conn true true;
     Client.ldap_groups := [Scenario.admins];
     Client.tc_groups := [devs_group; Scenario.admins_group; ops_group];
     Client.tc_users := ["dave"; "erin"] |}.

(** The client of a TeamCity server without groups and users. *)
Definition fresh_client : Client.t :=
  {| Client.ldap_object := Scenario.ad_conn true true;
     Client.ldap_groups := [Scenario.admins];
     Client.tc_groups := [];
     Client.tc_users := [] |}.

(** A parser that holds the sections of a file as dicts of options and
    fails with [KeyError] on what the file does not have. *)
Definition parser_of (file : dict (dict string)) : Parser.t :=
  {| Parser.getitem := fun section option =>
       match dict_get file section with
       | Some options =>
           match dict_get options option with
           | Some value => inr value
           | None => inl (Parser.Other KeyError)
           end
       | None => inl (Parser.Other KeyError)
       end;
     Parser.has_option := fun section option =>
       match dict_get file section with
       | Some options =>
           match dict_get options option with
           | Some _ => true
           | None => false
           end
       | None => false
       end |}.

(** A configuration file for Active Directory. *)
Definition file : dict (dict string) :=
  [ ("ldap",
     [ ("type", "activedirectory");
       ("uri", "ldaps://ldap.example.com:636/");
       ("base", "dc=example,dc=com");
       ("binduser", "DOMAIN\ldapuser");
       ("bindpass", "ldappass");
       ("groups", "Admins.Zabbix.Team, Devs.Zabbix.Team ,");
       ("media", "jabber") ]);
    ("ad",
     [ ("filtergroup", "(&(objectClass=group)(name=%s))");
       ("filteruser", "(objectClass=user)(objectCategory=Person)");
       ("filterdisabled", "(!(userAccountControl:1.2.840.113556.1.4.803:=2))");
       ("filtermemberof", "(memberOf:1.2.840.113556.1.4.1941:=%s)");
       ("groupattribute", "member");
       ("userattribute", "sAMAccountName") ]);
    ("openldap",
     [ ("type", "posix");
       ("filtergroup", "(&(objectClass=posixGroup)(cn=%s))");
       ("filteruser", "(&(objectClass=posixAccount)(uid=%s))");
       ("groupattribute", "memberUid");
       ("userattribute", "uid") ]);
    ("teamcity",
     [ ("server", "http://teamcity.example.com");
       ("username", "admin");
       ("password", "secret") ]) ].

(** The same file without its [[openldap]] section. *)
Definition file_without_openldap : dict (dict string) :=
  filter (fun section => negb (String.eqb (fst section) "openldap")) file.

(** The configuration the constructor makes of [file]. *)
Definition settings : TeamCityLDAPConf.t :=
  {| TeamCityLDAPConf.conf :=
       {| Conf.ldap_base := "dc=example,dc=com";
          Conf.ldap_groups := ["Admins.Zabbix.Team"; "Devs.Zabbix.Team"; ""];
          Conf.ldap_type := Some "activedirectory";
          Conf.ad_filtergroup := "(&(objectClass=group)(name=%s))";
          Conf.ad_filteruser := "(objectClass=user)(objectCategory=Person)";
          Conf.ad_filterdisabled :=
            "(!(userAccountControl:1.2.840.113556.1.4.803:=2))";
          Conf.ad_filtermemberof := "(memberOf:1.2.840.113556.1.4.1941:=%s)";
          Conf.ad_groupattribute := "member";
          Conf.ad_userattribute := "sAMAccountName";
          Conf.openldap_type := "posix";
          Conf.openldap_filtergroup := "(&(objectClass=posixGroup)(cn=%s))";
          Conf.openldap_filteruser := "(&(objectClass=posixAccount)(uid=%s))";
          Conf.openldap_groupattribute := "memberUid";
          Conf.openldap_userattribute := "uid" |};
     TeamCityLDAPConf.ldap_uri := "ldaps://ldap.example.com:636/";
     TeamCityLDAPConf.ldap_user := "DOMAIN\ldapuser";
     TeamCityLDAPConf.ldap_pass := "ldappass";
     TeamCityLDAPConf.tc_server := "http://teamcity.example.com";
     TeamCityLDAPConf.tc_username := "admin";
     TeamCityLDAPConf.tc_password := "secret";
     TeamCityLDAPConf.ldap_media := "Email" |}.

End Example.

(** ** The vocabulary of the properties *)

(** A computation is silent when it makes no client call. *)
Definition silent (E : Env) {A} (m : M E A) : Prop :=
  forall s, calls_of (trace_of (m s)) = [].

(** A computation that does not touch the server: it leaves the state as it
    is and does the same from every state. *)
Definition stateless (E : Env) {A} (m : M E A) : Prop :=
  forall s,
    state_of (m s) = s
    /\ forall s', trace_of (m s') = trace_of (m s)
                  /\ result_of (m s') = result_of (m s).


(** The names a pattern expands to; nothing when the expansion raises. *)
Definition expansion (E : Env) (self : LDAPConn.t) (s : tc_state E) (p : string)
    : list string :=
  match result_of (get_groups_with_wildcard E self p s) with
  | Ok names => names
  | Raise _ => []
  end.

(** The name under which [fill_listing] files an entry. *)
Definition normalized (E : Env) (self : LDAPConn.t) (name : string) : string :=
  if LDAPConn.lowercase self then str_lower E name else name.

(** The filter of the one search recursive resolution makes for the members
    of the group with DN [result_dn] (lines 146-151). *)
Definition member_of_filter (self : LDAPConn.t) (result_dn : string) : string :=
  if LDAPConn.skipdisabled self
  then "(&" +++ LDAPConn.user_filter self
            +++ pct (LDAPConn.memberof_filter self) result_dn
            +++ LDAPConn.disabled_filter self +++ ")"
  else "(&" +++ LDAPConn.user_filter self
            +++ pct (LDAPConn.memberof_filter self) result_dn +++ ")".

(** The name of a group the client can see. *)
Definition zabbix (group : tc_group) : Prop :=
  contains ".Zabbix." (g_name group) = true.

(** The filter of the lookup direct resolution makes for each member (lines
    165-168). *)
Definition direct_filter (self : LDAPConn.t) : string :=
  if LDAPConn.skipdisabled self
  then "(&" +++ LDAPConn.user_filter self
            +++ LDAPConn.disabled_filter self +++ ")"
  else "(&" +++ LDAPConn.user_filter self +++ ")".

(** [c in s] for a character. *)
Fixpoint has_char (c : ascii) (s : string) : bool :=
  match s with
  | EmptyString => false
  | String c' rest => Ascii.eqb c' c || has_char c rest
  end.

(** A template whose only [%] is that of one [%s]: a template Python's [%]
    formats with one string argument, with the result [pct] gives. *)
Fixpoint plain_template (template : string) : bool :=
  match template with
  | EmptyString => false
  | String c rest =>
      if Ascii.eqb c "%"%char
      then match rest with
           | String c' rest' => Ascii.eqb c' "s"%char && negb (has_char "%" rest')
           | EmptyString => false
           end
      else plain_template rest
  end.

(** A string of ASCII characters: on these a character is a byte, and
    [slice_to], [strip] and [lower] do what Python's slices, [str.strip]
    and [str.lower] do. *)
Fixpoint ascii_only (s : string) : bool :=
  match s with
  | EmptyString => true
  | String c rest => (nat_of_ascii c <? 128)%nat && ascii_only rest
  end.

(** The group a client call is about. *)
Definition group_of (c : call) : option string :=
  match c with
  | CreateGroup g => Some g
  | CreateUser _ => None
  | GetUsersFromGroup g => Some g
  | AddUserToGroup _ g => Some g
  | RemoveUserFromGroup _ g => Some g
  end.

(** A computation all of whose printed lines satisfy [P]. *)
Definition prints_only (E : Env) (P : string -> Prop) {A} (m : M E A) : Prop :=
  forall s line, In line (printed (trace_of (m s))) -> P line.

(** The progress lines of the script start with [>]. *)
Definition progress_line (line : string) : Prop :=
  exists rest, line = String ">" rest.

(** The options the constructor reads whatever the file says (lines
    279-297), and the ones it reads when [has_option] says they are there
    (lines 299-312). *)
Definition required : list (string * string) :=
  [ ("ldap", "uri"); ("ldap", "base"); ("ldap", "groups");
    ("ldap", "binduser"); ("ldap", "bindpass");
    ("ad", "filtergroup"); ("ad", "filteruser"); ("ad", "filterdisabled");
    ("ad", "filtermemberof"); ("ad", "groupattribute");
    ("ad", "userattribute");
    ("openldap", "type"); ("openldap", "filtergroup");
    ("openldap", "filteruser"); ("openldap", "groupattribute");
    ("openldap", "userattribute");
    ("teamcity", "server"); ("teamcity", "username");
    ("teamcity", "password") ].

Definition optional : list (string * string) :=
  [ ("ldap", "media"); ("ldap", "type"); ("media", "description") ].

(** [s.count(c)] for a character. *)
Fixpoint count_char (c : ascii) (s : string) : nat :=
  match s with
  | EmptyString => 0
  | String c' rest =>
      if Ascii.eqb c' c then S (count_char c rest) else count_char c rest
  end.

(** A string with no white space at either end. *)
Definition starts_with_space (s : string) : bool :=
  match s with
  | EmptyString => false
  | String c _ => is_space c
  end.

Fixpoint ends_with_space (s : string) : bool :=
  match s with
  | EmptyString => false
  | String c EmptyString => is_space c
  | String _ rest => ends_with_space rest
  end.

Definition trimmed (s : string) : Prop :=
  starts_with_space s = false /\ ends_with_space s = false.

(** ** A reference directory *)

(** A directory of groups and users that answers the two searches of
    recursive resolution as Active Directory does: the group filter finds
    the group of that name, and the member-of filter on a group's DN (the
    rule LDAP_MATCHING_RULE_IN_CHAIN) finds the users that are members of
    the group or of a group nested in it, however the groups contain each
    other.  The directory is not code of the repository; it stands for the
    server in the statement on nested groups. *)
Module RefDirectory.

Record group : Type := {
  group_name : string;
  group_dn : string;
  member : list string
}.

Record user : Type := {
  user_dn : string;
  sAMAccountName : string;
  disabled : bool
}.

Record t : Type := {
  groups : list group;
  users : list user
}.

Definition is_group (D : t) (d : string) : bool :=
  in_list d (map group_dn (groups D)).



(** How the directory finds them.  One round of descent adds the groups
    that are members of a group it has seen and that it has not seen. *)
Definition fresh (D : t) (seen : list string) : list string :=
  nodup string_dec
    (filter (fun d => is_group D d && negb (in_list d seen))
       (flat_map member
          (filter (fun g => in_list (group_dn g) seen) (groups D)))).

Fixpoint descend (D : t) (rounds : nat) (seen : list string) : list string :=
  match rounds with
  | 0 => seen
  | S n => descend D n (seen ++ fresh D seen)
  end.

(** No round adds a group after as many rounds as there are groups. *)
Definition chain (D : t) (a : string) : list string :=
  descend D (S (length (groups D))) [a].

Definition chain_users (D : t) (a : string) : list user :=
  filter (fun u =>
            existsb (fun g => in_list (group_dn g) (chain D a)
                              && in_list (user_dn u) (member g))
              (groups D))
    (users D).

(** The entries of an answer carry the attribute the connection asks for:
    the member attribute of a group, and the sAMAccountName of a user. *)
Definition group_entry (self : LDAPConn.t) (g : group) : entry :=
  {| dn := group_dn g;
     str_attrs := [];
     list_attrs := [(LDAPConn.group_member_attribute self, member g)] |}.

Definition user_entry (self : LDAPConn.t) (u : user) : entry :=
  {| dn := user_dn u;
     str_attrs :=
       if String.eqb (LDAPConn.uid_attribute self) "sAMAccountName"
       then [("sAMAccountName", sAMAccountName u)] else [];
     list_attrs := [] |}.

(** The users the member search of the connection finds for a group: those
    in its chain, without the disabled accounts when the filter carries the
    clause that excludes them. *)
Definition found (self : LDAPConn.t) (D : t) (g : group) : list user :=
  filter (fun u => negb (LDAPConn.skipdisabled self && disabled u))
    (chain_users D (group_dn g)).

(** The answers, by search filter, to the searches the connection makes. *)
Definition rows (self : LDAPConn.t) (D : t)
    : list (string * string * list entry) :=
  map (fun g => (LDAPConn.base self,
                 pct (LDAPConn.group_filter self) (group_name g),
                 [group_entry self g]))
    (groups D)
  ++ map (fun g => (LDAPConn.base self,
                    member_of_filter self (group_dn g),
                    map (user_entry self) (found self D g)))
       (groups D).


Definition env (self : LDAPConn.t) (D : t) : Env :=
  RefServer.env (rows self D).

End RefDirectory.

(** Groups that contain each other: A holds alice and B, B holds bob and A.
    A third group holds carol. *)
Module Nested.

Definition a : string := "A.Zabbix.Nested".
Definition a_dn : string := "CN=A.Zabbix.Nested,dc=example,dc=com".
Definition b_dn : string := "CN=B.Zabbix.Nested,dc=example,dc=com".
Definition carol_dn : string := "CN=Carol,dc=example,dc=com".

Definition group_a : RefDirectory.group :=
  {| RefDirectory.group_name := a;
     RefDirectory.group_dn := a_dn;
     RefDirectory.member := [Scenario.alice_dn; b_dn] |}.

Definition directory : RefDirectory.t :=
  {| RefDirectory.groups :=
       [ group_a;
         {| RefDirectory.group_name := "B.Zabbix.Nested";
            RefDirectory.group_dn := b_dn;
            RefDirectory.member := [Scenario.bob_dn; a_dn] |};
         {| RefDirectory.group_name := "C.Zabbix.Other";
            RefDirectory.group_dn := "CN=C.Zabbix.Other,dc=example,dc=com";
            RefDirectory.member := [carol_dn] |} ];
     RefDirectory.users :=
       [ {| RefDirectory.user_dn := Scenario.alice_dn;
            RefDirectory.sAMAccountName := "Alice";
            RefDirectory.disabled := false |};
         {| RefDirectory.user_dn := Scenario.bob_dn;
            RefDirectory.sAMAccountName := "Bob";
            RefDirectory.disabled := false |};
         {| RefDirectory.user_dn := carol_dn;
            RefDirectory.sAMAccountName := "Carol";
            RefDirectory.disabled := false |} ] |}.


End Nested.

(** * Properties *)

(** ** Running a computation *)

Section Traces.

Variable E : Env.

Lemma calls_of_app (t1 t2 : list event) :
  calls_of (t1 ++ t2) = calls_of t1 ++ calls_of t2.
Proof.
  induction t1 as [|e t1 IH]; simpl; [reflexivity|].
  destruct e; simpl; rewrite IH; reflexivity.
Qed.

Lemma searches_of_app (t1 t2 : list event) :
  searches_of (t1 ++ t2) = searches_of t1 ++ searches_of t2.
Proof.
  induction t1 as [|e t1 IH]; simpl; [reflexivity|].
  destruct e; simpl; rewrite IH; reflexivity.
Qed.

Lemma printed_app (t1 t2 : list event) :
  printed (t1 ++ t2) = printed t1 ++ printed t2.
Proof.
  induction t1 as [|e t1 IH]; simpl; [reflexivity|].
  destruct e; simpl; rewrite IH; reflexivity.
Qed.

Lemma bind_trace {A B} (m : M E A) (f : A -> M E B) (s : tc_state E) :
  trace_of (bind m f s) =
  trace_of (m s) ++
  match result_of (m s) with
  | Ok a => trace_of (f a (state_of (m s)))
  | Raise _ => []
  end.
Proof.
  unfold bind, trace_of, result_of, state_of.
  destruct (m s) as [[s1 t1] [a|e]]; simpl.
  - destruct (f a s1) as [[s2 t2] r]; reflexivity.
  - symmetry; apply app_nil_r.
Qed.

Lemma bind_result {A B} (m : M E A) (f : A -> M E B) (s : tc_state E) :
  result_of (bind m f s) =
  match result_of (m s) with
  | Ok a => result_of (f a (state_of (m s)))
  | Raise e => Raise e
  end.
Proof.
  unfold bind, trace_of, result_of, state_of.
  destruct (m s) as [[s1 t1] [a|e]]; simpl; [|reflexivity].
  destruct (f a s1) as [[s2 t2] r]; reflexivity.
Qed.

Lemma bind_state {A B} (m : M E A) (f : A -> M E B) (s : tc_state E) :
  state_of (bind m f s) =
  match result_of (m s) with
  | Ok a => state_of (f a (state_of (m s)))
  | Raise e => state_of (m s)
  end.
Proof.
  unfold bind, trace_of, result_of, state_of.
  destruct (m s) as [[s1 t1] [a|e]]; simpl; [|reflexivity].
  destruct (f a s1) as [[s2 t2] r]; reflexivity.
Qed.

Lemma run_eta {A} (x : tc_state E * list event * outcome A) :
  x = (state_of x, trace_of x, result_of x).
Proof. destruct x as [[s t] r]; reflexivity. Qed.

Lemma bind_ret_l {A B} (a : A) (f : A -> M E B) (s : tc_state E) :
  bind (ret a) f s = f a s.
Proof. unfold bind, ret. destruct (f a s) as [[s2 t2] r]. reflexivity. Qed.

Lemma bind_raise_l {A B} (e : exn) (f : A -> M E B) (s : tc_state E) :
  bind (raise e) f s = (s, [], Raise e).
Proof. reflexivity. Qed.

Lemma bind_emit_l {B} (e : event) (f : unit -> M E B) (s : tc_state E) :
  bind (emit E e) f s
  = (state_of (f tt s), e :: trace_of (f tt s), result_of (f tt s)).
Proof. unfold bind, emit. destruct (f tt s) as [[s2 t2] r]. reflexivity. Qed.

Lemma bind_print_l {B} (line : string) (f : unit -> M E B) (s : tc_state E) :
  bind (print E line) f s
  = (state_of (f tt s), Print line :: trace_of (f tt s), result_of (f tt s)).
Proof. apply bind_emit_l. Qed.

Lemma bind_conn_search_l {B} (b f : string) (a : list string)
    (k : list entry -> M E B) (s : tc_state E) :
  bind (conn_search E b f a) k s
  = (state_of (k (directory E b f a) s),
     LdapSearch b f a :: trace_of (k (directory E b f a) s),
     result_of (k (directory E b f a) s)).
Proof.
  unfold conn_search, bind, emit, ret.
  destruct (k (directory E b f a) s) as [[s2 t2] r]. reflexivity.
Qed.

Lemma bind_http_l {B} (r : request) (k : response -> M E B) (s : tc_state E) :
  bind (http E r) k s
  = (state_of (k (snd (tc_handle E s r)) (fst (tc_handle E s r))),
     Http r :: trace_of (k (snd (tc_handle E s r)) (fst (tc_handle E s r))),
     result_of (k (snd (tc_handle E s r)) (fst (tc_handle E s r)))).
Proof.
  unfold bind, http. destruct (tc_handle E s r) as [s1 resp]. cbn [fst snd].
  destruct (k resp s1) as [[s2 t2] res]. reflexivity.
Qed.

Lemma silent_ret {A} (a : A) : silent E (ret a).
Proof. intro s; reflexivity. Qed.

Lemma silent_raise {A} (e : exn) : silent E (@raise E A e).
Proof. intro s; reflexivity. Qed.

Lemma silent_bind {A B} (m : M E A) (f : A -> M E B) :
  silent E m -> (forall a, silent E (f a)) -> silent E (bind m f).
Proof.
  intros Hm Hf s. rewrite bind_trace, calls_of_app, Hm.
  destruct (result_of (m s)); [apply Hf | reflexivity].
Qed.

Lemma silent_http (r : request) : silent E (http E r).
Proof. intro s. unfold http. destruct (tc_handle E s r). reflexivity. Qed.

Lemma silent_print (line : string) : silent E (print E line).
Proof. intro s; reflexivity. Qed.

Lemma silent_conn_search (b f : string) (a : list string) :
  silent E (conn_search E b f a).
Proof. intro s; reflexivity. Qed.

Lemma silent_getitem {V} (d : dict V) (k : string) : silent E (getitem E d k).
Proof. unfold getitem. destruct (dict_get d k); [apply silent_ret | apply silent_raise]. Qed.

Lemma silent_index {A} (l : list A) (i : nat) : silent E (index E l i).
Proof. unfold index. destruct (nth_error l i); [apply silent_ret | apply silent_raise]. Qed.

End Traces.

Create HintDb silent.

#[local] Hint Resolve silent_ret silent_raise silent_http silent_print
  silent_conn_search silent_getitem silent_index : silent.

(** Closes a goal [silent m] for a computation built from the silent
    primitives. *)
Ltac silence :=
  repeat first
    [ progress intros
    | solve [auto with silent]
    | apply silent_bind
    | match goal with
      | |- silent _ (if ?b then _ else _) => destruct b
      | |- silent _ (match ?x with _ => _ end) => destruct x
      end ].

(** Splits on the outcome a goal inspects; a raise closes a goal of the
    form [_ \/ (_ = [] /\ exists e, _ = Raise e)]. *)
Ltac case_result a :=
  match goal with
  | |- context [match result_of ?x with _ => _ end] =>
      let e := fresh "e" in
      destruct (result_of x) as [a|e];
      [|right; split; [reflexivity|eexists; reflexivity]]
  end.

(** ** The calls of a pass *)

Section Calls.

Variable E : Env.

(** A guarded loop makes the calls of the elements that pass the guard, in
    order; it stops at the first element whose body raises. *)
Lemma for_calls {A} (cond : A -> bool) (c : A -> call)
    (body : A -> M E unit) :
  (forall x s, cond x = false ->
     calls_of (trace_of (body x s)) = [] /\ result_of (body x s) = Ok tt) ->
  (forall x s, cond x = true ->
     calls_of (trace_of (body x s)) = [c x] \/
     (calls_of (trace_of (body x s)) = [] /\
      exists e, result_of (body x s) = Raise e)) ->
  forall l s, exists rest,
    map c (filter cond l) = calls_of (trace_of (for_ E l body s)) ++ rest /\
    (result_of (for_ E l body s) = Ok tt -> rest = []).
Proof.
  intros Hskip Hact l.
  induction l as [|x l IH]; intro s.
  - exists []. split; reflexivity.
  - cbn [for_ filter].
    rewrite bind_trace, bind_result, calls_of_app.
    destruct (cond x) eqn:Hc.
    + destruct (Hact x s Hc) as [Hcall | [Hcall [e He]]].
      * rewrite Hcall.
        destruct (result_of (body x s)) as [[]|e].
        -- destruct (IH (state_of (body x s))) as [rest [Heq Hok]].
           exists rest. split; [|exact Hok].
           cbn [map app]. rewrite Heq. reflexivity.
        -- exists (map c (filter cond l)). split; [reflexivity|discriminate].
      * rewrite Hcall, He.
        exists (map c (x :: filter cond l)). split; [reflexivity|discriminate].
    + destruct (Hskip x s Hc) as [Hcall Hres].
      rewrite Hcall, Hres.
      destruct (IH (state_of (body x s))) as [rest [Heq Hok]].
      exists rest. split; assumption.
Qed.

Lemma get_user_groups_silent (user : string) : silent E (get_user_groups E user).
Proof. unfold get_user_groups. silence. Qed.

Lemma add_user_to_group_calls (self : Client.t) (user group : string) s :
  calls_of (trace_of (add_user_to_group E self user group s))
  = [AddUserToGroup user group].
Proof.
  unfold add_user_to_group. rewrite bind_trace, calls_of_app. cbn.
  f_equal.
  assert (H : silent E
    (bind (get_user_groups E user) (fun user_groups =>
     bind (index E (map g_href (named self group)) 0) (fun href =>
     bind (index E (map g_key (named self group)) 0) (fun key =>
     bind (user_groups_group E user_groups) (fun groups =>
     bind (http E (PUT_user_groups user
             (groups ++ [{| g_name := group; g_key := key; g_href := href |}])))
          (fun resp =>
             if negb (Z.eqb (status_code resp) 200)
             then str_plus_bytes E else ret tt))))))).
  { pose proof (get_user_groups_silent user).
    unfold user_groups_group, str_plus_bytes. silence. }
  apply H.
Qed.

Lemma remove_user_from_group_calls (self : Client.t) (user group : string) s :
  calls_of (trace_of (remove_user_from_group E self user group s))
  = [RemoveUserFromGroup user group].
Proof.
  unfold remove_user_from_group. rewrite bind_trace, calls_of_app. cbn.
  f_equal.
  assert (H : silent E
    (bind (get_user_groups E user) (fun user_groups =>
     bind (user_groups_group E user_groups) (fun groups =>
     bind (http E (PUT_user_groups user
             (remove_named (length groups) 0 groups group)))
          (fun resp =>
             if negb (Z.eqb (status_code resp) 200)
             then str_plus_bytes E else ret tt))))).
  { pose proof (get_user_groups_silent user).
    unfold user_groups_group, str_plus_bytes. silence. }
  apply H.
Qed.

Lemma get_users_from_group_calls (self : Client.t) (group : string) s :
  calls_of (trace_of (get_users_from_group E self group s))
  = [GetUsersFromGroup group].
Proof.
  unfold get_users_from_group. rewrite bind_trace, calls_of_app. cbn.
  f_equal.
  assert (H : silent E
    (if truthy (Client.tc_groups self)
     then bind (index E (map g_key (named self group)) 0) (fun key =>
          bind (http E (GET_userGroups_key key)) (fun resp =>
          bind (if negb (Z.eqb (status_code resp) 200)
                then str_plus_bytes E else ret tt) (fun _ =>
          bind (json_users_user E (json resp)) (fun users => ret users))))
     else ret [])).
  { unfold json_users_user, str_plus_bytes. silence. }
  apply H.
Qed.

(** A PUT that TeamCity answers with another status than 200 ends
    [add_user_to_group] in the [TypeError] of [str + bytes] (line 387). *)
Lemma add_user_to_group_failed_put (self : Client.t) (user group : string)
    (ge : tc_group) (l : list tc_group) s s1 t1 :
  get_user_groups E user s = (s1, t1, Ok (inl (Groups l))) ->
  hd_error (named self group) = Some ge ->
  status_code
    (snd (tc_handle E s1
            (PUT_user_groups user
               (l ++ [{| g_name := group; g_key := g_key ge;
                         g_href := g_href ge |}])))) <> 200%Z ->
  result_of (add_user_to_group E self user group s) = Raise TypeError.
Proof.
  intros Hget Hhd Hstatus.
  assert (Hk : nth_error (map g_key (named self group)) 0 = Some (g_key ge))
    by (destruct (named self group); [discriminate|];
        injection Hhd as <-; reflexivity).
  assert (Hh : nth_error (map g_href (named self group)) 0 = Some (g_href ge))
    by (destruct (named self group); [discriminate|];
        injection Hhd as <-; reflexivity).
  unfold add_user_to_group. rewrite bind_emit_l. cbn [result_of snd].
  unfold bind at 1. rewrite Hget.
  unfold index. rewrite Hh, Hk. rewrite !bind_ret_l.
  cbn [user_groups_group]. rewrite bind_ret_l, bind_http_l.
  cbn [result_of snd fst].
  apply Z.eqb_neq in Hstatus. rewrite Hstatus. reflexivity.
Qed.

End Calls.

(** ** The membership diff (lines 438-449) *)

Section Diff.

Variable E : Env.

Lemma in_list_In (x : string) (l : list string) :
  in_list x l = true <-> In x l.
Proof.
  unfold in_list. rewrite existsb_exists. split.
  - intros [y [Hin Heq]]. apply String.eqb_eq in Heq. subst. exact Hin.
  - intro Hin. exists x. split; [exact Hin | apply String.eqb_refl].
Qed.

Lemma in_minus (u : string) (a b : list string) :
  In u (Reconciler.minus a b) <-> In u a /\ ~ In u b.
Proof.
  unfold Reconciler.minus. rewrite filter_In, negb_true_iff.
  rewrite <- in_list_In with (l := b).
  destruct (in_list u b); intuition congruence.
Qed.

Lemma add_users_calls (self : Client.t) (group : string)
    (desired observed : list string) s :
  exists rest,
    map (fun u => AddUserToGroup u group) (Reconciler.minus desired observed)
    = calls_of (trace_of (add_users E self group desired observed s)) ++ rest
    /\ (result_of (add_users E self group desired observed s) = Ok tt ->
        rest = []).
Proof.
  unfold add_users, Reconciler.minus.
  apply (for_calls E (fun u => negb (in_list u observed))
                   (fun u => AddUserToGroup u group)).
  - intros x s0 Hc. rewrite Hc. split; reflexivity.
  - intros x s0 Hc. rewrite Hc. left. apply add_user_to_group_calls.
Qed.

Lemma remove_users_calls (self : Client.t) (group : string)
    (desired observed : list string) s :
  exists rest,
    map (fun u => RemoveUserFromGroup u group)
        (Reconciler.minus observed desired)
    = calls_of (trace_of (remove_users E self group observed desired s)) ++ rest
    /\ (result_of (remove_users E self group observed desired s) = Ok tt ->
        rest = []).
Proof.
  unfold remove_users, Reconciler.minus.
  apply (for_calls E (fun u => negb (in_list u desired))
                   (fun u => RemoveUserFromGroup u group)).
  - intros x s0 Hc. rewrite Hc. split; reflexivity.
  - intros x s0 Hc. rewrite Hc. left. apply remove_user_from_group_calls.
Qed.

(** The calls of lines 438-449 are a prefix of: fetch, the additions of
    [diff], the removals of [diff]; all of them when nothing raises. *)
Lemma sync_members_calls (self : Client.t) (group : string)
    (ldap_group_users : dict string) s s1 t1 observed :
  get_users_from_group E self group s = (s1, t1, Ok observed) ->
  let p := Reconciler.diff (keys ldap_group_users) observed in
  exists rest,
    [GetUsersFromGroup group]
    ++ map (fun u => AddUserToGroup u group) (Reconciler.toAdd p)
    ++ map (fun u => RemoveUserFromGroup u group) (Reconciler.toRemove p)
    = calls_of (trace_of (sync_members E self group ldap_group_users s)) ++ rest
    /\ (result_of (sync_members E self group ldap_group_users s) = Ok tt ->
        rest = []).
Proof.
  intros Hget p. subst p. cbn [Reconciler.diff Reconciler.toAdd Reconciler.toRemove].
  unfold sync_members.
  rewrite bind_trace, bind_result, calls_of_app.
  pose proof (get_users_from_group_calls E self group s) as Hcalls.
  rewrite Hget in *. cbn [result_of trace_of state_of fst snd] in *.
  rewrite Hcalls.
  rewrite bind_trace, bind_result, calls_of_app.
  destruct (add_users_calls self group (keys ldap_group_users) observed s1)
    as [ra [Ha Hra]].
  destruct (result_of (add_users E self group (keys ldap_group_users) observed s1))
    as [[]|e].
  - rewrite (Hra eq_refl), app_nil_r in Ha.
    destruct (remove_users_calls self group (keys ldap_group_users) observed
                (state_of (add_users E self group (keys ldap_group_users)
                             observed s1))) as [rr [Hr Hrr]].
    exists rr. split; [|exact Hrr].
    rewrite Ha, Hr. rewrite <- !app_assoc. reflexivity.
  - exists (ra ++ map (fun u => RemoveUserFromGroup u group)
                    (Reconciler.minus observed (keys ldap_group_users))).
    split; [|discriminate].
    rewrite Ha, app_nil_r. rewrite <- !app_assoc. reflexivity.
Qed.

End Diff.

(** ** The calls of one group's pass (lines 416-449) *)

Section Pass.

Variable E : Env.

Lemma silent_bind_calls {A B} (m : M E A) (f : A -> M E B) s :
  silent E m ->
  calls_of (trace_of (bind m f s)) =
  match result_of (m s) with
  | Ok a => calls_of (trace_of (f a (state_of (m s))))
  | Raise _ => []
  end.
Proof.
  intro Hm. rewrite bind_trace, calls_of_app, Hm.
  destruct (result_of (m s)); reflexivity.
Qed.

Lemma direct_members_silent (self : LDAPConn.t) attrlist members acc :
  silent E (direct_members E self attrlist members acc).
Proof.
  revert acc. induction members as [|m members IH]; intro acc; cbn [direct_members].
  - apply silent_ret.
  - apply silent_bind; [apply silent_conn_search | intro uid; apply IH].
Qed.

Lemma fill_listing_silent (self : LDAPConn.t) group_members acc :
  silent E (fill_listing E self group_members acc).
Proof.
  revert acc. induction group_members as [|i l IH]; intro acc; cbn [fill_listing].
  - apply silent_ret.
  - apply silent_bind; [apply silent_getitem | intro u; apply IH].
Qed.

Lemma get_group_members_silent (self : LDAPConn.t) (group : string) :
  silent E (get_group_members E self group).
Proof.
  pose proof (direct_members_silent self).
  pose proof (fill_listing_silent self).
  unfold get_group_members. silence.
Qed.

Lemma get_user_attributes_silent (self : LDAPConn.t) dn_ attr_list :
  silent E (get_user_attributes E self dn_ attr_list).
Proof. unfold get_user_attributes. silence. Qed.

Lemma get_tc_groups_silent : silent E (get_tc_groups E).
Proof. unfold get_tc_groups, json_group. silence. Qed.

Lemma create_user_calls (self : Client.t) (user : user_profile) s :
  calls_of (trace_of (create_user E self user s)) = [CreateUser (u_username user)]
  /\ result_of (create_user E self user s) = Ok tt.
Proof.
  unfold create_user, bind, emit, http, ret, trace_of, result_of. cbn.
  destruct (tc_handle E s _). split; reflexivity.
Qed.

Lemma create_group_calls (self : Client.t) (group : string) s :
  calls_of (trace_of (create_group E self group s)) = [CreateGroup group]
  /\ result_of (create_group E self group s) = Ok tt.
Proof.
  unfold create_group, bind, emit, http, ret, trace_of, result_of. cbn.
  destruct (tc_handle E s _). split; reflexivity.
Qed.

Lemma create_unknown_calls (self : Client.t) (member : string * string) s :
  negb (in_list (fst member) (Client.tc_users self)) = true ->
  calls_of (trace_of (create_unknown E self member s)) = [CreateUser (fst member)]
  \/ (calls_of (trace_of (create_unknown E self member s)) = []
      /\ exists e, result_of (create_unknown E self member s) = Raise e).
Proof.
  destruct member as [login dn_]. cbn [fst]. intro Hc.
  unfold create_unknown. rewrite Hc.
  rewrite silent_bind_calls by apply get_user_attributes_silent.
  rewrite bind_result. case_result attributes.
  rewrite silent_bind_calls by apply silent_getitem.
  rewrite bind_result. case_result sn.
  rewrite silent_bind_calls by silence.
  rewrite bind_result. case_result name.
  left. apply create_user_calls.
Qed.

Lemma create_unknown_skip (self : Client.t) (member : string * string) s :
  negb (in_list (fst member) (Client.tc_users self)) = false ->
  calls_of (trace_of (create_unknown E self member s)) = []
  /\ result_of (create_unknown E self member s) = Ok tt.
Proof.
  destruct member as [login dn_]. cbn [fst]. intro Hc.
  unfold create_unknown. rewrite Hc. split; reflexivity.
Qed.

Lemma unknown_users (tc_users : list string) (d : dict string) :
  map (fun m : string * string => CreateUser (fst m))
      (filter (fun m => negb (in_list (fst m) tc_users)) (items d))
  = map CreateUser (Reconciler.minus (keys d) tc_users).
Proof.
  unfold items, keys, Reconciler.minus.
  induction d as [|[k v] d IH]; [reflexivity|].
  cbn [filter map fst]. destruct (negb (in_list k tc_users)); cbn [map fst];
    rewrite IH; reflexivity.
Qed.

Lemma create_users_calls (self : Client.t) (d : dict string) s :
  exists rest,
    map CreateUser (Reconciler.minus (keys d) (Client.tc_users self))
    = calls_of (trace_of (create_users E self (items d) s)) ++ rest
    /\ (result_of (create_users E self (items d) s) = Ok tt -> rest = []).
Proof.
  rewrite <- unknown_users. unfold create_users.
  apply (for_calls E (fun m => negb (in_list (fst m) (Client.tc_users self)))
                   (fun m => CreateUser (fst m))).
  - intros x s0 Hc. apply create_unknown_skip. exact Hc.
  - intros x s0 Hc. apply create_unknown_calls. exact Hc.
Qed.

(** What [ensure_group] leaves: the client it returns has the same known
    users, and the only call is the creation of an absent group. *)
Lemma ensure_group_calls (self : Client.t) (group : string) s :
  calls_of (trace_of (ensure_group E self group s))
  = (if in_list group (map g_name (Client.tc_groups self))
     then [] else [CreateGroup group])
  /\ (forall self', result_of (ensure_group E self group s) = Ok self' ->
      Client.tc_users self' = Client.tc_users self
      /\ Client.ldap_object self' = Client.ldap_object self).
Proof.
  unfold ensure_group.
  destruct (in_list group (map g_name (Client.tc_groups self))); cbn [negb].
  - split; [reflexivity|]. intros self' H. injection H as <-. split; reflexivity.
  - rewrite bind_trace, bind_result, calls_of_app.
    destruct (create_group_calls self group s) as [Hc Hr]. rewrite Hc, Hr.
    rewrite silent_bind_calls by apply get_tc_groups_silent.
    rewrite bind_result.
    destruct (result_of (get_tc_groups E _)) as [refreshed|e].
    + split; [reflexivity|]. intros self' H. injection H as <-. split; reflexivity.
    + split; [reflexivity|]. intros self' H. discriminate.
Qed.






(** Closes the three parts of [sync_group_calls] once the calls made and the
    calls left are in place. *)
Ltac plan_prefix :=
  repeat match goal with P := _ |- _ => subst P end;
  split;
  [ cbv beta delta [Reconciler.group_plan];
    cbn [calls_of trace_of result_of fst snd];
    rewrite ?app_nil_r; rewrite <- ?app_assoc; reflexivity
  | split;
    [ first [ reflexivity | intros [? ?]; discriminate ]
    | split;
      [ reflexivity
      | first [ left; reflexivity
              | right; eexists _, _, _; split; eassumption ] ] ] ].

(** The calls of one pass are a prefix of the plan of steps 1 to 4, and the
    whole plan when the pass returns. *)
Lemma sync_group_calls (self : Client.t) (group : string) s :
  exists desired observed rest,
    Reconciler.group_plan self group desired observed
    = calls_of (trace_of (sync_group E self group s)) ++ rest
    /\ ((exists self', result_of (sync_group E self group s) = Ok self') ->
        rest = [])
    /\ desired
       = match result_of (get_group_members E (Client.ldap_object self) group s)
         with
         | Ok (Some d) => keys d
         | _ => []
         end
    /\ (observed = []
        \/ exists self1 s1 s2,
             result_of (ensure_group E self group s1) = Ok self1
             /\ result_of (get_users_from_group E self1 group s2) = Ok observed).
Proof.
  pose (P2 := fun d => map CreateUser (Reconciler.minus d (Client.tc_users self))).
  pose (P4 := fun d o =>
    map (fun u => AddUserToGroup u group)
        (Reconciler.toAdd (Reconciler.diff d o))
    ++ map (fun u => RemoveUserFromGroup u group)
           (Reconciler.toRemove (Reconciler.diff d o))).
  unfold sync_group, Reconciler.group_plan.
  rewrite silent_bind_calls by apply get_group_members_silent.
  rewrite bind_result.
  destruct (result_of (get_group_members E (Client.ldap_object self) group s))
    as [lgu|e].
  2:{ exists [], [], (Reconciler.group_plan self group [] []). plan_prefix. }
  set (s0 := state_of (get_group_members E (Client.ldap_object self) group s)).
  rewrite bind_trace, bind_result, calls_of_app.
  destruct (ensure_group_calls self group s0) as [Hens Hsame].
  rewrite Hens.
  destruct (result_of (ensure_group E self group s0)) as [self1|e] eqn:Hself1.
  2:{ destruct lgu as [d|].
      - exists (keys d), [], (P2 (keys d) ++ [GetUsersFromGroup group] ++ P4 (keys d) []).
        plan_prefix.
      - exists [], [], (P2 [] ++ [GetUsersFromGroup group] ++ P4 [] []).
        plan_prefix. }
  destruct (Hsame self1 eq_refl) as [Husers _].
  set (s1 := state_of (ensure_group E self group s0)).
  destruct lgu as [d|].
  2:{ exists [], [], (P2 [] ++ [GetUsersFromGroup group] ++ P4 [] []).
      plan_prefix. }
  rewrite bind_trace, bind_result, calls_of_app.
  destruct (create_users_calls self1 d s1) as [rc [Hc Hrc]].
  rewrite Husers in Hc.
  destruct (result_of (create_users E self1 (items d) s1)) as [[]|e].
  2:{ exists (keys d), [], (rc ++ [GetUsersFromGroup group] ++ P4 (keys d) []).
      rewrite Hc. plan_prefix. }
  rewrite (Hrc eq_refl), app_nil_r in Hc.
  set (s2 := state_of (create_users E self1 (items d) s1)).
  rewrite bind_trace, bind_result, calls_of_app.
  destruct (get_users_from_group E self1 group s2) as [[s3 t3] r3] eqn:Hget.
  destruct r3 as [observed|e].
  - assert (Hobs : result_of (get_users_from_group E self1 group s2) = Ok observed)
      by (rewrite Hget; reflexivity).
    destruct (sync_members_calls E self1 group d s2 s3 t3 observed Hget)
      as [rm [Hm Hrm]].
    cbn [app] in Hm.
    exists (keys d), observed.
    destruct (result_of (sync_members E self1 group d s2)) as [[]|e].
    + exists []. rewrite (Hrm eq_refl) in Hm. rewrite Hc. cbn [app].
      rewrite Hm. plan_prefix.
    + exists rm. rewrite Hc. cbn [app]. rewrite Hm. plan_prefix.
  - pose proof (get_users_from_group_calls E self1 group s2) as Hg.
    assert (Hsm : sync_members E self1 group d s2 = (s3, t3, Raise e)).
    { unfold sync_members, bind. rewrite Hget. reflexivity. }
    rewrite Hget in Hg. cbn [trace_of fst snd] in Hg.
    rewrite Hsm. cbn [trace_of result_of fst snd]. rewrite Hg.
    exists (keys d), [], (P4 (keys d) []). rewrite Hc. plan_prefix.
Qed.

End Pass.

(** What a call of the plan is about. *)
Lemma group_plan_In (self : Client.t) (group : string)
    (desired observed : list string) (c : call) :
  In c (Reconciler.group_plan self group desired observed) ->
  match c with
  | CreateGroup g => g = group
  | CreateUser u => In u desired /\ ~ In u (Client.tc_users self)
  | GetUsersFromGroup g => g = group
  | AddUserToGroup u g => g = group /\ In u desired /\ ~ In u observed
  | RemoveUserFromGroup u g => g = group /\ In u observed /\ ~ In u desired
  end.
Proof.
  unfold Reconciler.group_plan.
  cbn [Reconciler.diff Reconciler.toAdd Reconciler.toRemove].
  intro Hin.
  repeat (apply in_app_or in Hin; destruct Hin as [Hin | Hin]).
  - destruct (in_list group _); [contradiction|].
    destruct Hin as [<-|[]]. reflexivity.
  - apply in_map_iff in Hin. destruct Hin as [v [<- Hin]].
    apply in_minus. exact Hin.
  - destruct Hin as [<-|[]]. reflexivity.
  - apply in_map_iff in Hin. destruct Hin as [v [<- Hin]].
    split; [reflexivity|]. apply in_minus. exact Hin.
  - apply in_map_iff in Hin. destruct Hin as [v [<- Hin]].
    split; [reflexivity|]. apply in_minus. exact Hin.
Qed.

(** ** Directory lookups leave TeamCity alone *)

Section Stateless.

Variable E : Env.

Lemma stateless_ret {A} (a : A) : stateless E (ret a).
Proof. intro s. split; [reflexivity|]. intro s'. split; reflexivity. Qed.

Lemma stateless_raise {A} (e : exn) : stateless E (@raise E A e).
Proof. intro s. split; [reflexivity|]. intro s'. split; reflexivity. Qed.

Lemma stateless_emit (e : event) : stateless E (emit E e).
Proof. intro s. split; [reflexivity|]. intro s'. split; reflexivity. Qed.

Lemma stateless_bind {A B} (m : M E A) (f : A -> M E B) :
  stateless E m -> (forall a, stateless E (f a)) -> stateless E (bind m f).
Proof.
  intros Hm Hf s. destruct (Hm s) as [Hs Hm']. split.
  - rewrite bind_state, Hs. destruct (result_of (m s)) as [a|e]; [|reflexivity].
    apply (Hf a s).
  - intro s'. destruct (Hm' s') as [Ht Hr].
    rewrite !bind_trace, !bind_result, Ht, Hr.
    destruct (Hm s') as [Hs' _]. rewrite Hs, Hs'.
    destruct (result_of (m s)) as [a|e]; [|split; reflexivity].
    destruct (Hf a s) as [_ Hf']. destruct (Hf' s') as [Hft Hfr].
    rewrite Hft, Hfr. split; reflexivity.
Qed.

Lemma stateless_conn_search (b f : string) (a : list string) :
  stateless E (conn_search E b f a).
Proof.
  unfold conn_search.
  apply stateless_bind; [apply stateless_emit | intro; apply stateless_ret].
Qed.

Lemma stateless_getitem {V} (d : dict V) (k : string) : stateless E (getitem E d k).
Proof.
  unfold getitem.
  destruct (dict_get d k); [apply stateless_ret | apply stateless_raise].
Qed.

Lemma stateless_index {A} (l : list A) (i : nat) : stateless E (index E l i).
Proof.
  unfold index.
  destruct (nth_error l i); [apply stateless_ret | apply stateless_raise].
Qed.

Lemma stateless_print (line : string) : stateless E (print E line).
Proof. apply stateless_emit. Qed.

End Stateless.

Create HintDb stateless.

#[local] Hint Resolve stateless_ret stateless_raise stateless_conn_search
  stateless_getitem stateless_index stateless_print : stateless.

(** Closes a goal [stateless m] for a computation built from directory
    lookups. *)
Ltac no_state :=
  repeat first
    [ progress intros
    | solve [auto with stateless]
    | apply stateless_bind
    | match goal with
      | |- stateless _ (if ?b then _ else _) => destruct b
      | |- stateless _ (match ?x with _ => _ end) => destruct x
      end ].

(** ** Wildcard expansion (lines 219-239 and 317-331) *)

Section Wildcard.

Variable E : Env.

Lemma wildcard_names_stateless (result : list entry) (acc : list string) :
  stateless E (wildcard_names E result acc).
Proof.
  revert acc. induction result as [|g l IH]; intro acc; cbn [wildcard_names].
  - apply stateless_ret.
  - apply stateless_bind; [apply stateless_getitem | intro; apply IH].
Qed.

Lemma get_groups_with_wildcard_stateless (self : LDAPConn.t) (p : string) :
  stateless E (get_groups_with_wildcard E self p).
Proof.
  pose proof wildcard_names_stateless.
  unfold get_groups_with_wildcard. no_state.
Qed.

Lemma expand_groups_concat (self : LDAPConn.t) (s : tc_state E)
    (groups acc : list string) :
  (forall p, In p groups ->
     exists names, result_of (get_groups_with_wildcard E self p s) = Ok names) ->
  state_of (expand_groups E self groups acc s) = s
  /\ result_of (expand_groups E self groups acc s)
     = Ok (acc ++ flat_map (expansion E self s) groups).
Proof.
  revert acc. induction groups as [|p groups IH]; intros acc Hok.
  - cbn. rewrite app_nil_r. split; reflexivity.
  - cbn [expand_groups flat_map].
    destruct (get_groups_with_wildcard_stateless self p s) as [Hs _].
    destruct (Hok p (or_introl eq_refl)) as [names Hnames].
    assert (Hexp : expansion E self s p = names)
      by (unfold expansion; rewrite Hnames; reflexivity).
    rewrite bind_state, bind_result, Hs, Hnames, Hexp.
    destruct (IH (acc ++ names)) as [IHs IHr].
    { intros q Hq. apply Hok. right. exact Hq. }
    rewrite IHs, IHr, <- app_assoc. split; reflexivity.
Qed.

Lemma flat_map_nil {A B} (f : A -> list B) (l : list A) :
  flat_map f l = [] <-> forall x, In x l -> f x = [].
Proof.
  induction l as [|x l IH]; cbn.
  - split; [intros _ y []|reflexivity].
  - split.
    + intros H y [<-|Hy].
      * apply app_eq_nil in H. tauto.
      * apply app_eq_nil in H. apply IH; tauto.
    + intro H. rewrite (H x (or_introl eq_refl)). cbn. apply IH.
      intros y Hy. apply H. right. exact Hy.
Qed.

End Wildcard.

Section WildcardLog.

Variable E : Env.

(** A pattern that expands to nothing is reported on the output. *)
Lemma get_groups_with_wildcard_logs (self : LDAPConn.t) (p : string) s :
  result_of (get_groups_with_wildcard E self p s) = Ok [] ->
  In (pct ">>> Unable to find group %s, skipping group wildcard" p)
     (printed (trace_of (get_groups_with_wildcard E self p s))).
Proof.
  unfold get_groups_with_wildcard.
  rewrite bind_print_l, bind_conn_search_l.
  cbn [result_of trace_of state_of fst snd printed].
  set (result := directory E _ _ _).
  rewrite bind_result, bind_trace, printed_app.
  destruct (result_of ((if truthy result then wildcard_names E result [] else ret []) s))
    as [[|n names]|e]; try discriminate.
  intros _. cbn. right. apply in_or_app. right. left. reflexivity.
Qed.

Lemma expand_groups_trace (self : LDAPConn.t) (s : tc_state E)
    (groups acc : list string) :
  (forall p, In p groups ->
     exists names, result_of (get_groups_with_wildcard E self p s) = Ok names) ->
  trace_of (expand_groups E self groups acc s)
  = flat_map (fun p => trace_of (get_groups_with_wildcard E self p s)) groups.
Proof.
  revert acc. induction groups as [|p groups IH]; intros acc Hok.
  - reflexivity.
  - cbn [expand_groups flat_map].
    destruct (get_groups_with_wildcard_stateless E self p s) as [Hs _].
    destruct (Hok p (or_introl eq_refl)) as [names Hnames].
    rewrite bind_trace, Hs, Hnames. f_equal. apply IH.
    intros q Hq. apply Hok. right. exact Hq.
Qed.

End WildcardLog.

(** ** A group the directory does not have (lines 124-126 and 418-427) *)

Section Missing.

Variable E : Env.

Lemma bind_known {A B} (m : M E A) (f : A -> M E B) s s1 t1 a :
  m s = (s1, t1, Ok a) ->
  bind m f s = (state_of (f a s1), t1 ++ trace_of (f a s1), result_of (f a s1)).
Proof.
  intro H. unfold bind. rewrite H. destruct (f a s1) as [[s2 t2] r]. reflexivity.
Qed.

Lemma bind_failed {A B} (m : M E A) (f : A -> M E B) s s1 t1 e :
  m s = (s1, t1, Raise e) -> bind m f s = (s1, t1, Raise e).
Proof. intro H. unfold bind. rewrite H. reflexivity. Qed.

(** Without an entry for the group, [get_group_members] prints its line and
    returns [None]. *)
Lemma get_group_members_missing (self : LDAPConn.t) (group : string) s :
  directory E (LDAPConn.base self) (pct (LDAPConn.group_filter self) group)
    [LDAPConn.group_member_attribute self] = [] ->
  get_group_members E self group s
  = (s,
     [LdapSearch (LDAPConn.base self) (pct (LDAPConn.group_filter self) group)
        [LDAPConn.group_member_attribute self];
      Print (pct ">>> Unable to find group %s, skipping group" group)],
     Ok None).
Proof.
  intro Hnone. unfold get_group_members.
  rewrite bind_conn_search_l, Hnone. reflexivity.
Qed.

(** The pass of such a group raises, and with it the whole loop: the groups
    after it are not looked at. *)
Lemma missing_group_raises (self : Client.t) (group : string)
    (rest : list string) s :
  directory E (LDAPConn.base (Client.ldap_object self))
    (pct (LDAPConn.group_filter (Client.ldap_object self)) group)
    [LDAPConn.group_member_attribute (Client.ldap_object self)] = [] ->
  exists e,
    result_of (sync_group E self group s) = Raise e
    /\ sync_groups E self (group :: rest) s
       = (state_of (sync_group E self group s),
          trace_of (sync_group E self group s), Raise e)
    /\ ((exists self', result_of (ensure_group E self group s) = Ok self') ->
        e = AttributeError).
Proof.
  intro Hnone.
  pose proof (get_group_members_missing (Client.ldap_object self) group s Hnone)
    as Hget.
  assert (Hres : exists e,
    result_of (sync_group E self group s) = Raise e
    /\ ((exists self', result_of (ensure_group E self group s) = Ok self') ->
        e = AttributeError)).
  { unfold sync_group. rewrite (bind_known _ _ _ _ _ _ Hget).
    cbn [result_of snd]. rewrite bind_result.
    destruct (result_of (ensure_group E self group s)) as [self1|e].
    - exists AttributeError. split; reflexivity.
    - exists e. split; [reflexivity|]. intros [self' H]. discriminate. }
  destruct Hres as [e [He Hattr]]. exists e.
  split; [exact He|]. split; [|exact Hattr].
  cbn [sync_groups]. apply bind_failed.
  rewrite (run_eta E (sync_group E self group s)) at 1. rewrite He. reflexivity.
Qed.

End Missing.

(** ** Usernames (lines 180-187) *)

Section Usernames.

Variable E : Env.

Lemma dict_set_In {V} (d : dict V) (k k' : string) (v v' : V) :
  In (k, v) (dict_set d k' v') -> (k = k' /\ v = v') \/ In (k, v) d.
Proof.
  induction d as [|[k0 v0] d IH]; cbn [dict_set].
  - intros [H|[]]. injection H as <- <-. left. split; reflexivity.
  - destruct (String.eqb k0 k') eqn:Heq.
    + apply String.eqb_eq in Heq. subst k0.
      intros [H|H].
      * injection H as <- <-. left. split; reflexivity.
      * right. right. exact H.
    + intros [H|H].
      * right. left. exact H.
      * destruct (IH H) as [Hnew|Hold]; [left; exact Hnew|right; right; exact Hold].
Qed.

(** Every pair of the listing was there before or is the normalized
    sAMAccountName, and the DN, of one of the entries. *)
Lemma fill_listing_pairs (self : LDAPConn.t) (group_members : list entry) :
  forall (acc : dict string) s d,
  result_of (fill_listing E self group_members acc s) = Ok d ->
  forall k v, In (k, v) d ->
    In (k, v) acc
    \/ exists item name,
         In item group_members /\ dn item = v
         /\ dict_get (str_attrs item) "sAMAccountName" = Some name
         /\ k = normalized E self name.
Proof.
  induction group_members as [|item rest IH]; intros acc s d Hres k v Hin.
  - cbn in Hres. injection Hres as <-. left. exact Hin.
  - cbn [fill_listing] in Hres. unfold getitem in Hres.
    destruct (dict_get (str_attrs item) "sAMAccountName") as [name|] eqn:Hname.
    2:{ rewrite bind_raise_l in Hres. discriminate. }
    rewrite bind_ret_l in Hres.
    destruct (IH _ _ _ Hres k v Hin) as [Hacc | [item' [name' [Hi [Hd [Hn Hk]]]]]].
    + apply dict_set_In in Hacc. destruct Hacc as [[-> ->] | Hacc].
      * right. exists item, name. split; [left; reflexivity|].
        split; [reflexivity|]. split; [exact Hname|reflexivity].
      * left. exact Hacc.
    + right. exists item', name'. split; [right; exact Hi|].
      split; [exact Hd|]. split; [exact Hn|exact Hk].
Qed.

(** What the loop over the member attribute leaves in [group_members]: what
    it started with, or the answer to one of its searches. *)
Lemma direct_members_source (self : LDAPConn.t) (attrlist members : list string) :
  forall (acc : list entry) s gm,
  result_of (direct_members E self attrlist members acc s) = Ok gm ->
  gm = acc \/ exists b f, gm = directory E b f attrlist.
Proof.
  induction members as [|m rest IH]; intros acc s gm Hres.
  - cbn in Hres. injection Hres as <-. left. reflexivity.
  - cbn [direct_members] in Hres. rewrite bind_conn_search_l in Hres.
    cbn [result_of snd] in Hres.
    destruct (IH _ _ _ Hres) as [Hacc | Hsrc]; [|right; exact Hsrc].
    destruct (truthy (directory E m _ attrlist)).
    + right. eexists _, _. exact Hacc.
    + left. exact Hacc.
Qed.

(** On the Active Directory branch the listing is filled from entries the
    directory returned. *)
Lemma get_group_members_ad_pairs (self : LDAPConn.t) (group : string) s d :
  LDAPConn.active_directory self = true ->
  result_of (get_group_members E self group s) = Ok (Some d) ->
  forall k v, In (k, v) d ->
    exists b f a item name,
      In item (directory E b f a) /\ dn item = v
      /\ dict_get (str_attrs item) "sAMAccountName" = Some name
      /\ k = normalized E self name.
Proof.
  intros Had Hres k v Hin.
  unfold get_group_members in Hres.
  rewrite bind_conn_search_l in Hres. cbn [result_of snd] in Hres.
  destruct (truthy (directory E (LDAPConn.base self) _ _)); cbn [negb] in Hres.
  2:{ rewrite bind_print_l in Hres. discriminate. }
  rewrite Had in Hres.
  destruct (last_item _) as [members|]; [|discriminate].
  rewrite bind_result in Hres.
  match type of Hres with
  | context [result_of (?m s)] =>
      destruct (result_of (m s)) as [gm|e] eqn:Hgm; [|discriminate];
      set (s1 := state_of (m s)) in *
  end.
  rewrite bind_result in Hres.
  destruct (result_of (fill_listing E self gm [] s1)) as [fl|e] eqn:Hfill;
    [|discriminate].
  cbn in Hres. injection Hres as <-.
  destruct (fill_listing_pairs self gm [] s1 fl Hfill k v Hin)
    as [[] | [item [name [Hi [Hd [Hn Hk]]]]]].
  assert (Hsrc : gm = [] \/ exists b f a, gm = directory E b f a).
  { destruct (LDAPConn.recursive self).
    - rewrite bind_conn_search_l in Hgm. cbn in Hgm.
      injection Hgm as <-.
      destruct (truthy _); [right; eexists _, _, _; reflexivity | left; reflexivity].
    - unfold getitem in Hgm.
      destruct (dict_get (list_attrs members) _) as [members_|].
      2:{ rewrite bind_raise_l in Hgm. discriminate. }
      rewrite bind_ret_l in Hgm.
      destruct (direct_members_source _ _ _ _ _ _ Hgm) as [->|[b [f ->]]].
      + left. reflexivity.
      + right. eexists _, _, _. reflexivity. }
  destruct Hsrc as [-> | [b [f [a ->]]]]; [contradiction|].
  exists b, f, a, item, name. repeat split; assumption.
Qed.

(** On the generic flavor [get_group_members] makes its one search and
    returns no mapping: [None] for a group the directory does not have, and
    the [AttributeError] of line 193 for one it has. *)
Lemma get_group_members_generic (self : LDAPConn.t) (group : string) s :
  LDAPConn.active_directory self = false ->
  get_group_members E self group s
  = (s,
     LdapSearch (LDAPConn.base self) (pct (LDAPConn.group_filter self) group)
       [LDAPConn.group_member_attribute self]
     :: (if truthy (directory E (LDAPConn.base self)
                      (pct (LDAPConn.group_filter self) group)
                      [LDAPConn.group_member_attribute self])
         then []
         else [Print (pct ">>> Unable to find group %s, skipping group"
                        group)]),
     if truthy (directory E (LDAPConn.base self)
                  (pct (LDAPConn.group_filter self) group)
                  [LDAPConn.group_member_attribute self])
     then Raise AttributeError else Ok None).
Proof.
  intro Hgeneric. unfold get_group_members.
  rewrite bind_conn_search_l, Hgeneric.
  destruct (truthy _); reflexivity.
Qed.

(** Whatever the flavor, a mapping [get_group_members] returns is filled
    from entries the directory returned (lines 180-187). *)
Lemma get_group_members_pairs (self : LDAPConn.t) (group : string) s d :
  result_of (get_group_members E self group s) = Ok (Some d) ->
  forall k v, In (k, v) d ->
    exists b f a item name,
      In item (directory E b f a) /\ dn item = v
      /\ dict_get (str_attrs item) "sAMAccountName" = Some name
      /\ k = normalized E self name.
Proof.
  destruct (LDAPConn.active_directory self) eqn:Hflavor.
  - apply get_group_members_ad_pairs. exact Hflavor.
  - rewrite (get_group_members_generic self group s Hflavor).
    cbn [result_of snd]. destruct (truthy _); discriminate.
Qed.

End Usernames.

(** ** Recursive resolution (lines 142-160) *)

Section Recursive.

Variable E : Env.

Lemma dict_set_keys {V} (d : dict V) (k k' : string) (v : V) :
  In k (keys (dict_set d k' v)) <-> k = k' \/ In k (keys d).
Proof.
  unfold keys. induction d as [|[k0 v0] d IH]; cbn [dict_set map fst In].
  - intuition congruence.
  - destruct (String.eqb k0 k') eqn:Heq; cbn [map fst In].
    + apply String.eqb_eq in Heq. subst k0. intuition congruence.
    + rewrite IH. tauto.
Qed.

(** [fill_listing] talks to nobody. *)
Lemma fill_listing_quiet (self : LDAPConn.t) (group_members : list entry) :
  forall acc s,
    state_of (fill_listing E self group_members acc s) = s
    /\ trace_of (fill_listing E self group_members acc s) = [].
Proof.
  induction group_members as [|item rest IH]; intros acc s; [split; reflexivity|].
  cbn [fill_listing]. unfold getitem.
  destruct (dict_get (str_attrs item) "sAMAccountName") as [name|].
  - rewrite bind_ret_l. apply IH.
  - rewrite bind_raise_l. split; reflexivity.
Qed.

(** The keys of the listing: those it started with and the normalized names
    of the entries. *)
Lemma fill_listing_keys (self : LDAPConn.t) (group_members : list entry) :
  forall acc s d,
  result_of (fill_listing E self group_members acc s) = Ok d ->
  forall k,
    In k (keys d) <->
    In k (keys acc)
    \/ exists item name,
         In item group_members
         /\ dict_get (str_attrs item) "sAMAccountName" = Some name
         /\ k = normalized E self name.
Proof.
  induction group_members as [|item rest IH]; intros acc s d Hres k.
  - cbn in Hres. injection Hres as <-. split; [tauto|].
    intros [H|[i [n [[] _]]]]. exact H.
  - cbn [fill_listing] in Hres. unfold getitem in Hres.
    destruct (dict_get (str_attrs item) "sAMAccountName") as [name|] eqn:Hname.
    2:{ rewrite bind_raise_l in Hres. discriminate. }
    rewrite bind_ret_l in Hres.
    rewrite (IH _ _ _ Hres k), dict_set_keys. split.
    + intros [[->|Hacc] | [i [n [Hi [Hn Hk]]]]].
      * right. exists item, name. split; [left; reflexivity|].
        split; [exact Hname|reflexivity].
      * left. exact Hacc.
      * right. exists i, n. split; [right; exact Hi|]. split; assumption.
    + intros [Hacc | [i [n [[<-|Hi] [Hn Hk]]]]].
      * left. right. exact Hacc.
      * left. left. rewrite Hname in Hn. injection Hn as <-. exact Hk.
      * right. exists i, n. split; [exact Hi|]. split; assumption.
Qed.


Lemma truthy_last_item {A} (l : list A) :
  truthy l = match last_item l with Some _ => true | None => false end.
Proof.
  induction l as [|a l IH]; [reflexivity|].
  destruct l as [|b l]; [reflexivity|]. cbn [last_item truthy] in *. exact IH.
Qed.

(** Recursive resolution run by hand: the search for the group, the one
    search for its members, the listing. *)
Lemma get_group_members_recursive (self : LDAPConn.t) (group : string) s :
  LDAPConn.active_directory self = true ->
  LDAPConn.recursive self = true ->
  get_group_members E self group s
  = match last_item (directory E (LDAPConn.base self)
                       (pct (LDAPConn.group_filter self) group)
                       [LDAPConn.group_member_attribute self]) with
    | None =>
        (s,
         [LdapSearch (LDAPConn.base self) (pct (LDAPConn.group_filter self) group)
            [LDAPConn.group_member_attribute self];
          Print (pct ">>> Unable to find group %s, skipping group" group)],
         Ok None)
    | Some members =>
        (s,
         [LdapSearch (LDAPConn.base self) (pct (LDAPConn.group_filter self) group)
            [LDAPConn.group_member_attribute self];
          LdapSearch (LDAPConn.base self) (member_of_filter self (dn members))
            [LDAPConn.uid_attribute self]],
         match result_of (fill_listing E self
                            (directory E (LDAPConn.base self)
                               (member_of_filter self (dn members))
                               [LDAPConn.uid_attribute self]) [] s) with
         | Ok d => Ok (Some d)
         | Raise e => Raise e
         end)
    end.
Proof.
  intros Had Hrec. unfold get_group_members.
  rewrite bind_conn_search_l.
  set (result := directory E (LDAPConn.base self) _ _).
  rewrite (truthy_last_item result), Had, Hrec.
  destruct (last_item result) as [members|]; cbn [negb].
  2:{ rewrite bind_print_l. reflexivity. }
  fold (member_of_filter self (dn members)).
  set (uid := directory E (LDAPConn.base self) (member_of_filter self (dn members)) _).
  assert (Hgm : forall B (k : list entry -> M E B),
    bind (bind (conn_search E (LDAPConn.base self)
                  (member_of_filter self (dn members))
                  [LDAPConn.uid_attribute self])
               (fun uid => ret (if truthy uid then uid else []))) k s
    = (state_of (k uid s),
       LdapSearch (LDAPConn.base self) (member_of_filter self (dn members))
         [LDAPConn.uid_attribute self] :: trace_of (k uid s),
       result_of (k uid s))).
  { intros B k.
    rewrite (bind_known E _ k s s
               [LdapSearch (LDAPConn.base self)
                  (member_of_filter self (dn members))
                  [LDAPConn.uid_attribute self]] uid).
    - reflexivity.
    - rewrite bind_conn_search_l. fold uid. cbn.
      destruct uid; reflexivity. }
  rewrite Hgm. cbn [state_of trace_of result_of fst snd].
  destruct (fill_listing_quiet self uid [] s) as [Hs Ht].
  rewrite bind_state, bind_trace, bind_result, Hs, Ht.
  destruct (result_of (fill_listing E self uid [] s)); reflexivity.
Qed.

(** The keys of a mapping are distinct, as those of a [dict] are. *)
Lemma dict_set_NoDup {V} (d : dict V) (k : string) (v : V) :
  NoDup (keys d) -> NoDup (keys (dict_set d k v)).
Proof.
  induction d as [|[k0 v0] d IH]; intro Hnd.
  - cbn. constructor; [intros []|constructor].
  - cbn [dict_set]. destruct (String.eqb k0 k) eqn:Hk; [exact Hnd|].
    unfold keys in *. cbn [map fst] in *.
    inversion Hnd as [|? ? Hnotin Hnd']; subst. constructor; [|apply IH; exact Hnd'].
    intro Hin. apply (dict_set_keys d k0 k v) in Hin.
    destruct Hin as [->|Hin]; [|exact (Hnotin Hin)].
    rewrite String.eqb_refl in Hk. discriminate.
Qed.

Lemma fill_listing_NoDup (self : LDAPConn.t) (group_members : list entry) :
  forall acc s d,
  result_of (fill_listing E self group_members acc s) = Ok d ->
  NoDup (keys acc) -> NoDup (keys d).
Proof.
  induction group_members as [|item rest IH]; intros acc s d Hres Hnd.
  - cbn in Hres. injection Hres as <-. exact Hnd.
  - cbn [fill_listing] in Hres. unfold getitem in Hres.
    destruct (dict_get (str_attrs item) "sAMAccountName") as [name|].
    2:{ rewrite bind_raise_l in Hres. discriminate. }
    rewrite bind_ret_l in Hres.
    apply (IH _ _ _ Hres). apply dict_set_NoDup. exact Hnd.
Qed.

Lemma get_group_members_keys_NoDup (self : LDAPConn.t) (group : string) s d :
  result_of (get_group_members E self group s) = Ok (Some d) ->
  NoDup (keys d).
Proof.
  unfold get_group_members.
  rewrite bind_conn_search_l. cbn [result_of snd].
  destruct (truthy (directory E (LDAPConn.base self) _ _)); cbn [negb].
  2:{ rewrite bind_print_l. discriminate. }
  destruct (LDAPConn.active_directory self).
  - destruct (last_item _) as [members|]; [|discriminate].
    rewrite bind_result.
    match goal with
    | |- context [result_of (?m s)] =>
        destruct (result_of (m s)) as [gm|e]; [|discriminate];
        set (s1 := state_of (m s)) in *
    end.
    rewrite bind_result.
    destruct (result_of (fill_listing E self gm [] s1)) as [fl|e] eqn:Hfill;
      [|discriminate].
    cbn. intro H. injection H as <-.
    apply (fill_listing_NoDup self gm [] s1 fl Hfill). constructor.
  - discriminate.
Qed.

End Recursive.

(** ** The groups the client sees (lines 345-348, 363-373, 420-424) *)

Section Visible.

Variable E : Env.

Lemma get_tc_groups_zabbix s l :
  result_of (get_tc_groups E s) = Ok l -> Forall zabbix l.
Proof.
  unfold get_tc_groups. rewrite bind_http_l. cbn [result_of snd].
  unfold json_group.
  destruct (json (snd (tc_handle E s GET_userGroups))) as [groups| | |];
    try (rewrite bind_raise_l; discriminate).
  rewrite bind_ret_l. cbn. intro H. injection H as <-.
  apply Forall_forall. intros g Hg. apply filter_In in Hg. apply Hg.
Qed.

Lemma ensure_group_zabbix (self : Client.t) (group : string) s self1 :
  Forall zabbix (Client.tc_groups self) ->
  result_of (ensure_group E self group s) = Ok self1 ->
  Forall zabbix (Client.tc_groups self1).
Proof.
  intros Hinv. unfold ensure_group.
  destruct (negb (in_list group (map g_name (Client.tc_groups self)))).
  - rewrite bind_result.
    destruct (create_group_calls E self group s) as [_ Hr]. rewrite Hr.
    rewrite bind_result.
    destruct (result_of (get_tc_groups E _)) as [refreshed|e] eqn:Hrefresh;
      [|discriminate].
    cbn. intro H. injection H as <-. cbn.
    exact (get_tc_groups_zabbix _ _ Hrefresh).
  - cbn. intro H. injection H as <-. exact Hinv.
Qed.

(** A group without [.Zabbix.] in its name is none of the groups the
    client sees. *)
Lemma named_invisible (self : Client.t) (group : string) :
  Forall zabbix (Client.tc_groups self) ->
  contains ".Zabbix." group = false ->
  named self group = [].
Proof.
  intros Hinv Hname. unfold named.
  induction (Client.tc_groups self) as [|g l IH]; [reflexivity|].
  inversion Hinv as [|g' l' Hg Hl]; subst.
  cbn [filter]. destruct (String.eqb (g_name g) group) eqn:Heq.
  - apply String.eqb_eq in Heq. unfold zabbix in Hg. congruence.
  - apply IH. exact Hl.
Qed.

(** For such a group the members are reported empty only when the client
    sees no group at all. *)
Lemma get_users_from_group_invisible (self : Client.t) (group : string) s
    observed :
  Forall zabbix (Client.tc_groups self) ->
  contains ".Zabbix." group = false ->
  result_of (get_users_from_group E self group s) = Ok observed ->
  observed = [] /\ Client.tc_groups self = [].
Proof.
  intros Hinv Hname. unfold get_users_from_group.
  rewrite bind_emit_l. cbn [result_of snd].
  rewrite (named_invisible self group Hinv Hname).
  destruct (Client.tc_groups self) as [|g l]; cbn [truthy].
  - cbn. intro H. injection H as <-. split; reflexivity.
  - cbn. discriminate.
Qed.

Lemma get_users_from_group_blind (self : Client.t) (group : string) s :
  Client.tc_groups self = [] ->
  get_users_from_group E self group s
  = (s, [Call (GetUsersFromGroup group)], Ok []).
Proof.
  intro Hnone. unfold get_users_from_group. rewrite Hnone. reflexivity.
Qed.

(** One pass keeps the view within the groups named [.Zabbix.], and removes
    nobody from a group that is not. *)
Lemma sync_group_zabbix (self : Client.t) (group : string) s :
  Forall zabbix (Client.tc_groups self) ->
  (forall self', result_of (sync_group E self group s) = Ok self' ->
     Forall zabbix (Client.tc_groups self'))
  /\ (forall u g,
        In (RemoveUserFromGroup u g)
           (calls_of (trace_of (sync_group E self group s))) ->
        g = group /\ contains ".Zabbix." group = true).
Proof.
  intro Hinv. split.
  - intros self'. unfold sync_group.
    rewrite bind_result.
    destruct (result_of (get_group_members E _ group s)) as [lgu|e]; [|discriminate].
    rewrite bind_result.
    destruct (result_of (ensure_group E self group _)) as [self1|e] eqn:Hens;
      [|discriminate].
    destruct lgu as [d|]; [|discriminate].
    rewrite bind_result.
    destruct (result_of (create_users E self1 _ _)); [|discriminate].
    rewrite bind_result.
    destruct (result_of (sync_members E self1 group d _)); [|discriminate].
    cbn. intro H. injection H as <-.
    exact (ensure_group_zabbix _ _ _ _ Hinv Hens).
  - intros u g Hin.
    destruct (sync_group_calls E self group s)
      as [desired [observed [rest [Hplan [_ [_ Hobs]]]]]].
    assert (Hin' : In (RemoveUserFromGroup u g)
              (Reconciler.group_plan self group desired observed))
      by (rewrite Hplan; apply in_or_app; left; exact Hin).
    apply group_plan_In in Hin'. destruct Hin' as [-> [Hu _]].
    split; [reflexivity|].
    destruct (contains ".Zabbix." group) eqn:Hname; [reflexivity|].
    destruct Hobs as [-> | [self1 [s1 [s2 [Hens Hget]]]]]; [contradiction|].
    pose proof (ensure_group_zabbix _ _ _ _ Hinv Hens) as Hinv1.
    destruct (get_users_from_group_invisible self1 group s2 observed Hinv1 Hname Hget)
      as [-> _].
    contradiction.
Qed.

Lemma sync_groups_zabbix (groups : list string) :
  forall (self : Client.t) s,
  Forall zabbix (Client.tc_groups self) ->
  (forall self', result_of (sync_groups E self groups s) = Ok self' ->
     Forall zabbix (Client.tc_groups self'))
  /\ (forall u g,
        In (RemoveUserFromGroup u g)
           (calls_of (trace_of (sync_groups E self groups s))) ->
        contains ".Zabbix." g = true).
Proof.
  induction groups as [|group rest IH]; intros self s Hinv.
  - split.
    + intros self' H. injection H as <-. exact Hinv.
    + intros u g [].
  - cbn [sync_groups].
    destruct (sync_group_zabbix self group s Hinv) as [Hview Hrem].
    rewrite bind_result, bind_trace, calls_of_app.
    destruct (result_of (sync_group E self group s)) as [self1|e].
    + destruct (IH self1 (state_of (sync_group E self group s))
                  (Hview self1 eq_refl)) as [IHview IHrem].
      split; [exact IHview|].
      intros u g Hin. apply in_app_or in Hin. destruct Hin as [Hin|Hin].
      * destruct (Hrem u g Hin) as [-> Hz]. exact Hz.
      * exact (IHrem u g Hin).
    + split; [discriminate|].
      intros u g Hin. rewrite app_nil_r in Hin.
      destruct (Hrem u g Hin) as [-> Hz]. exact Hz.
Qed.

End Visible.

(** ** Dictionaries and the removal loop *)

Section Lists.

Lemma dict_get_set {V} (d : dict V) (k q : string) (v : V) :
  dict_get (dict_set d k v) q
  = if String.eqb k q then Some v else dict_get d q.
Proof.
  induction d as [|[k0 v0] d IH]; cbn [dict_set dict_get].
  - reflexivity.
  - destruct (String.eqb k0 k) eqn:Hk; cbn [dict_get].
    + apply String.eqb_eq in Hk. subst k0.
      destruct (String.eqb k q); reflexivity.
    + rewrite IH. destruct (String.eqb k0 q) eqn:Hq; [|reflexivity].
      apply String.eqb_eq in Hq. subst k0.
      rewrite String.eqb_sym, Hk. reflexivity.
Qed.

Lemma dict_set_keys_present {V} (d : dict V) (k : string) (v x : V) :
  dict_get d k = Some x -> keys (dict_set d k v) = keys d.
Proof.
  unfold keys. induction d as [|[k0 v0] d IH]; cbn [dict_get dict_set map fst].
  - discriminate.
  - destruct (String.eqb k0 k); cbn [map fst]; [reflexivity|].
    intro H. rewrite (IH H). reflexivity.
Qed.

Lemma dict_get_In {V} (d : dict V) (k : string) (v : V) :
  dict_get d k = Some v -> In (k, v) d.
Proof.
  induction d as [|[k0 v0] d IH]; cbn [dict_get]; [discriminate|].
  destruct (String.eqb k0 k) eqn:Hk.
  - apply String.eqb_eq in Hk. subst k0. intro H. injection H as <-.
    left. reflexivity.
  - intro H. right. apply IH. exact H.
Qed.

Lemma In_dict_get {V} (d : dict V) (k : string) (v : V) :
  NoDup (keys d) -> In (k, v) d -> dict_get d k = Some v.
Proof.
  unfold keys. induction d as [|[k0 v0] d IH]; cbn [dict_get map fst];
    intros Hnd Hin; [contradiction|].
  inversion Hnd as [|? ? Hnotin Hnd']; subst.
  destruct Hin as [Heq|Hin].
  - injection Heq as -> ->. rewrite String.eqb_refl. reflexivity.
  - destruct (String.eqb k0 k) eqn:Hk.
    + apply String.eqb_eq in Hk. subst k0. exfalso. apply Hnotin.
      apply in_map_iff. exists (k, v). split; [reflexivity|exact Hin].
    + apply IH; assumption.
Qed.

Lemma dict_get_keys {V} (d : dict V) (k : string) :
  In k (keys d) <-> exists v, dict_get d k = Some v.
Proof.
  unfold keys. induction d as [|[k0 v0] d IH]; cbn [dict_get map fst In].
  - split; [contradiction|]. intros [v H]. discriminate.
  - destruct (String.eqb k0 k) eqn:Hk.
    + apply String.eqb_eq in Hk. subst k0. split; [|tauto].
      intros _. exists v0. reflexivity.
    + rewrite IH. apply String.eqb_neq in Hk. intuition congruence.
Qed.

Lemma tc_group_eqb_refl (g : tc_group) : tc_group_eqb g g = true.
Proof. unfold tc_group_eqb. rewrite !String.eqb_refl. reflexivity. Qed.

Lemma tc_group_eqb_name (a b : tc_group) :
  tc_group_eqb a b = true -> g_name a = g_name b.
Proof.
  unfold tc_group_eqb. intro H.
  apply andb_true_iff in H. destruct H as [H _].
  apply andb_true_iff in H. destruct H as [H _].
  apply String.eqb_eq. exact H.
Qed.

Lemma list_remove_at (pre suf : list tc_group) (g : tc_group) :
  (forall y, In y pre -> g_name y <> g_name g) ->
  list_remove g (pre ++ g :: suf) = pre ++ suf.
Proof.
  induction pre as [|y pre IH]; intro Hpre; cbn [app list_remove].
  - rewrite tc_group_eqb_refl. reflexivity.
  - destruct (tc_group_eqb y g) eqn:Heq.
    + apply tc_group_eqb_name in Heq. exfalso.
      exact (Hpre y (or_introl eq_refl) Heq).
    + rewrite IH; [reflexivity|]. intros z Hz. apply Hpre. right. exact Hz.
Qed.

Lemma list_remove_length (x : tc_group) (l : list tc_group) :
  length (list_remove x l) <= length l.
Proof.
  induction l as [|y l IH]; cbn [list_remove length]; [lia|].
  destruct (tc_group_eqb y x); cbn [length]; lia.
Qed.

(** The loop is over once the index has passed the end of the list, so the
    steps the length of the list allows are all it ever takes. *)
Lemma remove_named_fuel (group_name : string) :
  forall fuel i l,
  length l - i <= fuel ->
  remove_named (S fuel) i l group_name = remove_named fuel i l group_name.
Proof.
  induction fuel as [|fuel IH]; intros i l Hlen.
  - cbn [remove_named].
    destruct (nth_error l i) eqn:Hnth; [|reflexivity].
    assert (i < length l) by (apply nth_error_Some; congruence). lia.
  - change (remove_named (S (S fuel)) i l group_name)
      with (match nth_error l i with
            | None => l
            | Some group =>
                if String.eqb (g_name group) group_name
                then remove_named (S fuel) (S i) (list_remove group l) group_name
                else remove_named (S fuel) (S i) l group_name
            end).
    change (remove_named (S fuel) i l group_name)
      with (match nth_error l i with
            | None => l
            | Some group =>
                if String.eqb (g_name group) group_name
                then remove_named fuel (S i) (list_remove group l) group_name
                else remove_named fuel (S i) l group_name
            end).
    destruct (nth_error l i) as [g|]; [|reflexivity].
    destruct (String.eqb (g_name g) group_name).
    + apply IH. pose proof (list_remove_length g l). lia.
    + apply IH. lia.
Qed.

Lemma remove_named_enough (group_name : string) (l : list tc_group) (extra : nat) :
  remove_named (length l + extra) 0 l group_name
  = remove_named (length l) 0 l group_name.
Proof.
  induction extra as [|extra IH]; [rewrite Nat.add_0_r; reflexivity|].
  rewrite Nat.add_succ_r, remove_named_fuel by lia. exact IH.
Qed.

(** Without a group of that name the loop leaves the list as it is. *)
Lemma remove_named_none (group_name : string) :
  forall fuel i l,
  (forall g, In g l -> g_name g <> group_name) ->
  remove_named fuel i l group_name = l.
Proof.
  induction fuel as [|fuel IH]; intros i l Hnone; cbn [remove_named];
    [reflexivity|].
  destruct (nth_error l i) as [g|] eqn:Hnth; [|reflexivity].
  apply nth_error_In in Hnth.
  destruct (String.eqb (g_name g) group_name) eqn:Heq.
  - apply String.eqb_eq in Heq. exfalso. exact (Hnone g Hnth Heq).
  - apply IH. exact Hnone.
Qed.

(** When the names of the list are distinct the loop removes the group of
    that name. *)
Lemma remove_named_from (group_name : string) :
  forall suf pre fuel,
  NoDup (map g_name suf) ->
  (forall g, In g pre -> g_name g <> group_name) ->
  length suf <= fuel ->
  remove_named fuel (length pre) (pre ++ suf) group_name
  = pre ++ filter (fun g => negb (String.eqb (g_name g) group_name)) suf.
Proof.
  induction suf as [|g suf IH]; intros pre fuel Hnd Hpre Hfuel.
  - cbn [filter]. apply remove_named_none.
    intros g Hg. rewrite app_nil_r in Hg. apply Hpre. exact Hg.
  - destruct fuel as [|fuel]; [cbn in Hfuel; lia|].
    cbn [remove_named].
    rewrite nth_error_app2 by lia. rewrite Nat.sub_diag. cbn [nth_error].
    cbn [map] in Hnd. inversion Hnd as [|? ? Hnotin Hnd']; subst.
    cbn [filter].
    destruct (String.eqb (g_name g) group_name) eqn:Heq; cbn [negb].
    + apply String.eqb_eq in Heq.
      rewrite list_remove_at by (intros y Hy; rewrite Heq; apply Hpre; exact Hy).
      assert (Hsuf : forall y, In y suf -> g_name y <> group_name).
      { intros y Hy Hname. apply Hnotin. rewrite Heq, <- Hname.
        apply in_map. exact Hy. }
      rewrite remove_named_none.
      * f_equal. symmetry. apply forallb_filter_id.
        apply forallb_forall. intros y Hy. apply negb_true_iff.
        apply String.eqb_neq. apply Hsuf. exact Hy.
      * intros y Hy. apply in_app_or in Hy. destruct Hy as [Hy|Hy];
          [apply Hpre | apply Hsuf]; exact Hy.
    + apply String.eqb_neq in Heq.
      replace (pre ++ g :: suf) with ((pre ++ [g]) ++ suf)
        by (rewrite <- app_assoc; reflexivity).
      replace (S (length pre)) with (length (pre ++ [g]))
        by (rewrite length_app; cbn; lia).
      rewrite IH.
      * rewrite <- app_assoc. reflexivity.
      * exact Hnd'.
      * intros y Hy. apply in_app_or in Hy.
        destruct Hy as [Hy|[<-|[]]]; [apply Hpre; exact Hy | exact Heq].
      * cbn in Hfuel. lia.
Qed.

Lemma remove_named_filter (group_name : string) (l : list tc_group) :
  NoDup (map g_name l) ->
  remove_named (length l) 0 l group_name
  = filter (fun g => negb (String.eqb (g_name g) group_name)) l.
Proof.
  intro Hnd.
  apply (remove_named_from group_name l [] (length l) Hnd);
    [intros g [] | lia].
Qed.

(** Elements of a list whose images are distinct are told apart by their
    image. *)
Lemma NoDup_map_inj {A B} (f : A -> B) (l : list A) (a b : A) :
  NoDup (map f l) -> In a l -> In b l -> f a = f b -> a = b.
Proof.
  induction l as [|x l IH]; cbn [map]; intros Hnd Ha Hb Hf; [contradiction|].
  inversion Hnd as [|? ? Hnotin Hnd']; subst.
  destruct Ha as [<-|Ha], Hb as [<-|Hb].
  - reflexivity.
  - exfalso. apply Hnotin. rewrite Hf. apply in_map. exact Hb.
  - exfalso. apply Hnotin. rewrite <- Hf. apply in_map. exact Ha.
  - apply IH; assumption.
Qed.

Lemma NoDup_map_incl {A B} (f : A -> B) (l big : list A) :
  NoDup (map f big) -> incl l big -> NoDup l -> NoDup (map f l).
Proof.
  intros Hbig Hincl. induction l as [|a l IH]; intro Hnd; cbn [map].
  - constructor.
  - inversion Hnd as [|? ? Hnotin Hnd']; subst. constructor.
    + intro Hin. apply in_map_iff in Hin. destruct Hin as [b [Hf Hb]].
      assert (b = a).
      { apply (NoDup_map_inj f big); try assumption.
        - apply Hincl. right. exact Hb.
        - apply Hincl. left. reflexivity. }
      subst b. exact (Hnotin Hb).
    + apply IH; [|exact Hnd']. intros x Hx. apply Hincl. right. exact Hx.
Qed.

End Lists.

(** ** One pass against the reference server (lines 438-449) *)

Section Convergence.

Variable rows : list (string * string * list entry).

Let E : Env := RefServer.env rows.

(** The group the client looks up for a name is one it sees under that
    name. *)
Lemma named_hd (self : Client.t) (group : string) (ge : tc_group) :
  hd_error (named self group) = Some ge ->
  g_name ge = group /\ truthy (Client.tc_groups self) = true
  /\ nth_error (map g_key (named self group)) 0 = Some (g_key ge)
  /\ nth_error (map g_href (named self group)) 0 = Some (g_href ge).
Proof.
  intro Hhd.
  assert (Hin : In ge (named self group)).
  { destruct (named self group); [discriminate|].
    injection Hhd as <-. left. reflexivity. }
  unfold named in Hin. apply filter_In in Hin. destruct Hin as [Hin Hname].
  apply String.eqb_eq in Hname.
  split; [exact Hname|]. split.
  - destruct (Client.tc_groups self); [contradiction|reflexivity].
  - destruct (named self group); [discriminate|].
    injection Hhd as <-. split; reflexivity.
Qed.

Lemma get_users_from_group_ref (self : Client.t) (group : string)
    (ge : tc_group) (s : RefServer.state) :
  hd_error (named self group) = Some ge ->
  RefServer.has_key (g_key ge) (RefServer.groups s) = true ->
  get_users_from_group E self group s
  = (s,
     [Call (GetUsersFromGroup group); Http (GET_userGroups_key (g_key ge))],
     Ok (RefServer.members (g_key ge) (RefServer.users s))).
Proof.
  intros Hhd Hkey.
  destruct (named_hd self group ge Hhd) as [_ [Htruthy [Hk _]]].
  unfold get_users_from_group.
  rewrite bind_emit_l, Htruthy. unfold index. rewrite Hk.
  rewrite bind_ret_l, bind_http_l.
  cbn [E RefServer.env tc_handle RefServer.handle]. rewrite Hkey.
  reflexivity.
Qed.

Lemma get_user_groups_ref (user : string) (s : RefServer.state)
    (l : list tc_group) :
  dict_get (RefServer.users s) user = Some l ->
  get_user_groups E user s
  = (s, [Http (GET_user_groups user)], Ok (inl (Groups l))).
Proof.
  intro Huser. unfold get_user_groups. rewrite bind_http_l.
  cbn [E RefServer.env tc_handle RefServer.handle]. rewrite Huser.
  reflexivity.
Qed.

Lemma put_user_groups_ref {B} (user : string) (s : RefServer.state)
    (l new : list tc_group) (k : response -> M E B) :
  dict_get (RefServer.users s) user = Some l ->
  bind (http E (PUT_user_groups user new)) k s
  = (state_of (k (RefServer.ok (Groups new))
                 {| RefServer.groups := RefServer.groups s;
                    RefServer.users := dict_set (RefServer.users s) user new |}),
     Http (PUT_user_groups user new)
     :: trace_of (k (RefServer.ok (Groups new))
                    {| RefServer.groups := RefServer.groups s;
                       RefServer.users := dict_set (RefServer.users s) user new |}),
     result_of (k (RefServer.ok (Groups new))
                  {| RefServer.groups := RefServer.groups s;
                     RefServer.users := dict_set (RefServer.users s) user new |})).
Proof.
  intro Huser. rewrite bind_http_l.
  cbn [E RefServer.env tc_handle RefServer.handle]. rewrite Huser.
  reflexivity.
Qed.

Lemma add_user_to_group_ref (self : Client.t) (user group : string)
    (ge : tc_group) (s : RefServer.state) (l : list tc_group) :
  hd_error (named self group) = Some ge ->
  dict_get (RefServer.users s) user = Some l ->
  state_of (add_user_to_group E self user group s)
  = {| RefServer.groups := RefServer.groups s;
       RefServer.users := dict_set (RefServer.users s) user (l ++ [ge]) |}
  /\ result_of (add_user_to_group E self user group s) = Ok tt.
Proof.
  intros Hhd Huser.
  destruct (named_hd self group ge Hhd) as [Hname [_ [Hk Hh]]].
  assert (Hge : {| g_name := group; g_key := g_key ge; g_href := g_href ge |} = ge)
    by (destruct ge; cbn in *; subst; reflexivity).
  unfold add_user_to_group.
  rewrite bind_emit_l.
  rewrite (bind_known E _ _ _ _ _ _ (get_user_groups_ref user s l Huser)).
  unfold index. rewrite Hh, Hk. rewrite !bind_ret_l.
  cbn [user_groups_group]. rewrite bind_ret_l, Hge.
  rewrite (put_user_groups_ref user s l _ _ Huser).
  split; reflexivity.
Qed.

Lemma remove_user_from_group_ref (self : Client.t) (user group : string)
    (s : RefServer.state) (l : list tc_group) :
  dict_get (RefServer.users s) user = Some l ->
  state_of (remove_user_from_group E self user group s)
  = {| RefServer.groups := RefServer.groups s;
       RefServer.users :=
         dict_set (RefServer.users s) user
                  (remove_named (length l) 0 l group) |}
  /\ result_of (remove_user_from_group E self user group s) = Ok tt.
Proof.
  intros Huser.
  unfold remove_user_from_group.
  rewrite bind_emit_l.
  rewrite (bind_known E _ _ _ _ _ _ (get_user_groups_ref user s l Huser)).
  cbn [user_groups_group]. rewrite bind_ret_l.
  rewrite (put_user_groups_ref user s l _ _ Huser).
  split; reflexivity.
Qed.

(** A guarded loop whose body rewrites the list of the user it is run for:
    afterwards the users of the loop that pass the guard have their list
    rewritten, and nothing else has changed. *)
Lemma update_loop (guard : string -> bool)
    (f : list tc_group -> list tc_group) (body : string -> M E unit) :
  (forall u (s : RefServer.state) l,
     guard u = true -> dict_get (RefServer.users s) u = Some l ->
     state_of (body u s)
     = {| RefServer.groups := RefServer.groups s;
          RefServer.users := dict_set (RefServer.users s) u (f l) |}
     /\ result_of (body u s) = Ok tt) ->
  (forall u (s : RefServer.state),
     guard u = false -> state_of (body u s) = s /\ result_of (body u s) = Ok tt) ->
  forall l0 (s : RefServer.state),
    NoDup l0 ->
    (forall u, In u l0 -> guard u = true ->
       exists l, dict_get (RefServer.users s) u = Some l) ->
    result_of (for_ E l0 body s) = Ok tt
    /\ RefServer.groups (state_of (for_ E l0 body s)) = RefServer.groups s
    /\ keys (RefServer.users (state_of (for_ E l0 body s)))
       = keys (RefServer.users s)
    /\ forall v,
         dict_get (RefServer.users (state_of (for_ E l0 body s))) v
         = if in_list v l0 && guard v
           then option_map f (dict_get (RefServer.users s) v)
           else dict_get (RefServer.users s) v.
Proof.
  intros Hbody Hskip l0.
  induction l0 as [|u l0 IH]; intros s Hnd Hex.
  - cbn. repeat split; reflexivity.
  - cbn [for_]. rewrite bind_state, bind_result.
    inversion Hnd as [|? ? Hnotin Hnd']; subst.
    destruct (guard u) eqn:Hg.
    + destruct (Hex u (or_introl eq_refl) Hg) as [l Hl].
      destruct (Hbody u s l Hg Hl) as [Hs Hr]. rewrite Hr, Hs.
      set (s1 := {| RefServer.groups := RefServer.groups s;
                    RefServer.users := dict_set (RefServer.users s) u (f l) |}).
      destruct (IH s1 Hnd') as [IHr [IHg [IHk IHd]]].
      { intros u' Hu' Hg'. cbn [s1 RefServer.users]. rewrite dict_get_set.
        destruct (String.eqb u u'); [eexists; reflexivity|].
        apply Hex; [right; exact Hu'|exact Hg']. }
      split; [exact IHr|]. split; [exact IHg|]. split.
      * rewrite IHk. cbn [s1 RefServer.users].
        apply (dict_set_keys_present _ _ _ _ Hl).
      * intro v. rewrite IHd. cbn [s1 RefServer.users]. rewrite dict_get_set.
        unfold in_list. cbn [existsb]. fold (in_list v l0).
        destruct (String.eqb u v) eqn:Huv.
        -- apply String.eqb_eq in Huv. subst v.
           rewrite String.eqb_refl, Hg, Hl. cbn [orb andb option_map].
           destruct (in_list u l0) eqn:Hin; [|reflexivity].
           apply in_list_In in Hin. contradiction.
        -- rewrite String.eqb_sym, Huv. reflexivity.
    + destruct (Hskip u s Hg) as [Hs Hr]. rewrite Hr, Hs.
      destruct (IH s Hnd') as [IHr [IHg [IHk IHd]]].
      { intros u' Hu' Hg'. apply Hex; [right; exact Hu'|exact Hg']. }
      split; [exact IHr|]. split; [exact IHg|]. split; [exact IHk|].
      intro v. rewrite IHd.
      unfold in_list. cbn [existsb]. fold (in_list v l0).
      destruct (String.eqb v u) eqn:Hvu; [|reflexivity].
      apply String.eqb_eq in Hvu. subst v. rewrite Hg.
      rewrite !andb_false_r. reflexivity.
Qed.

(** A loop whose guard lets nobody through does nothing. *)
Lemma idle_loop (body : string -> M E unit) (l0 : list string)
    (s : RefServer.state) :
  (forall u, In u l0 -> body u s = (s, [], Ok tt)) ->
  for_ E l0 body s = (s, [], Ok tt).
Proof.
  induction l0 as [|u l0 IH]; intro Hidle; [reflexivity|].
  cbn [for_].
  rewrite (bind_known E _ _ _ _ _ _ (Hidle u (or_introl eq_refl))).
  rewrite IH; [reflexivity|]. intros v Hv. apply Hidle. right. exact Hv.
Qed.

Lemma members_In (key : string) (us : dict (list tc_group)) (u : string) :
  NoDup (keys us) ->
  In u (RefServer.members key us) <->
  exists l, dict_get us u = Some l /\ RefServer.has_key key l = true.
Proof.
  intro Hnd. unfold RefServer.members, keys. rewrite in_map_iff. split.
  - intros [[u' l] [Hfst Hin]]. cbn in Hfst. subst u'.
    apply filter_In in Hin. destruct Hin as [Hin Hkey]. cbn in Hkey.
    exists l. split; [apply In_dict_get; assumption|exact Hkey].
  - intros [l [Hget Hkey]]. exists (u, l). split; [reflexivity|].
    apply filter_In. split; [apply dict_get_In; exact Hget|exact Hkey].
Qed.

Lemma members_NoDup (key : string) (us : dict (list tc_group)) :
  NoDup (keys us) -> NoDup (RefServer.members key us).
Proof.
  unfold RefServer.members, keys.
  induction us as [|[u l] us IH]; cbn [map fst filter]; intro Hnd.
  - constructor.
  - inversion Hnd as [|? ? Hnotin Hnd']; subst.
    destruct (RefServer.has_key key (snd (u, l))); [|apply IH; exact Hnd'].
    cbn [map fst]. constructor; [|apply IH; exact Hnd'].
    intro Hin. apply Hnotin. apply in_map_iff in Hin.
    destruct Hin as [[u' l'] [Hfst Hin]]. cbn in Hfst. subst u'.
    apply filter_In in Hin. apply in_map_iff. exists (u, l').
    split; [reflexivity|apply Hin].
Qed.

Lemma has_key_added (ge : tc_group) (l : list tc_group) :
  RefServer.has_key (g_key ge) (l ++ [ge]) = true.
Proof.
  unfold RefServer.has_key. rewrite existsb_app. cbn.
  rewrite String.eqb_refl. rewrite orb_true_r. reflexivity.
Qed.

Lemma has_key_removed (ge : tc_group) (l all : list tc_group) :
  incl l all -> NoDup (map g_key all) -> In ge all ->
  RefServer.has_key (g_key ge)
    (filter (fun g => negb (String.eqb (g_name g) (g_name ge))) l) = false.
Proof.
  intros Hincl Hnd Hge.
  destruct (RefServer.has_key _ _) eqn:Hkey; [|reflexivity].
  unfold RefServer.has_key in Hkey. apply existsb_exists in Hkey.
  destruct Hkey as [g [Hg Heq]]. apply filter_In in Hg.
  destruct Hg as [Hg Hname]. apply String.eqb_eq in Heq.
  assert (g = ge) by (apply (NoDup_map_inj g_key all); auto).
  subst g. rewrite String.eqb_refl in Hname. discriminate.
Qed.

(** The pass on a consistent server, for a group the client sees and the
    server has, with every desired user known to the server: it returns, and
    afterwards the members of the group are the desired users. *)
Lemma sync_members_ref (self : Client.t) (group : string) (ge : tc_group)
    (d : dict string) (s : RefServer.state) :
  RefServer.consistent s ->
  hd_error (named self group) = Some ge ->
  In ge (RefServer.groups s) ->
  NoDup (keys d) ->
  (forall u, In u (keys d) -> In u (keys (RefServer.users s))) ->
  result_of (sync_members E self group d s) = Ok tt
  /\ RefServer.groups (state_of (sync_members E self group d s))
     = RefServer.groups s
  /\ NoDup (keys (RefServer.users (state_of (sync_members E self group d s))))
  /\ forall u,
       In u (RefServer.members (g_key ge)
               (RefServer.users (state_of (sync_members E self group d s))))
       <-> In u (keys d).
Proof.
  intros [Husers [Hnames [Hkeys Hlists]]] Hhd Hge Hd Hknown.
  destruct (named_hd self group ge Hhd) as [Hname _].
  assert (Hhas : RefServer.has_key (g_key ge) (RefServer.groups s) = true).
  { unfold RefServer.has_key. apply existsb_exists. exists ge.
    split; [exact Hge|apply String.eqb_refl]. }
  set (O := RefServer.members (g_key ge) (RefServer.users s)).
  pose proof (get_users_from_group_ref self group ge s Hhd Hhas) as Hget.
  fold O in Hget.
  unfold sync_members.
  rewrite (bind_known E _ _ _ _ _ _ Hget).
  cbn [state_of result_of fst snd].
  rewrite bind_state, bind_result.
  unfold add_users, remove_users.
  (* the additions *)
  destruct (update_loop (fun u => negb (in_list u O)) (fun l => l ++ [ge])
              (fun user => if negb (in_list user O)
                           then add_user_to_group E self user group
                           else ret tt))
    with (l0 := keys d) (s := s) as [Har [Hag [Hak Had]]].
  { intros u s0 l Hg Hl. rewrite Hg.
    apply (add_user_to_group_ref self u group ge s0 l Hhd Hl). }
  { intros u s0 Hg. rewrite Hg. split; reflexivity. }
  { exact Hd. }
  { intros u Hu _. apply dict_get_keys. apply Hknown. exact Hu. }
  rewrite Har.
  set (s1 := state_of (for_ E (keys d) _ s)) in *.
  (* the removals *)
  destruct (update_loop (fun u => negb (in_list u (keys d)))
              (fun l => remove_named (length l) 0 l group)
              (fun user => if negb (in_list user (keys d))
                           then remove_user_from_group E self user group
                           else ret tt))
    with (l0 := O) (s := s1) as [Hrr [Hrg [Hrk Hrd]]].
  { intros u s0 l Hg Hl. rewrite Hg.
    apply (remove_user_from_group_ref self u group s0 l Hl). }
  { intros u s0 Hg. rewrite Hg. split; reflexivity. }
  { apply members_NoDup. exact Husers. }
  { intros u Hu _. apply dict_get_keys. rewrite Hak.
    apply (members_In _ _ _ Husers) in Hu. destruct Hu as [l [Hl _]].
    apply dict_get_keys. exists l. exact Hl. }
  split; [exact Hrr|].
  set (s2 := state_of (for_ E O _ s1)) in *.
  split; [rewrite Hrg; exact Hag|].
  assert (Hnd2 : NoDup (keys (RefServer.users s2)))
    by (rewrite Hrk, Hak; exact Husers).
  split; [exact Hnd2|].
  intro u. rewrite (members_In _ _ _ Hnd2), Hrd, Had.
  pose proof (in_list_In u (keys d)) as HD.
  pose proof (in_list_In u O) as HO.
  destruct (in_list u (keys d)) eqn:HbD, (in_list u O) eqn:HbO;
    cbn [andb negb].
  - (* desired and already a member *)
    split; [intros _; apply HD; reflexivity|]. intros _.
    apply (members_In _ _ _ Husers). apply HO. reflexivity.
  - (* desired, added *)
    split; [intros _; apply HD; reflexivity|]. intros Hu.
    apply Hknown in Hu. apply dict_get_keys in Hu. destruct Hu as [l Hl].
    rewrite Hl. cbn [option_map]. eexists. split; [reflexivity|].
    apply has_key_added.
  - (* a member that is not desired, removed *)
    split; [|intro Hu; apply HD in Hu; discriminate].
    intros [l2 [Hl2 Hkey]]. exfalso.
    assert (Hu : In u O) by (apply HO; reflexivity).
    apply (members_In _ _ _ Husers) in Hu. destruct Hu as [l [Hl _]].
    rewrite Hl in Hl2. cbn [option_map] in Hl2. injection Hl2 as <-.
    destruct (Hlists u l (dict_get_In _ _ _ Hl)) as [Hndl Hincl].
    rewrite remove_named_filter in Hkey
      by (apply (NoDup_map_incl g_name l (RefServer.groups s)); assumption).
    rewrite <- Hname in Hkey.
    rewrite (has_key_removed ge l (RefServer.groups s) Hincl Hkeys Hge) in Hkey.
    discriminate.
  - (* neither *)
    split; [|intro Hu; apply HD in Hu; discriminate].
    intros Hmem. exfalso.
    apply (members_In _ _ _ Husers) in Hmem. apply HO in Hmem. discriminate.
Qed.

(** The pass keeps the server consistent. *)
Lemma sync_members_consistent (self : Client.t) (group : string)
    (ge : tc_group) (d : dict string) (s : RefServer.state) :
  RefServer.consistent s ->
  hd_error (named self group) = Some ge ->
  In ge (RefServer.groups s) ->
  NoDup (keys d) ->
  (forall u, In u (keys d) -> In u (keys (RefServer.users s))) ->
  RefServer.consistent (state_of (sync_members E self group d s)).
Proof.
  intros Hcons Hhd Hge Hd Hknown.
  pose proof Hcons as [Husers [Hnames [Hkeys Hlists]]].
  assert (Hhas : RefServer.has_key (g_key ge) (RefServer.groups s) = true).
  { unfold RefServer.has_key. apply existsb_exists. exists ge.
    split; [exact Hge|apply String.eqb_refl]. }
  set (O := RefServer.members (g_key ge) (RefServer.users s)).
  pose proof (get_users_from_group_ref self group ge s Hhd Hhas) as Hget.
  fold O in Hget.
  unfold sync_members.
  rewrite (bind_known E _ _ _ _ _ _ Hget).
  cbn [state_of fst snd].
  rewrite bind_state.
  unfold add_users, remove_users.
  destruct (update_loop (fun u => negb (in_list u O)) (fun l => l ++ [ge])
              (fun user => if negb (in_list user O)
                           then add_user_to_group E self user group
                           else ret tt))
    with (l0 := keys d) (s := s) as [Har [Hag [Hak Had]]].
  { intros u s0 l Hg Hl. rewrite Hg.
    apply (add_user_to_group_ref self u group ge s0 l Hhd Hl). }
  { intros u s0 Hg. rewrite Hg. split; reflexivity. }
  { exact Hd. }
  { intros u Hu _. apply dict_get_keys. apply Hknown. exact Hu. }
  rewrite Har.
  set (s1 := state_of (for_ E (keys d) _ s)) in *.
  destruct (update_loop (fun u => negb (in_list u (keys d)))
              (fun l => remove_named (length l) 0 l group)
              (fun user => if negb (in_list user (keys d))
                           then remove_user_from_group E self user group
                           else ret tt))
    with (l0 := O) (s := s1) as [Hrr [Hrg [Hrk Hrd]]].
  { intros u s0 l Hg Hl. rewrite Hg.
    apply (remove_user_from_group_ref self u group s0 l Hl). }
  { intros u s0 Hg. rewrite Hg. split; reflexivity. }
  { apply members_NoDup. exact Husers. }
  { intros u Hu _. apply dict_get_keys. rewrite Hak.
    apply (members_In _ _ _ Husers) in Hu. destruct Hu as [l [Hl _]].
    apply dict_get_keys. exists l. exact Hl. }
  set (s2 := state_of (for_ E O _ s1)) in *.
  assert (Hnd2 : NoDup (keys (RefServer.users s2)))
    by (rewrite Hrk, Hak; exact Husers).
  split; [exact Hnd2|].
  split; [rewrite Hrg, Hag; exact Hnames|].
  split; [rewrite Hrg, Hag; exact Hkeys|].
  intros u l2 Hin. rewrite Hrg, Hag.
  apply (In_dict_get _ _ _ Hnd2) in Hin. rewrite Hrd, Had in Hin.
  assert (Hold : forall l, dict_get (RefServer.users s) u = Some l ->
            NoDup l /\ incl l (RefServer.groups s))
    by (intros l Hl; apply (Hlists u l); apply dict_get_In; exact Hl).
  assert (Hrm : forall l, NoDup l /\ incl l (RefServer.groups s) ->
            NoDup (remove_named (length l) 0 l group)
            /\ incl (remove_named (length l) 0 l group) (RefServer.groups s)).
  { intros l [Hndl Hincl].
    rewrite remove_named_filter
      by (apply (NoDup_map_incl g_name l (RefServer.groups s)); assumption).
    split; [apply NoDup_filter; exact Hndl|].
    intros g Hg. apply filter_In in Hg. apply Hincl. apply Hg. }
  assert (Hadd : forall l, dict_get (RefServer.users s) u = Some l ->
            in_list u O = false ->
            NoDup (l ++ [ge]) /\ incl (l ++ [ge]) (RefServer.groups s)).
  { intros l Hl HbO. destruct (Hold l Hl) as [Hndl Hincl]. split.
    - apply NoDup_app; [exact Hndl|repeat constructor; intros []|].
      intros g Hg [Heq|[]]. subst g.
      assert (Hmem : In u O).
      { apply (members_In _ _ _ Husers). exists l. split; [exact Hl|].
        unfold RefServer.has_key. apply existsb_exists. exists ge.
        split; [exact Hg|apply String.eqb_refl]. }
      apply in_list_In in Hmem. congruence.
    - intros g Hg. apply in_app_or in Hg.
      destruct Hg as [Hg|[<-|[]]]; [apply Hincl; exact Hg|exact Hge]. }
  destruct (in_list u O) eqn:HbO, (in_list u (keys d)) eqn:HbD;
    cbn [andb negb] in Hin.
  - apply Hold. exact Hin.
  - destruct (dict_get (RefServer.users s) u) as [l|] eqn:Hl; [|discriminate].
    cbn [option_map] in Hin. injection Hin as <-. apply Hrm. apply Hold.
    reflexivity.
  - destruct (dict_get (RefServer.users s) u) as [l|] eqn:Hl; [|discriminate].
    cbn [option_map] in Hin. injection Hin as <-. apply Hadd; reflexivity.
  - apply Hold. exact Hin.
Qed.

End Convergence.

(** ** Nested groups on the reference directory *)

Section NestedGroups.

Variable D : RefDirectory.t.












End NestedGroups.


(** * The claims *)




(** C3, as the script has it.  With wildcard search on and every pattern's
    search answered, the configured groups become the concatenation of what
    the patterns expand to; a pattern that expands to nothing is reported on
    the output and contributes nothing; [SystemExit] is raised exactly when
    all patterns together expand to nothing, and the run then ends before any
    call to TeamCity's groups and users is made. *)
Theorem wildcard_exit_iff_nothing_found (E : Env) (args : Args.t)
    (config : Conf.t) (s : tc_state E) :
  Args.wildcard_search args = true ->
  (forall p, In p (Conf.ldap_groups config) ->
     exists names,
       result_of (get_groups_with_wildcard E (LDAPConn.init args config) p s)
       = Ok names) ->
  result_of (set_groups_with_wildcard E config (LDAPConn.init args config) s)
  = (if truthy (flat_map (expansion E (LDAPConn.init args config) s)
                         (Conf.ldap_groups config))
     then Ok (Conf.with_ldap_groups config
                (flat_map (expansion E (LDAPConn.init args config) s)
                          (Conf.ldap_groups config)))
     else Raise (SystemExit "ERROR - No groups found with wildcard"))
  /\ (flat_map (expansion E (LDAPConn.init args config) s)
               (Conf.ldap_groups config) = [] <->
      forall p, In p (Conf.ldap_groups config) ->
        expansion E (LDAPConn.init args config) s p = [])
  /\ ((forall p, In p (Conf.ldap_groups config) ->
         expansion E (LDAPConn.init args config) s p = []) ->
      result_of (main E args config s)
      = Raise (SystemExit "ERROR - No groups found with wildcard")
      /\ trace_of (main E args config s)
         = trace_of (set_groups_with_wildcard E config
                       (LDAPConn.init args config) s))
  /\ (forall p, In p (Conf.ldap_groups config) ->
        expansion E (LDAPConn.init args config) s p = [] ->
        In (pct ">>> Unable to find group %s, skipping group wildcard" p)
           (printed (trace_of (set_groups_with_wildcard E config
                                 (LDAPConn.init args config) s)))).
Proof.
  intros Hw Hok.
  set (conn := LDAPConn.init args config) in *.
  destruct (expand_groups_concat E conn s (Conf.ldap_groups config) [] Hok)
    as [Hstate Hres].
  cbn [app] in Hres.
  assert (Hset :
    result_of (set_groups_with_wildcard E config conn s)
    = (if truthy (flat_map (expansion E conn s) (Conf.ldap_groups config))
       then Ok (Conf.with_ldap_groups config
                  (flat_map (expansion E conn s) (Conf.ldap_groups config)))
       else Raise (SystemExit "ERROR - No groups found with wildcard"))).
  { unfold set_groups_with_wildcard. rewrite bind_result, Hres.
    destruct (flat_map _ _); reflexivity. }
  split; [exact Hset|]. split; [apply flat_map_nil|]. split.
  - intro Hall. apply flat_map_nil in Hall.
    unfold main. fold conn. rewrite Hw, bind_result, bind_trace, Hset, Hall.
    cbn [truthy]. rewrite app_nil_r. split; reflexivity.
  - intros p Hp Hempty.
    unfold set_groups_with_wildcard. rewrite bind_trace, printed_app.
    apply in_or_app. left.
    rewrite (expand_groups_trace E conn s _ [] Hok).
    destruct (Hok p Hp) as [names Hnames].
    assert (Hnil : names = [])
      by (unfold expansion in Hempty; rewrite Hnames in Hempty; exact Hempty).
    subst names.
    pose proof (get_groups_with_wildcard_logs E conn p s Hnames) as Hlog.
    clear - Hp Hlog.
    induction (Conf.ldap_groups config) as [|q l IH]; [contradiction|].
    cbn [flat_map]. rewrite printed_app. apply in_or_app.
    destruct Hp as [->|Hp]; [left; exact Hlog | right; apply IH; exact Hp].
Qed.

(** Two patterns, one of which matches nothing: the groups become what the
    other pattern found. *)
Lemma wildcard_exit_iff_nothing_found_witness :
  Args.wildcard_search Scenario.wild_args = true
  /\ result_of (set_groups_with_wildcard (RefServer.env Scenario.wild_rows)
                  Scenario.wild_conf
                  (LDAPConn.init Scenario.wild_args Scenario.wild_conf)
                  Scenario.empty_server)
     = Ok (Conf.with_ldap_groups Scenario.wild_conf [Scenario.admins]).
Proof.
  split; [reflexivity|].
  refine (proj1 (wildcard_exit_iff_nothing_found
                   (RefServer.env Scenario.wild_rows) Scenario.wild_args
                   Scenario.wild_conf Scenario.empty_server eq_refl _)).
  intros p [<-|[<-|[]]]; eexists; reflexivity.
Defined.

(** C3, as the claim states it, fails: the pattern [Typo.*] is configured,
    wildcard search is on, the pattern expands to nothing, and the run goes
    through to its end. *)
Lemma wildcard_pattern_without_match_does_not_abort :
  Args.wildcard_search Scenario.wild_args = true
  /\ In "Typo.*" (Conf.ldap_groups Scenario.wild_conf)
  /\ result_of (get_groups_with_wildcard (RefServer.env Scenario.wild_rows)
                  (LDAPConn.init Scenario.wild_args Scenario.wild_conf)
                  "Typo.*" Scenario.empty_server) = Ok []
  /\ result_of (main (RefServer.env Scenario.wild_rows) Scenario.wild_args
                  Scenario.wild_conf Scenario.empty_server) = Ok tt.
Proof.
  split; [reflexivity|]. split; [left; reflexivity|].
  split; vm_compute; reflexivity.
Qed.

(** C4, on the script.  Two groups are configured and the directory does not
    have the first.  [get_group_members] prints that it skips the group and
    returns [None]; [start_sync] still creates the group in TeamCity and then
    raises on [None.items()].  The run ends there: the second group is never
    looked up. *)
Theorem missing_group_ends_the_run :
  result_of (main (RefServer.env Scenario.ad_rows) (Scenario.args false false true)
               Scenario.gone_conf Scenario.empty_server)
  = Raise AttributeError
  /\ printed (trace_of (main (RefServer.env Scenario.ad_rows)
                          (Scenario.args false false true)
                          Scenario.gone_conf Scenario.empty_server))
     = [">>> Unable to find group Gone.Zabbix.Team, skipping group"]
  /\ searches_of (trace_of (main (RefServer.env Scenario.ad_rows)
                              (Scenario.args false false true)
                              Scenario.gone_conf Scenario.empty_server))
     = [LdapSearch Scenario.base
          "(&(objectClass=group)(name=Gone.Zabbix.Team))" ["member"]]
  /\ calls_of (trace_of (main (RefServer.env Scenario.ad_rows)
                           (Scenario.args false false true)
                           Scenario.gone_conf Scenario.empty_server))
     = [CreateGroup Scenario.gone].
Proof. repeat split; vm_compute; reflexivity. Qed.

(** C5.  With the lowercase option on, whatever the flavor of the
    directory, every key of a mapping [get_group_members] returns is
    [str.lower] of the sAMAccountName of an entry the directory returned,
    filed with that entry's DN, and the usernames the pass creates and adds
    are such lower-cased names.  (Only the Active Directory flavor ever
    returns a mapping: on the generic flavor line 193 raises before a
    username is read.) *)
Theorem lowercase_names_every_key (E : Env) (self : Client.t)
    (group : string) (s : tc_state E) :
  LDAPConn.lowercase (Client.ldap_object self) = true ->
  (forall d,
     result_of (get_group_members E (Client.ldap_object self) group s)
     = Ok (Some d) ->
     forall k v, In (k, v) d ->
       exists b f a item name,
         In item (directory E b f a) /\ dn item = v
         /\ dict_get (str_attrs item) "sAMAccountName" = Some name
         /\ k = str_lower E name)
  /\ (forall u,
        In (CreateUser u) (calls_of (trace_of (sync_group E self group s)))
        \/ In (AddUserToGroup u group)
              (calls_of (trace_of (sync_group E self group s))) ->
        exists b f a item name,
          In item (directory E b f a)
          /\ dict_get (str_attrs item) "sAMAccountName" = Some name
          /\ u = str_lower E name).
Proof.
  intro Hlow.
  assert (Hkeys : forall d,
     result_of (get_group_members E (Client.ldap_object self) group s)
     = Ok (Some d) ->
     forall k v, In (k, v) d ->
       exists b f a item name,
         In item (directory E b f a) /\ dn item = v
         /\ dict_get (str_attrs item) "sAMAccountName" = Some name
         /\ k = str_lower E name).
  { intros d Hres k v Hin.
    destruct (get_group_members_pairs E _ group s d Hres k v Hin)
      as [b [f [a [item [name [Hi [Hd [Hn Hk]]]]]]]].
    unfold normalized in Hk. rewrite Hlow in Hk.
    exists b, f, a, item, name. repeat split; assumption. }
  split; [exact Hkeys|].
  intros u Hu.
  destruct (sync_group_calls E self group s)
    as [desired [observed [rest [Hplan [_ [Hdesired _]]]]]].
  assert (Hin : In u desired).
  { destruct Hu as [Hu|Hu];
      (eapply or_introl in Hu; apply in_or_app in Hu; rewrite <- Hplan in Hu;
       apply group_plan_In in Hu; tauto). }
  rewrite Hdesired in Hin.
  destruct (result_of (get_group_members E (Client.ldap_object self) group s))
    as [[d|]|e]; try contradiction.
  unfold keys in Hin. apply in_map_iff in Hin.
  destruct Hin as [[k v] [<- Hin]].
  destruct (Hkeys d eq_refl k v Hin)
    as [b [f [a [item [name [Hi [_ [Hn Hk]]]]]]]].
  exists b, f, a, item, name. repeat split; assumption.
Qed.

(** The run with [--recursive --lowercase] against the Active Directory:
    the directory gives [Alice] and [Bob], the mapping holds [alice] and
    [bob], and alice is the user the pass adds. *)
Lemma lowercase_names_every_key_witness :
  LDAPConn.lowercase (Client.ldap_object Scenario.client) = true
  /\ result_of (get_group_members (RefServer.env Scenario.ad_rows)
                  (Client.ldap_object Scenario.client) Scenario.admins
                  Scenario.bob_carol_server)
     = Ok (Some [("alice", Scenario.alice_dn); ("bob", Scenario.bob_dn)])
  /\ In (AddUserToGroup "alice" Scenario.admins)
        (calls_of (trace_of (sync_group (RefServer.env Scenario.ad_rows)
                               Scenario.client Scenario.admins
                               Scenario.bob_carol_server)))
  /\ exists b f a item name,
       In item (directory (RefServer.env Scenario.ad_rows) b f a)
       /\ dict_get (str_attrs item) "sAMAccountName" = Some name
       /\ "alice" = str_lower (RefServer.env Scenario.ad_rows) name.
Proof.
  assert (Hadd : In (AddUserToGroup "alice" Scenario.admins)
        (calls_of (trace_of (sync_group (RefServer.env Scenario.ad_rows)
                               Scenario.client Scenario.admins
                               Scenario.bob_carol_server))))
    by (vm_compute; tauto).
  split; [reflexivity|]. split; [vm_compute; reflexivity|].
  split; [exact Hadd|].
  exact (proj2 (lowercase_names_every_key (RefServer.env Scenario.ad_rows)
                  Scenario.client Scenario.admins Scenario.bob_carol_server
                  eq_refl) "alice" (or_intror Hadd)).
Defined.




(** C7, on the script.  The group has the members alice and bob and both
    lookups find their user.  Each successful lookup assigns
    [group_members] (line 177) where it should extend it, so the mapping
    holds bob alone. *)
Theorem direct_resolution_keeps_the_last_member :
  searches_of (trace_of (get_group_members (RefServer.env Scenario.ad_rows)
                           (Scenario.ad_conn false true) Scenario.admins
                           Scenario.empty_server))
  = [LdapSearch Scenario.base Scenario.admins_filter ["member"];
     LdapSearch Scenario.alice_dn "(&(objectClass=user))" ["sAMAccountName"];
     LdapSearch Scenario.bob_dn "(&(objectClass=user))" ["sAMAccountName"]]
  /\ directory (RefServer.env Scenario.ad_rows) Scenario.alice_dn
       "(&(objectClass=user))" ["sAMAccountName"]
     = [Scenario.user_entry Scenario.alice_dn "Alice"]
  /\ directory (RefServer.env Scenario.ad_rows) Scenario.bob_dn
       "(&(objectClass=user))" ["sAMAccountName"]
     = [Scenario.user_entry Scenario.bob_dn "Bob"]
  /\ result_of (get_group_members (RefServer.env Scenario.ad_rows)
                  (Scenario.ad_conn false true) Scenario.admins
                  Scenario.empty_server)
     = Ok (Some [("bob", Scenario.bob_dn)]).
Proof. repeat split; vm_compute; reflexivity. Qed.

(** C9, as the script has it.  [create_group] and [create_user] send one
    request and drop the response: whatever its status, they return, print
    nothing and send nothing more, and after the creation of a group the pass
    goes on with the refresh of the client's groups. *)
Theorem failed_creation_is_dropped (E : Env) (self : Client.t)
    (s : tc_state E) :
  (forall group_name,
     create_group E self group_name s
     = (fst (tc_handle E s (POST_userGroups group_name (slice_to 16 group_name))),
        [Call (CreateGroup group_name);
         Http (POST_userGroups group_name (slice_to 16 group_name))],
        Ok tt))
  /\ (forall user,
        exists email,
          create_user E self user s
          = (fst (tc_handle E s (POST_users (u_username user) (u_name user) email)),
             [Call (CreateUser (u_username user));
              Http (POST_users (u_username user) (u_name user) email)],
             Ok tt))
  /\ (forall group,
        in_list group (map g_name (Client.tc_groups self)) = false ->
        trace_of (ensure_group E self group s)
        = [Call (CreateGroup group);
           Http (POST_userGroups group (slice_to 16 group));
           Http GET_userGroups]).
Proof.
  assert (Hgroup : forall group_name,
     create_group E self group_name s
     = (fst (tc_handle E s (POST_userGroups group_name (slice_to 16 group_name))),
        [Call (CreateGroup group_name);
         Http (POST_userGroups group_name (slice_to 16 group_name))],
        Ok tt)).
  { intro group_name. unfold create_group.
    rewrite bind_emit_l, bind_http_l. reflexivity. }
  split; [exact Hgroup|]. split.
  - intro user. eexists. unfold create_user.
    rewrite bind_emit_l, bind_http_l. reflexivity.
  - intros group Habsent. unfold ensure_group. rewrite Habsent. cbn [negb].
    rewrite (bind_known E _ _ _ _ _ _ (Hgroup group)).
    cbn [trace_of fst snd app]. do 2 f_equal.
    unfold get_tc_groups.
    rewrite bind_trace, bind_http_l. cbn [trace_of result_of state_of fst snd].
    unfold json_group.
    destruct (json _) as [l| | |].
    + rewrite bind_ret_l. reflexivity.
    + rewrite bind_raise_l. reflexivity.
    + rewrite bind_raise_l. reflexivity.
    + rewrite bind_raise_l. reflexivity.
Qed.

(** C9, as the claim states it, fails: the server refuses the creation of
    the group, and the run goes through with nothing on its output but the
    closing line. *)
Lemma failed_create_group_goes_unreported :
  status_code
    (snd (RefServer.handle_readonly Scenario.empty_server
            (POST_userGroups Scenario.empty_team "Empty.Zabbix.Tea"))) = 500%Z
  /\ In (Http (POST_userGroups Scenario.empty_team "Empty.Zabbix.Tea"))
        (trace_of (main (RefServer.env_readonly Scenario.empty_team_rows)
                     (Scenario.args false true true)
                     (Scenario.conf Scenario.ad [Scenario.empty_team])
                     Scenario.empty_server))
  /\ printed (trace_of (main (RefServer.env_readonly Scenario.empty_team_rows)
                          (Scenario.args false true true)
                          (Scenario.conf Scenario.ad [Scenario.empty_team])
                          Scenario.empty_server))
     = ["HOOOORAY Sync complete"]
  /\ main (RefServer.env_readonly Scenario.empty_team_rows)
       (Scenario.args false true true)
       (Scenario.conf Scenario.ad [Scenario.empty_team]) Scenario.empty_server
     = (Scenario.empty_server,
        [Http GET_userGroups; Http GET_users;
         LdapSearch Scenario.base
           "(&(objectClass=group)(name=Empty.Zabbix.Team))" ["member"];
         LdapSearch Scenario.base
           "(&(objectClass=user)(memberOf:1.2.840.113556.1.4.1941:=CN=Empty.Zabbix.Team,dc=example,dc=com))"
           ["sAMAccountName"];
         Call (CreateGroup Scenario.empty_team);
         Http (POST_userGroups Scenario.empty_team "Empty.Zabbix.Tea");
         Http GET_userGroups;
         Call (GetUsersFromGroup Scenario.empty_team);
         Print "HOOOORAY Sync complete"],
        Ok tt).
Proof.
  split; [reflexivity|].
  split; [vm_compute; tauto|].
  split; vm_compute; reflexivity.
Qed.

(** C10, as the script has it.  The groups the client holds after
    [TeamCityClient.__init__], and after every pass of [start_sync], all have
    [.Zabbix.] in their name; [start_sync] never removes a user from a group
    whose name has not; and when the client holds no group at all the members
    of any group are reported empty without asking TeamCity. *)
Theorem client_sees_zabbix_groups_only (E : Env) (config : Conf.t)
    (ldap_object : LDAPConn.t) (s : tc_state E) (tc : Client.t) :
  result_of (client_init E config ldap_object s) = Ok tc ->
  Forall zabbix (Client.tc_groups tc)
  /\ (forall tc',
        result_of (start_sync E tc (state_of (client_init E config ldap_object s)))
        = Ok tc' ->
        Forall zabbix (Client.tc_groups tc'))
  /\ (forall u group,
        contains ".Zabbix." group = false ->
        ~ In (RemoveUserFromGroup u group)
             (calls_of (trace_of (start_sync E tc
                                    (state_of (client_init E config ldap_object s))))))
  /\ (forall self group s',
        Client.tc_groups self = [] ->
        get_users_from_group E self group s'
        = (s', [Call (GetUsersFromGroup group)], Ok [])).
Proof.
  intro Hinit.
  assert (Hinv : Forall zabbix (Client.tc_groups tc)).
  { unfold client_init in Hinit. rewrite bind_result in Hinit.
    destruct (result_of (get_tc_groups E s)) as [l|e] eqn:Hl; [|discriminate].
    rewrite bind_result in Hinit.
    destruct (result_of (get_tc_users E _)) as [us|e]; [|discriminate].
    cbn in Hinit. injection Hinit as <-. cbn.
    exact (get_tc_groups_zabbix E _ _ Hl). }
  destruct (sync_groups_zabbix E (Client.ldap_groups tc) tc
              (state_of (client_init E config ldap_object s)) Hinv)
    as [Hview Hrem].
  split; [exact Hinv|]. split; [exact Hview|]. split.
  - intros u group Hname Hin. apply Hrem in Hin. congruence.
  - intros self group s' Hnone. apply get_users_from_group_blind. exact Hnone.
Qed.

(** The run for the group [App.Admins] on the server that has the group
    [R.Ops.Zabbix.Admins]. *)
Lemma client_sees_zabbix_groups_only_witness :
  result_of (client_init (RefServer.env Scenario.app_rows)
               (Scenario.conf Scenario.ad [Scenario.app_admins])
               (Scenario.ad_conn true true) Scenario.bob_carol_server)
  = Ok {| Client.ldap_object := Scenario.ad_conn true true;
          Client.ldap_groups := [Scenario.app_admins];
          Client.tc_groups := [Scenario.admins_group];
          Client.tc_users := ["alice"; "bob"; "carol"] |}
  /\ forall u group,
       contains ".Zabbix." group = false ->
       ~ In (RemoveUserFromGroup u group)
            (calls_of (trace_of
               (start_sync (RefServer.env Scenario.app_rows)
                  {| Client.ldap_object := Scenario.ad_conn true true;
                     Client.ldap_groups := [Scenario.app_admins];
                     Client.tc_groups := [Scenario.admins_group];
                     Client.tc_users := ["alice"; "bob"; "carol"] |}
                  (state_of (client_init (RefServer.env Scenario.app_rows)
                               (Scenario.conf Scenario.ad [Scenario.app_admins])
                               (Scenario.ad_conn true true)
                               Scenario.bob_carol_server))))).
Proof.
  split; [reflexivity|].
  exact (proj1 (proj2 (proj2 (client_sees_zabbix_groups_only
                  (RefServer.env Scenario.app_rows)
                  (Scenario.conf Scenario.ad [Scenario.app_admins])
                  (Scenario.ad_conn true true) Scenario.bob_carol_server
                  _ eq_refl)))).
Defined.

(** C10, as the claim states it, fails: the client sees the group
    [R.Ops.Zabbix.Admins], the configured group [App.Admins] has no
    [.Zabbix.] in its name, and its members are not reported empty: the
    lookup of its key raises [IndexError], and the run ends there. *)
Lemma invisible_group_raises_index_error :
  contains ".Zabbix." Scenario.app_admins = false
  /\ Client.tc_groups Scenario.client = [Scenario.admins_group]
  /\ result_of (get_users_from_group (RefServer.env Scenario.app_rows)
                  Scenario.client Scenario.app_admins Scenario.bob_carol_server)
     = Raise IndexError
  /\ result_of (main (RefServer.env Scenario.app_rows)
                  (Scenario.args false true true)
                  (Scenario.conf Scenario.ad [Scenario.app_admins])
                  Scenario.bob_carol_server)
     = Raise IndexError.
Proof. repeat split; vm_compute; reflexivity. Qed.

(** C8.  On a consistent server, for a group the client sees and the server
    has, with the desired usernames distinct and known to the server: the
    pass of lines 438-449 returns; the members TeamCity then reports for the
    group are the desired users; and a second pass from there fetches the
    members and does nothing more: it adds nobody, removes nobody and leaves
    the server as it is. *)
Theorem second_pass_changes_nothing
    (rows : list (string * string * list entry)) (self : Client.t)
    (group : string) (ge : tc_group) (d : dict string)
    (s : RefServer.state) :
  RefServer.consistent s ->
  hd_error (named self group) = Some ge ->
  In ge (RefServer.groups s) ->
  NoDup (keys d) ->
  (forall u, In u (keys d) -> In u (keys (RefServer.users s))) ->
  result_of (sync_members (RefServer.env rows) self group d s) = Ok tt
  /\ (forall u,
        In u (RefServer.members (g_key ge)
                (RefServer.users
                   (state_of (sync_members (RefServer.env rows) self group d s))))
        <-> In u (keys d))
  /\ sync_members (RefServer.env rows) self group d
       (state_of (sync_members (RefServer.env rows) self group d s))
     = (state_of (sync_members (RefServer.env rows) self group d s),
        [Call (GetUsersFromGroup group); Http (GET_userGroups_key (g_key ge))],
        Ok tt).
Proof.
  intros Hcons Hhd Hge Hd Hknown.
  destruct (sync_members_ref rows self group ge d s Hcons Hhd Hge Hd Hknown)
    as [Hres [Hgroups [Hnd Hmembers]]].
  split; [exact Hres|]. split; [exact Hmembers|].
  set (s2 := state_of (sync_members (RefServer.env rows) self group d s)) in *.
  assert (Hhas : RefServer.has_key (g_key ge) (RefServer.groups s2) = true).
  { rewrite Hgroups. unfold RefServer.has_key. apply existsb_exists.
    exists ge. split; [exact Hge|apply String.eqb_refl]. }
  unfold sync_members at 1.
  rewrite (bind_known _ _ _ _ _ _ _
             (get_users_from_group_ref rows self group ge s2 Hhd Hhas)).
  unfold add_users, remove_users.
  rewrite (bind_known _ _ _ s2 s2 [] tt).
  - rewrite idle_loop; [reflexivity|].
    intros u Hu. apply Hmembers in Hu. apply in_list_In in Hu.
    rewrite Hu. reflexivity.
  - apply idle_loop. intros u Hu. apply Hmembers in Hu.
    apply in_list_In in Hu. rewrite Hu. reflexivity.
Qed.

(** The server that has bob and carol in the group, alice and bob desired:
    after the pass the members are alice and bob, and the second pass only
    fetches them. *)
Lemma second_pass_changes_nothing_witness :
  RefServer.consistent Scenario.bob_carol_server
  /\ hd_error (named Scenario.client Scenario.admins) = Some Scenario.admins_group
  /\ result_of (sync_members (RefServer.env Scenario.ad_rows) Scenario.client
                  Scenario.admins Scenario.alice_bob Scenario.bob_carol_server)
     = Ok tt
  /\ sync_members (RefServer.env Scenario.ad_rows) Scenario.client
       Scenario.admins Scenario.alice_bob
       (state_of (sync_members (RefServer.env Scenario.ad_rows) Scenario.client
                    Scenario.admins Scenario.alice_bob
                    Scenario.bob_carol_server))
     = (state_of (sync_members (RefServer.env Scenario.ad_rows) Scenario.client
                    Scenario.admins Scenario.alice_bob
                    Scenario.bob_carol_server),
        [Call (GetUsersFromGroup Scenario.admins);
         Http (GET_userGroups_key (g_key Scenario.admins_group))],
        Ok tt).
Proof.
  assert (Hcons : RefServer.consistent Scenario.bob_carol_server).
  { unfold RefServer.consistent. cbn.
    split; [repeat constructor; cbn; intuition discriminate|].
    split; [repeat constructor; cbn; intuition discriminate|].
    split; [repeat constructor; cbn; intuition discriminate|].
    intros u l [H|[H|[H|[]]]]; injection H as <- <-;
      (split; [repeat constructor; cbn; intuition discriminate|]);
      intros g Hg; cbn in *; tauto. }
  assert (Hnd : NoDup (keys Scenario.alice_bob))
    by (cbn; repeat constructor; cbn; intuition discriminate).
  assert (Hknown : forall u, In u (keys Scenario.alice_bob) ->
            In u (keys (RefServer.users Scenario.bob_carol_server)))
    by (cbn; tauto).
  pose proof (second_pass_changes_nothing Scenario.ad_rows Scenario.client
                Scenario.admins Scenario.admins_group Scenario.alice_bob
                Scenario.bob_carol_server Hcons eq_refl (or_introl eq_refl)
                Hnd Hknown) as [Hres [_ Hsecond]].
  split; [exact Hcons|]. split; [reflexivity|].
  split; [exact Hres|exact Hsecond].
Defined.

(** * Further properties of the script *)

(** ** Reading and replacing a user's groups (lines 355-398) *)

Section Membership.

Variable E : Env.

(** [get_user_groups] sends its one GET and nothing else. *)
Lemma get_user_groups_run (user : string) s :
  state_of (get_user_groups E user s) = fst (tc_handle E s (GET_user_groups user))
  /\ trace_of (get_user_groups E user s) = [Http (GET_user_groups user)].
Proof.
  unfold get_user_groups. rewrite bind_http_l.
  cbn [state_of trace_of fst snd].
  destruct (Z.eqb (status_code (snd (tc_handle E s (GET_user_groups user)))) 200).
  - destruct (json (snd (tc_handle E s (GET_user_groups user))));
      split; reflexivity.
  - split; reflexivity.
Qed.

(** What it returns is a group list only for a 200 with a group list. *)
Lemma get_user_groups_groups (user : string) s l :
  result_of (get_user_groups E user s) = Ok (inl (Groups l)) ->
  status_code (snd (tc_handle E s (GET_user_groups user))) = 200%Z
  /\ json (snd (tc_handle E s (GET_user_groups user))) = Groups l.
Proof.
  unfold get_user_groups. rewrite bind_http_l. cbn [result_of snd].
  destruct (Z.eqb (status_code (snd (tc_handle E s (GET_user_groups user)))) 200)
    eqn:Hstatus.
  - apply Z.eqb_eq in Hstatus.
    destruct (json (snd (tc_handle E s (GET_user_groups user)))); cbn;
      intro H; try discriminate.
    injection H as <-. split; [exact Hstatus|reflexivity].
  - cbn. discriminate.
Qed.

Lemma list_remove_incl (x : tc_group) (l : list tc_group) :
  incl (list_remove x l) l.
Proof.
  induction l as [|y l IH]; cbn [list_remove]; [intros g []|].
  destruct (tc_group_eqb y x).
  - intros g Hg. right. exact Hg.
  - intros g [<-|Hg]; [left; reflexivity|right; apply IH; exact Hg].
Qed.

Lemma list_remove_others (group_name : string) (x : tc_group)
    (l : list tc_group) :
  g_name x = group_name ->
  filter (fun g => negb (String.eqb (g_name g) group_name)) (list_remove x l)
  = filter (fun g => negb (String.eqb (g_name g) group_name)) l.
Proof.
  intro Hx. induction l as [|y l IH]; cbn [list_remove]; [reflexivity|].
  destruct (tc_group_eqb y x) eqn:Heq.
  - apply tc_group_eqb_name in Heq. cbn [filter].
    rewrite Heq, Hx, String.eqb_refl. reflexivity.
  - cbn [filter]. rewrite IH. reflexivity.
Qed.

(** Whatever the list, the loop only takes groups of that name away. *)
Lemma remove_named_others (group_name : string) :
  forall fuel i l,
  incl (remove_named fuel i l group_name) l
  /\ filter (fun g => negb (String.eqb (g_name g) group_name))
            (remove_named fuel i l group_name)
     = filter (fun g => negb (String.eqb (g_name g) group_name)) l.
Proof.
  induction fuel as [|fuel IH]; intros i l; cbn [remove_named].
  - split; [intros g Hg; exact Hg|reflexivity].
  - destruct (nth_error l i) as [g|]; [|split; [intros x Hx; exact Hx|reflexivity]].
    destruct (String.eqb (g_name g) group_name) eqn:Hname.
    + apply String.eqb_eq in Hname.
      destruct (IH (S i) (list_remove g l)) as [Hincl Hfilter]. split.
      * intros x Hx. apply (list_remove_incl g l). apply Hincl. exact Hx.
      * rewrite Hfilter. apply list_remove_others. exact Hname.
    + apply IH.
Qed.

End Membership.

(** X1.  [remove_user_from_group] sends a PUT only after a GET that TeamCity
    answered with status 200 and a list of groups, and the list it puts back
    holds nothing that list did not hold and still holds, in order, every
    group of another name: membership in other groups is never lost. *)
Theorem removal_keeps_other_groups (E : Env) (self : Client.t)
    (user group : string) (s : tc_state E) (user' : string)
    (body : list tc_group) :
  In (Http (PUT_user_groups user' body))
     (trace_of (remove_user_from_group E self user group s)) ->
  user' = user
  /\ exists l,
       status_code (snd (tc_handle E s (GET_user_groups user))) = 200%Z
       /\ json (snd (tc_handle E s (GET_user_groups user))) = Groups l
       /\ incl body l
       /\ filter (fun g => negb (String.eqb (g_name g) group)) body
          = filter (fun g => negb (String.eqb (g_name g) group)) l.
Proof.
  unfold remove_user_from_group. rewrite bind_emit_l.
  cbn [trace_of fst snd]. rewrite bind_trace.
  destruct (get_user_groups_run E user s) as [Hstate Htrace].
  rewrite Htrace, Hstate.
  destruct (result_of (get_user_groups E user s)) as [[[l| | |]|msg]|e] eqn:Hres;
    cbn [user_groups_group];
    try (rewrite bind_raise_l; cbn; intros [H|[H|[]]]; discriminate);
    try (cbn; intros [H|[H|[]]]; discriminate).
  rewrite bind_ret_l, bind_http_l. cbn [trace_of fst snd app].
  intros [H|[H|[H|Hin]]]; try discriminate.
  - injection H as <- <-. split; [reflexivity|].
    destruct (get_user_groups_groups E user s l Hres) as [Hstatus Hjson].
    exists l. split; [exact Hstatus|]. split; [exact Hjson|].
    apply remove_named_others.
  - exfalso.
    destruct (negb (Z.eqb (status_code _) 200)); cbn in Hin; contradiction.
Qed.

(** carol leaves the group she is in. *)
(** dave is in three groups; removed from the second, he keeps the first
    and the third. *)
Lemma removal_keeps_other_groups_witness :
  In (Http (PUT_user_groups "dave" [Example.devs_group; Example.ops_group]))
     (trace_of (remove_user_from_group (RefServer.env Scenario.ad_rows)
                  Example.three_groups_client "dave" Scenario.admins
                  Example.three_groups_server))
  /\ json (snd (tc_handle (RefServer.env Scenario.ad_rows)
                  Example.three_groups_server (GET_user_groups "dave")))
     = Groups [Example.devs_group; Scenario.admins_group; Example.ops_group]
  /\ "dave" = "dave"
  /\ exists l,
       status_code (snd (tc_handle (RefServer.env Scenario.ad_rows)
                           Example.three_groups_server
                           (GET_user_groups "dave")))
       = 200%Z
       /\ json (snd (tc_handle (RefServer.env Scenario.ad_rows)
                       Example.three_groups_server (GET_user_groups "dave")))
          = Groups l
       /\ incl [Example.devs_group; Example.ops_group] l
       /\ filter (fun g => negb (String.eqb (g_name g) Scenario.admins))
            [Example.devs_group; Example.ops_group]
          = filter (fun g => negb (String.eqb (g_name g) Scenario.admins)) l.
Proof.
  assert (Hin : In (Http (PUT_user_groups "dave"
                            [Example.devs_group; Example.ops_group]))
     (trace_of (remove_user_from_group (RefServer.env Scenario.ad_rows)
                  Example.three_groups_client "dave" Scenario.admins
                  Example.three_groups_server)))
    by (vm_compute; tauto).
  split; [exact Hin|]. split; [reflexivity|].
  exact (removal_keeps_other_groups (RefServer.env Scenario.ad_rows)
           Example.three_groups_client "dave" Scenario.admins
           Example.three_groups_server
           "dave" [Example.devs_group; Example.ops_group] Hin).
Defined.

(** X2.  When the groups TeamCity lists for the user have distinct names,
    [remove_user_from_group] puts back exactly the groups of the other
    names, in their order. *)
Theorem removal_is_complete_on_distinct_names (E : Env) (self : Client.t)
    (user group : string) (s : tc_state E) (l : list tc_group) :
  result_of (get_user_groups E user s) = Ok (inl (Groups l)) ->
  NoDup (map g_name l) ->
  In (Http (PUT_user_groups user
              (filter (fun g => negb (String.eqb (g_name g) group)) l)))
     (trace_of (remove_user_from_group E self user group s)).
Proof.
  intros Hres Hnd.
  unfold remove_user_from_group. rewrite bind_emit_l.
  cbn [trace_of fst snd]. rewrite bind_trace, Hres.
  cbn [user_groups_group]. rewrite bind_ret_l, bind_http_l.
  cbn [trace_of fst snd]. rewrite (remove_named_filter group l Hnd).
  right. apply in_or_app. right. left. reflexivity.
Qed.

(** dave's three groups have distinct names; removed from the second, he
    is put back into the first and the third. *)
Lemma removal_is_complete_on_distinct_names_witness :
  result_of (get_user_groups (RefServer.env Scenario.ad_rows) "dave"
               Example.three_groups_server)
  = Ok (inl (Groups [Example.devs_group; Scenario.admins_group;
                     Example.ops_group]))
  /\ NoDup (map g_name [Example.devs_group; Scenario.admins_group;
                        Example.ops_group])
  /\ filter (fun g => negb (String.eqb (g_name g) Scenario.admins))
       [Example.devs_group; Scenario.admins_group; Example.ops_group]
     = [Example.devs_group; Example.ops_group]
  /\ In (Http (PUT_user_groups "dave"
                 (filter (fun g => negb (String.eqb (g_name g) Scenario.admins))
                         [Example.devs_group; Scenario.admins_group;
                          Example.ops_group])))
        (trace_of (remove_user_from_group (RefServer.env Scenario.ad_rows)
                     Example.three_groups_client "dave" Scenario.admins
                     Example.three_groups_server)).
Proof.
  assert (Hnd : NoDup (map g_name [Example.devs_group; Scenario.admins_group;
                                   Example.ops_group])).
  { repeat constructor; cbn; intuition discriminate. }
  split; [reflexivity|]. split; [exact Hnd|]. split; [reflexivity|].
  exact (removal_is_complete_on_distinct_names (RefServer.env Scenario.ad_rows)
           Example.three_groups_client "dave" Scenario.admins
           Example.three_groups_server
           [Example.devs_group; Scenario.admins_group; Example.ops_group]
           eq_refl Hnd).
Defined.

(** X3.  [add_user_to_group] sends a PUT only after a GET that TeamCity
    answered with status 200 and a list of groups, and only for a group the
    client sees; the list it puts back is that list followed by the first
    group the client holds under the name, so the user's other memberships
    are kept. *)
Theorem addition_appends_to_the_users_groups (E : Env) (self : Client.t)
    (user group : string) (s : tc_state E) (user' : string)
    (body : list tc_group) :
  In (Http (PUT_user_groups user' body))
     (trace_of (add_user_to_group E self user group s)) ->
  user' = user
  /\ exists l ge,
       status_code (snd (tc_handle E s (GET_user_groups user))) = 200%Z
       /\ json (snd (tc_handle E s (GET_user_groups user))) = Groups l
       /\ hd_error (named self group) = Some ge
       /\ body = l ++ [{| g_name := group; g_key := g_key ge;
                          g_href := g_href ge |}].
Proof.
  unfold add_user_to_group. rewrite bind_emit_l.
  cbn [trace_of fst snd]. rewrite bind_trace.
  destruct (get_user_groups_run E user s) as [Hstate Htrace].
  rewrite Htrace, Hstate.
  destruct (result_of (get_user_groups E user s)) as [user_groups|e] eqn:Hres.
  2:{ cbn. intros [H|[H|[]]]; discriminate. }
  unfold index.
  destruct (named self group) as [|ge rest] eqn:Hnamed.
  { cbn [map nth_error]. rewrite bind_raise_l. cbn.
    intros [H|[H|[]]]; discriminate. }
  cbn [map nth_error]. rewrite !bind_ret_l.
  destruct user_groups as [[l| | |]|msg]; cbn [user_groups_group];
    try (rewrite bind_raise_l; cbn; intros [H|[H|[]]]; discriminate).
  rewrite bind_ret_l, bind_http_l. cbn [trace_of fst snd app].
  intros [H|[H|[H|Hin]]]; try discriminate.
  - injection H as <- <-. split; [reflexivity|].
    destruct (get_user_groups_groups E user s l Hres) as [Hstatus Hjson].
    exists l, ge. repeat split; assumption.
  - exfalso.
    destruct (negb (Z.eqb (status_code _) 200)); cbn in Hin; contradiction.
Qed.

(** alice joins the group. *)
(** erin is in two groups; added to a third, she is put back into her two
    and the new one. *)
Lemma addition_appends_to_the_users_groups_witness :
  In (Http (PUT_user_groups "erin"
              [Example.devs_group; Example.ops_group; Scenario.admins_group]))
     (trace_of (add_user_to_group (RefServer.env Scenario.ad_rows)
                  Example.three_groups_client "erin" Scenario.admins
                  Example.three_groups_server))
  /\ json (snd (tc_handle (RefServer.env Scenario.ad_rows)
                  Example.three_groups_server (GET_user_groups "erin")))
     = Groups [Example.devs_group; Example.ops_group]
  /\ "erin" = "erin"
  /\ exists l ge,
       status_code (snd (tc_handle (RefServer.env Scenario.ad_rows)
                           Example.three_groups_server
                           (GET_user_groups "erin")))
       = 200%Z
       /\ json (snd (tc_handle (RefServer.env Scenario.ad_rows)
                       Example.three_groups_server (GET_user_groups "erin")))
          = Groups l
       /\ hd_error (named Example.three_groups_client Scenario.admins)
          = Some ge
       /\ [Example.devs_group; Example.ops_group; Scenario.admins_group]
          = l ++ [{| g_name := Scenario.admins; g_key := g_key ge;
                     g_href := g_href ge |}].
Proof.
  assert (Hin : In (Http (PUT_user_groups "erin"
                            [Example.devs_group; Example.ops_group;
                             Scenario.admins_group]))
     (trace_of (add_user_to_group (RefServer.env Scenario.ad_rows)
                  Example.three_groups_client "erin" Scenario.admins
                  Example.three_groups_server)))
    by (vm_compute; tauto).
  split; [exact Hin|]. split; [reflexivity|].
  exact (addition_appends_to_the_users_groups (RefServer.env Scenario.ad_rows)
           Example.three_groups_client "erin" Scenario.admins
           Example.three_groups_server
           "erin" [Example.devs_group; Example.ops_group;
                   Scenario.admins_group] Hin).
Defined.

(** ** Direct resolution (lines 162-177) *)

Section Direct.

Variable E : Env.

(** The loop over the member attribute ends with the answer to the last
    lookup that found an entry. *)
Lemma direct_members_last (self : LDAPConn.t) (attrlist : list string) :
  forall members acc s,
  state_of (direct_members E self attrlist members acc s) = s
  /\ exists gm,
       result_of (direct_members E self attrlist members acc s) = Ok gm
       /\ ((gm = acc
            /\ forall m, In m members ->
                 directory E m (direct_filter self) attrlist = [])
           \/ exists pre m post,
                members = pre ++ m :: post
                /\ gm = directory E m (direct_filter self) attrlist
                /\ gm <> []
                /\ forall m', In m' post ->
                     directory E m' (direct_filter self) attrlist = []).
Proof.
  induction members as [|m members IH]; intros acc s.
  - cbn. split; [reflexivity|]. exists acc. split; [reflexivity|].
    left. split; [reflexivity|intros m []].
  - cbn [direct_members]. fold (direct_filter self).
    rewrite bind_conn_search_l. cbn [state_of result_of fst snd].
    set (uid := directory E m (direct_filter self) attrlist).
    destruct (IH (if truthy uid then uid else acc) s) as [Hs [gm [Hres Hcases]]].
    split; [exact Hs|]. exists gm. split; [exact Hres|].
    destruct Hcases as [[Hgm Hnone] | [pre [m' [post [Hsplit [Hgm [Hne Hpost]]]]]]].
    + destruct uid as [|e uid'] eqn:Huid; cbn [truthy] in Hgm.
      * left. split; [exact Hgm|].
        intros x [<-|Hx]; [exact Huid|apply Hnone; exact Hx].
      * right. exists [], m, members. split; [reflexivity|].
        split; [rewrite Hgm; symmetry; exact Huid|].
        split; [rewrite Hgm; discriminate|exact Hnone].
    + right. exists (m :: pre), m', post.
      split; [rewrite Hsplit; reflexivity|]. repeat split; assumption.
Qed.

End Direct.

(** X4.  In direct resolution on the Active Directory flavor the mapping is
    filled from the answer to one lookup only: that of the last member of the
    group whose lookup found an entry.  It is empty when no lookup found
    one. *)
Theorem direct_resolution_keeps_one_lookup (E : Env) (self : LDAPConn.t)
    (group : string) (s : tc_state E) (d : dict string) :
  LDAPConn.active_directory self = true ->
  LDAPConn.recursive self = false ->
  result_of (get_group_members E self group s) = Ok (Some d) ->
  exists members ms,
    last_item (directory E (LDAPConn.base self)
                 (pct (LDAPConn.group_filter self) group)
                 [LDAPConn.group_member_attribute self]) = Some members
    /\ dict_get (list_attrs members) (LDAPConn.group_member_attribute self)
       = Some ms
    /\ ((d = []
         /\ forall m, In m ms ->
              directory E m (direct_filter self) [LDAPConn.uid_attribute self]
              = [])
        \/ exists pre m post,
             ms = pre ++ m :: post
             /\ directory E m (direct_filter self) [LDAPConn.uid_attribute self]
                <> []
             /\ (forall m', In m' post ->
                   directory E m' (direct_filter self)
                     [LDAPConn.uid_attribute self] = [])
             /\ forall k,
                  In k (keys d) <->
                  exists item name,
                    In item (directory E m (direct_filter self)
                               [LDAPConn.uid_attribute self])
                    /\ dict_get (str_attrs item) "sAMAccountName" = Some name
                    /\ k = normalized E self name).
Proof.
  intros Had Hrec Hres.
  unfold get_group_members in Hres.
  rewrite bind_conn_search_l in Hres. cbn [result_of snd] in Hres.
  set (result := directory E (LDAPConn.base self) _ _) in *.
  rewrite (truthy_last_item result), Had, Hrec in Hres.
  destruct (last_item result) as [members|]; cbn [negb] in Hres.
  2:{ rewrite bind_print_l in Hres. discriminate. }
  exists members.
  rewrite bind_result in Hres. unfold getitem in Hres.
  destruct (dict_get (list_attrs members) _) as [ms|].
  2:{ rewrite bind_raise_l in Hres. discriminate. }
  exists ms. split; [reflexivity|]. split; [reflexivity|].
  rewrite bind_ret_l in Hres.
  destruct (direct_members_last E self [LDAPConn.uid_attribute self] ms [] s)
    as [Hs [gm [Hgm Hcases]]].
  rewrite Hgm, Hs, bind_result in Hres.
  destruct (result_of (fill_listing E self gm [] s)) as [fl|e] eqn:Hfill;
    [|discriminate].
  cbn in Hres. injection Hres as <-.
  destruct Hcases as [[-> Hnone] | [pre [m [post [Hsplit [Heq [Hne Hpost]]]]]]].
  - left. cbn in Hfill. injection Hfill as <-. split; [reflexivity|exact Hnone].
  - right. exists pre, m, post. split; [exact Hsplit|].
    split; [rewrite <- Heq; exact Hne|]. split; [exact Hpost|].
    intro k. rewrite (fill_listing_keys E self gm [] s fl Hfill k), Heq.
    cbn [keys map In]. tauto.
Qed.

(** The group with alice and bob: the mapping is bob's lookup. *)
Lemma direct_resolution_keeps_one_lookup_witness :
  LDAPConn.active_directory (Scenario.ad_conn false true) = true
  /\ LDAPConn.recursive (Scenario.ad_conn false true) = false
  /\ result_of (get_group_members (RefServer.env Scenario.ad_rows)
                  (Scenario.ad_conn false true) Scenario.admins
                  Scenario.empty_server)
     = Ok (Some [("bob", Scenario.bob_dn)])
  /\ exists members ms,
       last_item (directory (RefServer.env Scenario.ad_rows)
                    (LDAPConn.base (Scenario.ad_conn false true))
                    (pct (LDAPConn.group_filter (Scenario.ad_conn false true))
                         Scenario.admins)
                    [LDAPConn.group_member_attribute (Scenario.ad_conn false true)])
       = Some members
       /\ dict_get (list_attrs members)
            (LDAPConn.group_member_attribute (Scenario.ad_conn false true))
          = Some ms.
Proof.
  split; [reflexivity|]. split; [reflexivity|]. split; [reflexivity|].
  destruct (direct_resolution_keeps_one_lookup (RefServer.env Scenario.ad_rows)
              (Scenario.ad_conn false true) Scenario.admins
              Scenario.empty_server [("bob", Scenario.bob_dn)]
              eq_refl eq_refl eq_refl) as [members [ms [Hlast [Hget _]]]].
  exists members, ms. split; assumption.
Defined.

(** ** The generic flavor (lines 191-193) *)

(** X5.  On the generic (non Active Directory) flavor [get_group_members]
    never returns a mapping.  With a group filter of one [%s] it makes its
    one search; for a group the directory does not have it prints that it
    skips the group and returns [None], and for a group the directory has
    it raises [AttributeError] (line 193 pops from the bool [search]
    returned) without another search. *)
Theorem generic_flavor_returns_no_mapping (E : Env) (self : LDAPConn.t)
    (group : string) (s : tc_state E) :
  LDAPConn.active_directory self = false ->
  plain_template (LDAPConn.group_filter self) = true ->
  (forall d,
     result_of (get_group_members E self group s) <> Ok (Some d))
  /\ state_of (get_group_members E self group s) = s
  /\ match directory E (LDAPConn.base self)
             (pct (LDAPConn.group_filter self) group)
             [LDAPConn.group_member_attribute self] with
     | [] =>
         trace_of (get_group_members E self group s)
         = [LdapSearch (LDAPConn.base self)
              (pct (LDAPConn.group_filter self) group)
              [LDAPConn.group_member_attribute self];
            Print (">>> Unable to find group " +++ group
                   +++ ", skipping group")]
         /\ result_of (get_group_members E self group s) = Ok None
     | _ :: _ =>
         trace_of (get_group_members E self group s)
         = [LdapSearch (LDAPConn.base self)
              (pct (LDAPConn.group_filter self) group)
              [LDAPConn.group_member_attribute self]]
         /\ result_of (get_group_members E self group s)
            = Raise AttributeError
     end.
Proof.
  intros Hgeneric _.
  rewrite (get_group_members_generic E self group s Hgeneric).
  cbn [result_of state_of trace_of fst snd].
  destruct (directory E _ _ _) as [|found rest]; cbn [truthy].
  - split; [discriminate|]. split; [reflexivity|].
    split; reflexivity.
  - split; [discriminate|]. split; [reflexivity|].
    split; reflexivity.
Qed.

(** The posixGroup [Devs.Zabbix.Team] is there, and resolving it raises. *)
Lemma generic_flavor_returns_no_mapping_witness :
  LDAPConn.active_directory Scenario.openldap_conn = false
  /\ plain_template (LDAPConn.group_filter Scenario.openldap_conn) = true
  /\ directory (RefServer.env Scenario.openldap_rows) Scenario.base
       "(&(objectClass=posixGroup)(cn=Devs.Zabbix.Team))" ["memberUid"]
     <> []
  /\ result_of (get_group_members (RefServer.env Scenario.openldap_rows)
                  Scenario.openldap_conn Scenario.devs Scenario.empty_server)
     = Raise AttributeError.
Proof.
  split; [reflexivity|]. split; [reflexivity|]. split; [discriminate|].
  exact (proj2 (proj2 (proj2 (generic_flavor_returns_no_mapping
                                (RefServer.env Scenario.openldap_rows)
                                Scenario.openldap_conn Scenario.devs
                                Scenario.empty_server eq_refl eq_refl)))).
Defined.

Lemma append_nil_r (s : string) : s +++ "" = s.
Proof. induction s as [|c s IH]; cbn; [reflexivity|rewrite IH; reflexivity]. Qed.

(** ** What [start_sync] keeps and touches (lines 413-449) *)

Section Run.

Variable E : Env.

Lemma ensure_group_fields (self : Client.t) (group : string) s self1 :
  result_of (ensure_group E self group s) = Ok self1 ->
  Client.tc_users self1 = Client.tc_users self
  /\ Client.ldap_groups self1 = Client.ldap_groups self
  /\ Client.ldap_object self1 = Client.ldap_object self.
Proof.
  unfold ensure_group.
  destruct (negb (in_list group (map g_name (Client.tc_groups self)))).
  - rewrite bind_result.
    destruct (create_group_calls E self group s) as [_ Hr]. rewrite Hr.
    rewrite bind_result.
    destruct (result_of (get_tc_groups E _)) as [refreshed|e]; [|discriminate].
    cbn. intro H. injection H as <-. repeat split; reflexivity.
  - cbn. intro H. injection H as <-. repeat split; reflexivity.
Qed.

Lemma sync_group_fields (self : Client.t) (group : string) s self1 :
  result_of (sync_group E self group s) = Ok self1 ->
  Client.tc_users self1 = Client.tc_users self
  /\ Client.ldap_groups self1 = Client.ldap_groups self
  /\ Client.ldap_object self1 = Client.ldap_object self.
Proof.
  unfold sync_group. rewrite bind_result.
  destruct (result_of (get_group_members E _ group s)) as [lgu|e]; [|discriminate].
  rewrite bind_result.
  destruct (result_of (ensure_group E self group _)) as [self'|e] eqn:Hens;
    [|discriminate].
  destruct lgu as [d|]; [|discriminate].
  rewrite bind_result.
  destruct (result_of (create_users E self' _ _)); [|discriminate].
  rewrite bind_result.
  destruct (result_of (sync_members E self' group d _)); [|discriminate].
  cbn. intro H. injection H as <-.
  exact (ensure_group_fields _ _ _ _ Hens).
Qed.

Lemma sync_groups_fields (groups : list string) :
  forall (self : Client.t) s self1,
  result_of (sync_groups E self groups s) = Ok self1 ->
  Client.tc_users self1 = Client.tc_users self
  /\ Client.ldap_groups self1 = Client.ldap_groups self
  /\ Client.ldap_object self1 = Client.ldap_object self.
Proof.
  induction groups as [|group rest IH]; intros self s self1.
  - cbn. intro H. injection H as <-. repeat split; reflexivity.
  - cbn [sync_groups]. rewrite bind_result.
    destruct (result_of (sync_group E self group s)) as [self'|e] eqn:Hpass;
      [|discriminate].
    intro Hrest. apply IH in Hrest.
    destruct (sync_group_fields _ _ _ _ Hpass) as [Hu [Hg Ho]].
    destruct Hrest as [Hu' [Hg' Ho']].
    rewrite Hu', Hg', Ho'. repeat split; assumption.
Qed.

Lemma sync_groups_touch (groups : list string) :
  forall (self : Client.t) s c g,
  In c (calls_of (trace_of (sync_groups E self groups s))) ->
  group_of c = Some g -> In g groups.
Proof.
  induction groups as [|group rest IH]; intros self s c g Hin Hg.
  - contradiction.
  - cbn [sync_groups] in Hin. rewrite bind_trace, calls_of_app in Hin.
    apply in_app_or in Hin. destruct Hin as [Hin|Hin].
    + left.
      destruct (sync_group_calls E self group s)
        as [desired [observed [left_ [Hplan _]]]].
      assert (Hin' : In c (Reconciler.group_plan self group desired observed))
        by (rewrite Hplan; apply in_or_app; left; exact Hin).
      apply group_plan_In in Hin'.
      destruct c; cbn in Hg; try discriminate; injection Hg as <-;
        symmetry; tauto.
    + right. destruct (result_of (sync_group E self group s)) as [self1|e];
        [|contradiction].
      exact (IH _ _ c g Hin Hg).
Qed.

End Run.

(** X8.  [start_sync] never updates what the client knows of TeamCity's
    users: the client it returns holds the same [tc_users] (and the same
    configured groups and directory connection) as the one it started with,
    so a user created during one group's pass is still unknown to the
    client in the passes after it. *)
Theorem start_sync_keeps_the_known_users (E : Env) (self : Client.t)
    (s : tc_state E) (self1 : Client.t) :
  result_of (start_sync E self s) = Ok self1 ->
  Client.tc_users self1 = Client.tc_users self
  /\ Client.ldap_groups self1 = Client.ldap_groups self
  /\ Client.ldap_object self1 = Client.ldap_object self.
Proof. unfold start_sync. apply sync_groups_fields. Qed.

(** A run against a TeamCity without users creates alice and bob, and the
    client it returns still knows no user. *)
Lemma start_sync_keeps_the_known_users_witness :
  calls_of (trace_of (start_sync (RefServer.env Scenario.ad_rows)
                        Example.fresh_client Scenario.empty_server))
  = [CreateGroup Scenario.admins; CreateUser "alice"; CreateUser "bob";
     GetUsersFromGroup Scenario.admins;
     AddUserToGroup "alice" Scenario.admins;
     AddUserToGroup "bob" Scenario.admins]
  /\ keys (RefServer.users
             (state_of (start_sync (RefServer.env Scenario.ad_rows)
                          Example.fresh_client Scenario.empty_server)))
     = ["alice"; "bob"]
  /\ result_of (start_sync (RefServer.env Scenario.ad_rows)
                  Example.fresh_client Scenario.empty_server)
     = Ok (Client.with_tc_groups Example.fresh_client [Scenario.admins_group])
  /\ Client.tc_users
       (Client.with_tc_groups Example.fresh_client [Scenario.admins_group])
     = Client.tc_users Example.fresh_client
  /\ Client.ldap_groups
       (Client.with_tc_groups Example.fresh_client [Scenario.admins_group])
     = Client.ldap_groups Example.fresh_client
  /\ Client.ldap_object
       (Client.with_tc_groups Example.fresh_client [Scenario.admins_group])
     = Client.ldap_object Example.fresh_client.
Proof.
  assert (Hrun : result_of (start_sync (RefServer.env Scenario.ad_rows)
                              Example.fresh_client Scenario.empty_server)
                 = Ok (Client.with_tc_groups Example.fresh_client
                         [Scenario.admins_group]))
    by (vm_compute; reflexivity).
  split; [vm_compute; reflexivity|]. split; [vm_compute; reflexivity|].
  split; [exact Hrun|].
  exact (start_sync_keeps_the_known_users (RefServer.env Scenario.ad_rows)
           Example.fresh_client Scenario.empty_server
           (Client.with_tc_groups Example.fresh_client [Scenario.admins_group])
           Hrun).
Defined.

(** X9.  Every client call [start_sync] makes about a group (create the
    group, fetch its members, add to it, remove from it) is about one of the
    configured groups: the run never changes the membership of a TeamCity
    group that is not configured. *)
Theorem start_sync_touches_configured_groups_only (E : Env)
    (self : Client.t) (s : tc_state E) (c : call) (g : string) :
  In c (calls_of (trace_of (start_sync E self s))) ->
  group_of c = Some g ->
  In g (Client.ldap_groups self).
Proof. unfold start_sync. apply sync_groups_touch. Qed.

Lemma start_sync_touches_configured_groups_only_witness :
  In (RemoveUserFromGroup "carol" Scenario.admins)
     (calls_of (trace_of (start_sync (RefServer.env Scenario.ad_rows)
                            Scenario.client Scenario.bob_carol_server)))
  /\ group_of (RemoveUserFromGroup "carol" Scenario.admins) = Some Scenario.admins
  /\ In Scenario.admins (Client.ldap_groups Scenario.client).
Proof.
  assert (Hin : In (RemoveUserFromGroup "carol" Scenario.admins)
     (calls_of (trace_of (start_sync (RefServer.env Scenario.ad_rows)
                            Scenario.client Scenario.bob_carol_server))))
    by (vm_compute; tauto).
  split; [exact Hin|]. split; [reflexivity|].
  exact (start_sync_touches_configured_groups_only
           (RefServer.env Scenario.ad_rows) Scenario.client
           Scenario.bob_carol_server _ _ Hin eq_refl).
Defined.

(** ** What the run prints (lines 125, 220, 237, 474) *)

Section Output.

Variable E : Env.
Variable P : string -> Prop.

Lemma prints_only_ret {A} (a : A) : prints_only E P (ret a).
Proof. intros s line []. Qed.

Lemma prints_only_raise {A} (e : exn) : prints_only E P (@raise E A e).
Proof. intros s line []. Qed.

Lemma prints_only_bind {A B} (m : M E A) (f : A -> M E B) :
  prints_only E P m -> (forall a, prints_only E P (f a)) ->
  prints_only E P (bind m f).
Proof.
  intros Hm Hf s line. rewrite bind_trace, printed_app. intro Hin.
  apply in_app_or in Hin. destruct Hin as [Hin|Hin]; [exact (Hm s line Hin)|].
  destruct (result_of (m s)) as [a|e]; [|contradiction].
  exact (Hf a _ line Hin).
Qed.

Lemma prints_only_http (r : request) : prints_only E P (http E r).
Proof. intros s line. unfold http. destruct (tc_handle E s r). intros []. Qed.

Lemma prints_only_call (c : call) : prints_only E P (emit E (Call c)).
Proof. intros s line []. Qed.

Lemma prints_only_conn_search (b f : string) (a : list string) :
  prints_only E P (conn_search E b f a).
Proof. intros s line []. Qed.

Lemma prints_only_getitem {V} (d : dict V) (k : string) :
  prints_only E P (getitem E d k).
Proof.
  unfold getitem.
  destruct (dict_get d k); [apply prints_only_ret|apply prints_only_raise].
Qed.

Lemma prints_only_index {A} (l : list A) (i : nat) :
  prints_only E P (index E l i).
Proof.
  unfold index.
  destruct (nth_error l i); [apply prints_only_ret|apply prints_only_raise].
Qed.

Lemma prints_only_print (line : string) :
  P line -> prints_only E P (print E line).
Proof. intros Hline s line' [<-|[]]. exact Hline. Qed.

Lemma prints_only_for {A} (l : list A) (body : A -> M E unit) :
  (forall x, prints_only E P (body x)) -> prints_only E P (for_ E l body).
Proof.
  intro Hbody. induction l as [|x l IH]; cbn [for_].
  - apply prints_only_ret.
  - apply prints_only_bind; [apply Hbody|intro; exact IH].
Qed.

End Output.

Create HintDb output.

#[local] Hint Resolve prints_only_ret prints_only_raise prints_only_http
  prints_only_call prints_only_conn_search prints_only_getitem
  prints_only_index prints_only_for : output.

(** Closes a goal [prints_only E P m] once the lines [m] prints are known to
    satisfy [P]. *)
Ltac output :=
  repeat first
    [ progress intros
    | solve [auto with output]
    | apply prints_only_for
    | apply prints_only_print
    | apply prints_only_bind
    | match goal with
      | |- prints_only _ _ (if ?b then _ else _) => destruct b
      | |- prints_only _ _ (match ?x with _ => _ end) => destruct x
      | |- prints_only _ _ (let (_, _) := ?x in _) => destruct x
      end ].

Section OutputOfTheScript.

Variable E : Env.

Lemma not_progress_line_success : ~ progress_line "HOOOORAY Sync complete".
Proof. intros [rest H]. discriminate. Qed.

Lemma direct_members_prints (P : string -> Prop) (self : LDAPConn.t)
    attrlist members acc :
  prints_only E P (direct_members E self attrlist members acc).
Proof.
  revert acc. induction members as [|m members IH]; intro acc;
    cbn [direct_members]; output.
Qed.

Lemma fill_listing_prints (P : string -> Prop) (self : LDAPConn.t)
    group_members acc :
  prints_only E P (fill_listing E self group_members acc).
Proof.
  revert acc. induction group_members as [|i l IH]; intro acc;
    cbn [fill_listing]; output.
Qed.

Lemma get_group_members_prints (self : LDAPConn.t) (group : string) :
  prints_only E progress_line (get_group_members E self group).
Proof.
  pose proof (direct_members_prints progress_line self).
  pose proof (fill_listing_prints progress_line self).
  unfold get_group_members. output.
  eexists. reflexivity.
Qed.

Lemma wildcard_names_prints (P : string -> Prop) (result : list entry) acc :
  prints_only E P (wildcard_names E result acc).
Proof.
  revert acc. induction result as [|g l IH]; intro acc;
    cbn [wildcard_names]; output.
Qed.

Lemma get_groups_with_wildcard_prints (self : LDAPConn.t) (p : string) :
  prints_only E progress_line (get_groups_with_wildcard E self p).
Proof.
  pose proof (wildcard_names_prints progress_line).
  unfold get_groups_with_wildcard. output; eexists; reflexivity.
Qed.

Lemma expand_groups_prints (self : LDAPConn.t) (groups acc : list string) :
  prints_only E progress_line (expand_groups E self groups acc).
Proof.
  pose proof (get_groups_with_wildcard_prints self).
  revert acc. induction groups as [|g l IH]; intro acc;
    cbn [expand_groups]; output.
Qed.

Lemma set_groups_with_wildcard_prints (config : Conf.t) (self : LDAPConn.t) :
  prints_only E progress_line (set_groups_with_wildcard E config self).
Proof.
  pose proof (expand_groups_prints self).
  unfold set_groups_with_wildcard. output.
Qed.

Lemma get_tc_groups_prints (P : string -> Prop) :
  prints_only E P (get_tc_groups E).
Proof. unfold get_tc_groups, json_group. output. Qed.

Lemma client_init_prints (P : string -> Prop) (config : Conf.t)
    (ldap_object : LDAPConn.t) :
  prints_only E P (client_init E config ldap_object).
Proof.
  pose proof (get_tc_groups_prints P).
  unfold client_init, get_tc_users, json_user. output.
Qed.

Lemma get_user_groups_prints (P : string -> Prop) (user : string) :
  prints_only E P (get_user_groups E user).
Proof. unfold get_user_groups. output. Qed.

Lemma sync_members_prints (P : string -> Prop) (self : Client.t)
    (group : string) (d : dict string) :
  prints_only E P (sync_members E self group d).
Proof.
  pose proof (get_user_groups_prints P).
  unfold sync_members, get_users_from_group, add_users, remove_users,
    add_user_to_group, remove_user_from_group, json_users_user,
    user_groups_group, str_plus_bytes.
  output.
Qed.

Lemma create_users_prints (P : string -> Prop) (self : Client.t)
    (members : list (string * string)) :
  prints_only E P (create_users E self members).
Proof.
  unfold create_users, create_unknown, get_user_attributes, create_user.
  output.
Qed.

Lemma ensure_group_prints (P : string -> Prop) (self : Client.t)
    (group : string) :
  prints_only E P (ensure_group E self group).
Proof.
  pose proof (get_tc_groups_prints P).
  unfold ensure_group, create_group. output.
Qed.

Lemma sync_groups_prints (groups : list string) :
  forall self, prints_only E progress_line (sync_groups E self groups).
Proof.
  induction groups as [|g l IH]; intro self; cbn [sync_groups].
  - apply prints_only_ret.
  - apply prints_only_bind; [|intro; apply IH].
    pose proof (get_group_members_prints (Client.ldap_object self)).
    pose proof (ensure_group_prints progress_line).
    pose proof (create_users_prints progress_line).
    pose proof (sync_members_prints progress_line).
    unfold sync_group. output.
Qed.

End OutputOfTheScript.

(** X10.  [main] prints [HOOOORAY Sync complete] only after
    [tc.start_sync()] of line 472 returned, that is after the wildcard
    expansion (if asked for), the client's constructor and the
    synchronisation all returned: after a run in which one of them raised (a
    group the directory does not have, a refused request, wildcard patterns
    that match nothing) the line is not on the output. *)
Theorem success_line_only_after_sync_returned (E : Env) (args : Args.t)
    (config : Conf.t) (s : tc_state E) :
  In "HOOOORAY Sync complete" (printed (trace_of (main E args config s))) ->
  exists config1 tc tc',
    result_of ((if Args.wildcard_search args
                then set_groups_with_wildcard E config
                       (LDAPConn.init args config)
                else ret config) s) = Ok config1
    /\ result_of
         (client_init E config1 (LDAPConn.init args config)
            (state_of ((if Args.wildcard_search args
                        then set_groups_with_wildcard E config
                               (LDAPConn.init args config)
                        else ret config) s))) = Ok tc
    /\ result_of
         (start_sync E tc
            (state_of
               (client_init E config1 (LDAPConn.init args config)
                  (state_of ((if Args.wildcard_search args
                              then set_groups_with_wildcard E config
                                     (LDAPConn.init args config)
                              else ret config) s))))) = Ok tc'.
Proof.
  unfold main.
  set (conn := LDAPConn.init args config).
  set (expand := if Args.wildcard_search args
                 then set_groups_with_wildcard E config conn
                 else ret config).
  assert (Hexpand : prints_only E progress_line expand).
  { subst expand. destruct (Args.wildcard_search args).
    - apply set_groups_with_wildcard_prints.
    - apply prints_only_ret. }
  assert (Hno : forall t,
    (forall line, In line (printed t) -> progress_line line) ->
    ~ In "HOOOORAY Sync complete" (printed t)).
  { intros t Ht Hin. exact (not_progress_line_success (Ht _ Hin)). }
  rewrite bind_trace, printed_app.
  destruct (result_of (expand s)) as [config1|e] eqn:Hcfg.
  2:{ intro Hin. exfalso.
      rewrite app_nil_r in Hin. exact (Hno _ (Hexpand s) Hin). }
  rewrite bind_trace, printed_app.
  set (s1 := state_of (expand s)).
  destruct (result_of (client_init E config1 conn s1)) as [tc|e] eqn:Hinit.
  2:{ intro Hin. exfalso.
      rewrite app_nil_r in Hin. apply in_app_or in Hin.
      destruct Hin as [Hin|Hin]; [exact (Hno _ (Hexpand s) Hin)|].
      exact (Hno _ (client_init_prints E progress_line config1 conn s1) Hin). }
  rewrite bind_trace, printed_app.
  set (s2 := state_of (client_init E config1 conn s1)).
  destruct (result_of (start_sync E tc s2)) as [tc'|e] eqn:Hrun.
  - intros _. exists config1, tc, tc'.
    split; [reflexivity|]. split; [exact Hinit|exact Hrun].
  - intro Hin. exfalso.
    rewrite app_nil_r in Hin.
    apply in_app_or in Hin. destruct Hin as [Hin|Hin];
      [exact (Hno _ (Hexpand s) Hin)|].
    apply in_app_or in Hin. destruct Hin as [Hin|Hin];
      [exact (Hno _ (client_init_prints E progress_line config1 conn s1) Hin)|].
    exact (Hno _ (sync_groups_prints E (Client.ldap_groups tc) tc s2) Hin).
Qed.

(** The run that adds alice and removes carol prints the line. *)
Lemma success_line_only_after_sync_returned_witness :
  printed (trace_of (main (RefServer.env Scenario.ad_rows)
                       (Scenario.args false true true)
                       (Scenario.conf Scenario.ad [Scenario.admins])
                       Scenario.bob_carol_server))
  = ["HOOOORAY Sync complete"]
  /\ exists config1 tc tc',
       result_of (@ret (RefServer.env Scenario.ad_rows) _
                    (Scenario.conf Scenario.ad [Scenario.admins])
                    Scenario.bob_carol_server) = Ok config1
       /\ result_of
            (client_init (RefServer.env Scenario.ad_rows) config1
               (Scenario.ad_conn true true) Scenario.bob_carol_server)
          = Ok tc
       /\ result_of
            (start_sync (RefServer.env Scenario.ad_rows) tc
               (state_of
                  (client_init (RefServer.env Scenario.ad_rows) config1
                     (Scenario.ad_conn true true) Scenario.bob_carol_server)))
          = Ok tc'.
Proof.
  assert (Hline : printed (trace_of (main (RefServer.env Scenario.ad_rows)
                       (Scenario.args false true true)
                       (Scenario.conf Scenario.ad [Scenario.admins])
                       Scenario.bob_carol_server))
                  = ["HOOOORAY Sync complete"])
    by (vm_compute; reflexivity).
  split; [exact Hline|].
  apply (success_line_only_after_sync_returned
           (RefServer.env Scenario.ad_rows) (Scenario.args false true true)
           (Scenario.conf Scenario.ad [Scenario.admins])
           Scenario.bob_carol_server).
  rewrite Hline. left. reflexivity.
Defined.

(** ** Two entries with one username (lines 180-187) *)

Section LaterWins.

Variable E : Env.

(** Entries that normalize to other usernames leave a key as it is. *)
Lemma fill_listing_untouched (self : LDAPConn.t) (k : string)
    (group_members : list entry) :
  forall acc s d,
  result_of (fill_listing E self group_members acc s) = Ok d ->
  (forall item name, In item group_members ->
     dict_get (str_attrs item) "sAMAccountName" = Some name ->
     normalized E self name <> k) ->
  dict_get d k = dict_get acc k.
Proof.
  induction group_members as [|item rest IH]; intros acc s d Hres Hother.
  - cbn in Hres. injection Hres as <-. reflexivity.
  - cbn [fill_listing] in Hres. unfold getitem in Hres.
    destruct (dict_get (str_attrs item) "sAMAccountName") as [name|] eqn:Hname.
    2:{ rewrite bind_raise_l in Hres. discriminate. }
    rewrite bind_ret_l in Hres.
    rewrite (IH _ _ _ Hres).
    + fold (normalized E self name). rewrite dict_get_set.
      destruct (String.eqb (normalized E self name) k) eqn:Heq; [|reflexivity].
      apply String.eqb_eq in Heq. exfalso.
      exact (Hother item name (or_introl eq_refl) Hname Heq).
    + intros item' name' Hin. apply Hother. right. exact Hin.
Qed.

Lemma fill_listing_later_wins (self : LDAPConn.t) (item : entry)
    (name : string) (post : list entry) :
  dict_get (str_attrs item) "sAMAccountName" = Some name ->
  (forall item' name', In item' post ->
     dict_get (str_attrs item') "sAMAccountName" = Some name' ->
     normalized E self name' <> normalized E self name) ->
  forall pre acc s d,
  result_of (fill_listing E self (pre ++ item :: post) acc s) = Ok d ->
  dict_get d (normalized E self name) = Some (dn item).
Proof.
  intros Hname Hpost. induction pre as [|x pre IH]; intros acc s d Hres.
  - cbn [app fill_listing] in Hres. unfold getitem in Hres.
    rewrite Hname, bind_ret_l in Hres. fold (normalized E self name) in Hres.
    rewrite (fill_listing_untouched self _ post _ _ _ Hres Hpost).
    rewrite dict_get_set, String.eqb_refl. reflexivity.
  - cbn [app fill_listing] in Hres. unfold getitem in Hres.
    destruct (dict_get (str_attrs x) "sAMAccountName") as [n|].
    2:{ rewrite bind_raise_l in Hres. discriminate. }
    rewrite bind_ret_l in Hres. exact (IH _ _ _ Hres).
Qed.

End LaterWins.

(** X11.  When the directory answers recursive resolution with several
    entries that normalize to the same username, the mapping holds one key
    for them, with the DN of the last such entry. *)
Theorem later_entry_wins_its_username (E : Env) (self : LDAPConn.t)
    (group : string) (s : tc_state E) (members item : entry)
    (pre post : list entry) (name : string) (d : dict string) :
  LDAPConn.active_directory self = true ->
  LDAPConn.recursive self = true ->
  last_item (directory E (LDAPConn.base self)
               (pct (LDAPConn.group_filter self) group)
               [LDAPConn.group_member_attribute self]) = Some members ->
  directory E (LDAPConn.base self) (member_of_filter self (dn members))
    [LDAPConn.uid_attribute self] = pre ++ item :: post ->
  dict_get (str_attrs item) "sAMAccountName" = Some name ->
  (forall item' name', In item' post ->
     dict_get (str_attrs item') "sAMAccountName" = Some name' ->
     normalized E self name' <> normalized E self name) ->
  result_of (get_group_members E self group s) = Ok (Some d) ->
  dict_get d (normalized E self name) = Some (dn item)
  /\ NoDup (keys d).
Proof.
  intros Had Hrec Hlast Hanswer Hname Hpost Hres.
  split; [|exact (get_group_members_keys_NoDup E self group s d Hres)].
  rewrite (get_group_members_recursive E self group s Had Hrec), Hlast in Hres.
  cbn [result_of snd] in Hres. rewrite Hanswer in Hres.
  destruct (result_of (fill_listing E self (pre ++ item :: post) [] s))
    as [fl|e] eqn:Hfill; [|discriminate].
  injection Hres as <-.
  exact (fill_listing_later_wins E self item name post Hname Hpost pre [] s fl
           Hfill).
Qed.

(** Two accounts, [Alice] and [ALICE], with [--lowercase]: the second one's
    DN is kept under [alice]. *)
Lemma later_entry_wins_its_username_witness :
  result_of (get_group_members (RefServer.env Example.twins_rows)
               (Scenario.ad_conn true true) Example.twins Scenario.empty_server)
  = Ok (Some [("alice", Example.alice2_dn)])
  /\ dict_get [("alice", Example.alice2_dn)]
       (normalized (RefServer.env Example.twins_rows)
          (Scenario.ad_conn true true) "ALICE")
     = Some (dn (Scenario.user_entry Example.alice2_dn "ALICE"))
  /\ NoDup (keys [("alice", Example.alice2_dn)]).
Proof.
  split; [reflexivity|].
  refine (later_entry_wins_its_username (RefServer.env Example.twins_rows)
            (Scenario.ad_conn true true) Example.twins Scenario.empty_server
            (Scenario.group_entry "member" Example.twins_dn Example.twins [])
            (Scenario.user_entry Example.alice2_dn "ALICE")
            [Scenario.user_entry Scenario.alice_dn "Alice"] [] "ALICE"
            [("alice", Example.alice2_dn)]
            eq_refl eq_refl eq_refl eq_refl eq_refl _ eq_refl).
  intros item' name' [].
Defined.

(** ** The names a wildcard pattern expands to (lines 219-239) *)

Section WildcardNames.

Variable E : Env.

Lemma wildcard_names_all (result : list entry) :
  forall acc names s,
  Forall2 (fun e n => dict_get (str_attrs e) "cn" = Some n) result names ->
  wildcard_names E result acc s = (s, [], Ok (acc ++ names)).
Proof.
  induction result as [|e result IH]; intros acc names s Hall.
  - inversion Hall; subst. cbn. rewrite app_nil_r. reflexivity.
  - inversion Hall as [|? n ? names' Hcn Hrest]; subst.
    cbn [wildcard_names]. unfold getitem. rewrite Hcn, bind_ret_l.
    rewrite (IH _ _ _ Hrest), <- app_assoc. reflexivity.
Qed.

Lemma wildcard_names_missing (result : list entry) :
  forall acc s,
  (exists e, In e result /\ dict_get (str_attrs e) "cn" = None) ->
  result_of (wildcard_names E result acc s) = Raise KeyError.
Proof.
  induction result as [|e result IH]; intros acc s [e' [Hin Hnone]];
    [contradiction|].
  cbn [wildcard_names]. unfold getitem.
  destruct (dict_get (str_attrs e) "cn") as [n|] eqn:Hcn.
  - rewrite bind_ret_l. apply IH. exists e'. split; [|exact Hnone].
    destruct Hin as [<-|Hin]; [congruence|exact Hin].
  - rewrite bind_raise_l. reflexivity.
Qed.

End WildcardNames.

(** X12.  With a group filter of one [%s], [get_groups_with_wildcard]
    returns the [cn] of every entry the directory answers the pattern with,
    one name per entry and in the directory's order (nothing is dropped or
    merged); an entry without [cn] ends it in [KeyError]. *)
Theorem wildcard_lists_the_cn_of_every_entry (E : Env) (self : LDAPConn.t)
    (groups_wildcard : string) (s : tc_state E) :
  plain_template (LDAPConn.group_filter self) = true ->
  (forall names,
     Forall2 (fun e n => dict_get (str_attrs e) "cn" = Some n)
       (directory E (LDAPConn.base self)
          (pct (LDAPConn.group_filter self) groups_wildcard) ["cn"])
       names ->
     result_of (get_groups_with_wildcard E self groups_wildcard s) = Ok names)
  /\ ((exists e,
         In e (directory E (LDAPConn.base self)
                 (pct (LDAPConn.group_filter self) groups_wildcard) ["cn"])
         /\ dict_get (str_attrs e) "cn" = None) ->
      result_of (get_groups_with_wildcard E self groups_wildcard s)
      = Raise KeyError).
Proof.
  intros _. unfold get_groups_with_wildcard.
  rewrite bind_print_l, bind_conn_search_l. cbn [result_of snd].
  set (result := directory E (LDAPConn.base self) _ _).
  rewrite bind_result. split.
  - intros names Hall.
    destruct result as [|e result'] eqn:Hresult.
    + inversion Hall; subst. reflexivity.
    + cbn [truthy]. rewrite (wildcard_names_all E _ [] names s Hall).
      cbn [result_of state_of fst snd app]. rewrite bind_result.
      destruct names; reflexivity.
  - intros Hmissing.
    destruct result as [|e result'] eqn:Hresult.
    + destruct Hmissing as [e [[] _]].
    + cbn [truthy]. rewrite (wildcard_names_missing E _ [] s Hmissing).
      reflexivity.
Qed.

(** The pattern [R.*.Zabbix.*] finds one group, whose [cn] is returned. *)
Lemma wildcard_lists_the_cn_of_every_entry_witness :
  plain_template (LDAPConn.group_filter (Scenario.ad_conn false true)) = true
  /\ directory (RefServer.env Scenario.wild_rows) Scenario.base
       "(&(objectClass=group)(name=R.*.Zabbix.*))" ["cn"]
     = [Scenario.group_entry "member" Scenario.admins_dn Scenario.admins
          [Scenario.alice_dn; Scenario.bob_dn]]
  /\ result_of (get_groups_with_wildcard (RefServer.env Scenario.wild_rows)
                  (Scenario.ad_conn false true) "R.*.Zabbix.*"
                  Scenario.empty_server)
     = Ok [Scenario.admins].
Proof.
  split; [reflexivity|]. split; [reflexivity|].
  apply (proj1 (wildcard_lists_the_cn_of_every_entry
                  (RefServer.env Scenario.wild_rows)
                  (Scenario.ad_conn false true) "R.*.Zabbix.*"
                  Scenario.empty_server eq_refl)).
  repeat constructor.
Defined.

(** ** The key of a created group (lines 400-403) *)

Section GroupKey.

Lemma slice_to_app (p x : string) :
  slice_to (String.length p) (p +++ x) = p.
Proof.
  unfold slice_to. induction p as [|c p IH]; cbn.
  - destruct x; reflexivity.
  - rewrite IH. reflexivity.
Qed.

Lemma slice_to_length (n : nat) (s : string) :
  String.length (slice_to n s) = Nat.min n (String.length s).
Proof.
  unfold slice_to. revert n. induction s as [|c s IH]; intro n.
  - destruct n; reflexivity.
  - destruct n; [reflexivity|]. cbn. rewrite IH. reflexivity.
Qed.

Lemma slice_to_prefix (n : nat) (s : string) :
  String.prefix (slice_to n s) s = true.
Proof.
  unfold slice_to. revert n. induction s as [|c s IH]; intro n.
  - destruct n; reflexivity.
  - destruct n; [reflexivity|]. cbn.
    destruct (ascii_dec c c); [apply IH|contradiction].
Qed.

End GroupKey.

(** X13.  The key [create_group] sends for a group with an ASCII name is
    the first 16 characters of the name (the whole name when it is shorter),
    so two such groups whose names agree on their first 16 characters are
    sent with the same key. *)
Theorem group_key_is_the_first_16_characters (E : Env) (self : Client.t)
    (group_name : string) (s : tc_state E) :
  ascii_only group_name = true ->
  exists key,
    trace_of (create_group E self group_name s)
    = [Call (CreateGroup group_name); Http (POST_userGroups group_name key)]
    /\ String.prefix key group_name = true
    /\ String.length key = Nat.min 16 (String.length group_name)
    /\ forall p rest,
         group_name = p +++ rest -> String.length p = 16 -> key = p.
Proof.
  intros _. exists (slice_to 16 group_name). split.
  - unfold create_group. rewrite bind_emit_l, bind_http_l. reflexivity.
  - split; [apply slice_to_prefix|]. split; [apply slice_to_length|].
    intros p rest -> Hlen. rewrite <- Hlen. apply slice_to_app.
Qed.

(** The 19 characters of [R.Ops.Zabbix.Admins] give the key
    [R.Ops.Zabbix.Adm]. *)
Lemma group_key_is_the_first_16_characters_witness :
  ascii_only Scenario.admins = true
  /\ trace_of (create_group (RefServer.env Scenario.ad_rows)
                 Example.fresh_client Scenario.admins Scenario.empty_server)
     = [Call (CreateGroup Scenario.admins);
        Http (POST_userGroups Scenario.admins "R.Ops.Zabbix.Adm")]
  /\ exists key,
       trace_of (create_group (RefServer.env Scenario.ad_rows)
                   Example.fresh_client Scenario.admins Scenario.empty_server)
       = [Call (CreateGroup Scenario.admins);
          Http (POST_userGroups Scenario.admins key)]
       /\ String.prefix key Scenario.admins = true
       /\ String.length key = Nat.min 16 (String.length Scenario.admins)
       /\ forall p rest,
            Scenario.admins = p +++ rest -> String.length p = 16 -> key = p.
Proof.
  split; [reflexivity|]. split; [reflexivity|].
  exact (group_key_is_the_first_16_characters
           (RefServer.env Scenario.ad_rows) Example.fresh_client
           Scenario.admins Scenario.empty_server eq_refl).
Defined.

(** ** The profile of a created user (lines 427-436 and 405-411) *)

(** X14.  The only request [start_sync] sends for a desired user while it
    creates users is one POST, and only for a login the client does not
    know whose DN the directory has an entry for: with the login as
    username, the [mail] attribute (or the empty string) as email, and as
    name the given name, a space and the surname, or the login when the
    surname is empty. *)
Theorem created_user_profile (E : Env) (self : Client.t)
    (login dn_ : string) (s : tc_state E) (r : request) :
  In (Http r) (trace_of (create_unknown E self (login, dn_) s)) ->
  in_list login (Client.tc_users self) = false
  /\ exists first rest sn name,
       directory E (LDAPConn.base (Client.ldap_object self))
         (pct "(distinguishedName=%s)" dn_) ["sn"; "givenName"; "mail"]
       = first :: rest
       /\ dict_get (str_attrs first) "sn" = Some sn
       /\ ((sn = "" /\ name = login)
           \/ (sn <> ""
               /\ exists givenName,
                    dict_get (str_attrs first) "givenName" = Some givenName
                    /\ name = givenName +++ " " +++ sn))
       /\ r = POST_users login name
                match dict_get (str_attrs first) "mail" with
                | Some mail => mail
                | None => ""
                end.
Proof.
  unfold create_unknown.
  destruct (in_list login (Client.tc_users self)); cbn [negb];
    [intros []|].
  intro Hin. split; [reflexivity|].
  unfold get_user_attributes in Hin.
  rewrite bind_trace in Hin. rewrite bind_conn_search_l in Hin.
  cbn [trace_of result_of state_of fst snd] in Hin.
  set (entries := directory E (LDAPConn.base (Client.ldap_object self))
                    (pct "(distinguishedName=%s)" dn_)
                    ["sn"; "givenName"; "mail"]) in *.
  unfold index in Hin.
  destruct entries as [|first rest]; cbn [nth_error] in Hin.
  { cbn in Hin. destruct Hin as [H|[]]. discriminate. }
  rewrite bind_ret_l in Hin. cbn [trace_of result_of state_of fst snd app] in Hin.
  destruct Hin as [H|Hin]; [discriminate|].
  cbn [ret trace_of result_of state_of fst snd app] in Hin.
  unfold getitem in Hin at 1.
  destruct (dict_get (str_attrs first) "sn") as [sn|] eqn:Hsn.
  2:{ rewrite bind_raise_l in Hin. destruct Hin. }
  rewrite bind_ret_l in Hin.
  assert (Hemail : forall email,
    (if negb (String.eqb email "") then email else "") = email).
  { intro email. destruct (String.eqb email "") eqn:Heq; [|reflexivity].
    apply String.eqb_eq in Heq. subst. reflexivity. }
  exists first, rest, sn.
  destruct (String.eqb sn "") eqn:Hempty; cbn [negb] in Hin.
  - apply String.eqb_eq in Hempty.
    rewrite bind_ret_l in Hin. unfold create_user in Hin.
    rewrite bind_emit_l, bind_http_l in Hin.
    cbn [trace_of fst snd u_username u_name u_email] in Hin.
    rewrite Hemail in Hin.
    destruct Hin as [H|[H|[]]]; [discriminate|]. injection H as <-.
    exists login. split; [reflexivity|]. split; [exact Hsn|].
    split; [left; split; [exact Hempty|reflexivity]|reflexivity].
  - apply String.eqb_neq in Hempty.
    unfold getitem in Hin.
    destruct (dict_get (str_attrs first) "givenName") as [givenName|] eqn:Hgn.
    2:{ rewrite bind_trace in Hin. rewrite bind_raise_l in Hin.
        cbn in Hin. destruct Hin. }
    rewrite bind_trace in Hin. rewrite !bind_ret_l in Hin.
    cbn [ret trace_of result_of state_of fst snd app] in Hin.
    unfold create_user in Hin.
    rewrite bind_emit_l, bind_http_l in Hin.
    cbn [trace_of fst snd u_username u_name u_email] in Hin.
    rewrite Hemail in Hin.
    destruct Hin as [H|[H|[]]]; [discriminate|]. injection H as <-.
    exists (givenName +++ " " +++ sn). split; [reflexivity|].
    split; [exact Hsn|]. split; [|reflexivity].
    right. split; [exact Hempty|]. exists givenName.
    split; reflexivity.
Qed.

(** bob, unknown to a server without users, is created as [Bob Doe]. *)
Lemma created_user_profile_witness :
  In (Http (POST_users "bob" "Bob Doe" "Bob@example.com"))
     (trace_of (create_unknown (RefServer.env Scenario.ad_rows)
                  Example.fresh_client ("bob", Scenario.bob_dn)
                  Scenario.empty_server))
  /\ in_list "bob" (Client.tc_users Example.fresh_client) = false.
Proof.
  assert (Hin : In (Http (POST_users "bob" "Bob Doe" "Bob@example.com"))
     (trace_of (create_unknown (RefServer.env Scenario.ad_rows)
                  Example.fresh_client ("bob", Scenario.bob_dn)
                  Scenario.empty_server)))
    by (vm_compute; tauto).
  split; [exact Hin|].
  exact (proj1 (created_user_profile (RefServer.env Scenario.ad_rows)
                  Example.fresh_client "bob" Scenario.bob_dn
                  Scenario.empty_server _ Hin)).
Defined.

(** ** Fetching the members of a group (lines 363-373) *)

(** X15.  [get_users_from_group] looks the key up among the groups the
    client holds under that name.  When the client holds groups but none of
    that name it raises [IndexError] without a request; when TeamCity answers
    the request with another status than 200 it raises [TypeError]; on a 200
    it returns the usernames of the answer. *)
Theorem members_lookup_outcomes (E : Env) (self : Client.t)
    (group_name : string) (s : tc_state E) :
  (truthy (Client.tc_groups self) = true ->
   named self group_name = [] ->
   get_users_from_group E self group_name s
   = (s, [Call (GetUsersFromGroup group_name)], Raise IndexError))
  /\ (forall ge,
        hd_error (named self group_name) = Some ge ->
        trace_of (get_users_from_group E self group_name s)
        = [Call (GetUsersFromGroup group_name);
           Http (GET_userGroups_key (g_key ge))]
        /\ (status_code (snd (tc_handle E s (GET_userGroups_key (g_key ge))))
            <> 200%Z ->
            result_of (get_users_from_group E self group_name s)
            = Raise TypeError)
        /\ (forall l,
              status_code (snd (tc_handle E s (GET_userGroups_key (g_key ge))))
              = 200%Z ->
              json (snd (tc_handle E s (GET_userGroups_key (g_key ge))))
              = GroupDetail l ->
              result_of (get_users_from_group E self group_name s) = Ok l)).
Proof.
  split.
  - intros Htruthy Hnone. unfold get_users_from_group.
    rewrite bind_emit_l, Htruthy, Hnone. reflexivity.
  - intros ge Hhd.
    assert (Htruthy : truthy (Client.tc_groups self) = true).
    { unfold named in Hhd. destruct (Client.tc_groups self); [discriminate|].
      reflexivity. }
    assert (Hk : nth_error (map g_key (named self group_name)) 0
                 = Some (g_key ge)).
    { destruct (named self group_name); [discriminate|].
      injection Hhd as <-. reflexivity. }
    unfold get_users_from_group.
    rewrite bind_emit_l, Htruthy. unfold index. rewrite Hk.
    rewrite bind_ret_l, bind_http_l.
    cbn [trace_of result_of state_of fst snd].
    set (resp := snd (tc_handle E s (GET_userGroups_key (g_key ge)))).
    set (s1 := fst (tc_handle E s (GET_userGroups_key (g_key ge)))).
    split; [|split].
    + rewrite bind_trace.
      destruct (negb (Z.eqb (status_code resp) 200)); cbn.
      * reflexivity.
      * unfold json_users_user. destruct (json resp); reflexivity.
    + intro Hstatus. apply Z.eqb_neq in Hstatus.
      rewrite bind_result, Hstatus. reflexivity.
    + intros l Hstatus Hjson. apply Z.eqb_eq in Hstatus.
      rewrite bind_result, Hstatus. cbn. rewrite Hjson. reflexivity.
Qed.

(** ** Reading the configuration file (lines 277-315) *)

Section Configuration.

Variable parser : Parser.t.

Lemma init_ok (self : TeamCityLDAPConf.t) :
  TeamCityLDAPConf.init parser = Ok self
  <-> TeamCityLDAPConf.read parser = inr self.
Proof.
  unfold TeamCityLDAPConf.init.
  destruct (TeamCityLDAPConf.read parser) as [[m|e]|c]; split; intro H;
    try discriminate; congruence.
Qed.

End Configuration.

Ltac listed := cbn [In required optional app];
  repeat (first [left; reflexivity | right]).

Ltac reads H :=
  unfold TeamCityLDAPConf.read in H;
  repeat match type of H with
         | context [if Parser.has_option ?p ?s ?o then _ else _] =>
             destruct (Parser.has_option p s o) eqn:?
         | context [match Parser.getitem ?p ?s ?o with _ => _ end] =>
             destruct (Parser.getitem p s o) eqn:?
         end.

(** X16.  The constructor returns a configuration exactly when the parser
    gives a value for each of the nineteen options of [required], the six of
    [[ad]] and the five of [[openldap]] included whatever the flavor of the
    directory, and for each option of [optional] it says it has. *)
Theorem configuration_needs_every_option (parser : Parser.t) :
  (exists self, TeamCityLDAPConf.init parser = Ok self)
  <-> (forall section option, In (section, option) required ->
         exists value, Parser.getitem parser section option = inr value)
      /\ (forall section option, In (section, option) optional ->
            Parser.has_option parser section option = true ->
            exists value, Parser.getitem parser section option = inr value).
Proof.
  split.
  - intros [self H]. apply init_ok in H.
    reads H; try discriminate.
    all: split; intros section option Hin;
      cbn [In required optional] in Hin;
      repeat (destruct Hin as [Heq|Hin];
              [injection Heq as <- <-; try congruence; eauto|]);
      try contradiction.
  - intros [Hreq Hopt].
    assert (Hread : exists self, TeamCityLDAPConf.read parser = inr self).
    { unfold TeamCityLDAPConf.read.
      repeat match goal with
             | |- context [match Parser.getitem parser ?s ?o with _ => _ end] =>
                 let H := fresh "Hv" in
                 destruct (Hreq s o) as [? H]; [solve [listed]|]; rewrite H
             end.
      repeat match goal with
             | |- context [if Parser.has_option parser ?s ?o then _ else _] =>
                 let Hh := fresh "Hh" in
                 let H := fresh "Hv" in
                 destruct (Parser.has_option parser s o) eqn:Hh;
                 [destruct (Hopt s o) as [? H];
                  [solve [listed]|exact Hh|]; rewrite H|]
             end.
      all: eexists; reflexivity. }
    destruct Hread as [self Hread]. exists self. apply init_ok. exact Hread.
Qed.

(** X17.  When the constructor raises, it is over one of the options it
    reads: the exception of that read goes through as it is, except for a
    [NoOptionError], which becomes the [SystemExit] with the message
    [Configuration issues detected in ...]. *)
Theorem configuration_failure_is_a_failed_read (parser : Parser.t) (e : exn) :
  TeamCityLDAPConf.init parser = Raise e ->
  exists section option,
    In (section, option) (required ++ optional)
    /\ (Parser.getitem parser section option = inl (Parser.Other e)
        \/ exists message,
             Parser.getitem parser section option
             = inl (Parser.NoOptionError message)
             /\ e = SystemExit ("Configuration issues detected in "
                                +++ message)).
Proof.
  unfold TeamCityLDAPConf.init.
  destruct (TeamCityLDAPConf.read parser) as [failed|self] eqn:H;
    [|discriminate].
  intro He.
  assert (Hfailed : exists section option,
             In (section, option) (required ++ optional)
             /\ Parser.getitem parser section option = inl failed).
  { reads H; try discriminate.
    all: injection H as <-.
    all: match goal with
         | Hv : Parser.getitem _ ?s ?o = inl _ |- _ =>
             exists s, o; split; [solve [listed]|exact Hv]
         end. }
  destruct Hfailed as (section & option & Hin & Hv).
  exists section, option. split; [exact Hin|].
  destruct failed as [message|e'].
  - right. exists message. split; [exact Hv|].
    injection He as <-. cbn. rewrite append_nil_r. reflexivity.
  - left. injection He as <-. exact Hv.
Qed.

Lemma configuration_failure_is_a_failed_read_witness :
  TeamCityLDAPConf.init (Example.parser_of Example.file_without_openldap)
  = Raise KeyError
  /\ exists section option,
       In (section, option) (required ++ optional)
       /\ (Parser.getitem (Example.parser_of Example.file_without_openldap)
             section option = inl (Parser.Other KeyError)
           \/ exists message,
                Parser.getitem (Example.parser_of Example.file_without_openldap)
                  section option
                = inl (Parser.NoOptionError message)
                /\ KeyError = SystemExit ("Configuration issues detected in "
                                          +++ message)).
Proof.
  split; [reflexivity|].
  apply (configuration_failure_is_a_failed_read
           (Example.parser_of Example.file_without_openldap) KeyError).
  reflexivity.
Defined.

(** ** The configured groups (line 281) *)

Section Groups.

Variable sep : ascii.

Lemma count_char_length (s : string) : count_char sep s <= String.length s.
Proof.
  induction s as [|c rest IH]; cbn; [lia|].
  destruct (Ascii.eqb c sep); lia.
Qed.

Lemma split_pieces (s : string) :
  forall n, count_char sep s <= n ->
    length (split sep n s) = S (count_char sep s)
    /\ Forall (fun piece => has_char sep piece = false) (split sep n s).
Proof.
  induction s as [|c rest IH]; intros n Hn.
  - cbn. split; [reflexivity|]. constructor; [reflexivity|constructor].
  - cbn [split count_char] in *.
    destruct (Ascii.eqb c sep) eqn:Hc.
    + destruct n as [|m]; [lia|].
      destruct (IH m ltac:(lia)) as [Hlen Hall].
      cbn [length]. split; [now rewrite Hlen|].
      constructor; [reflexivity|exact Hall].
    + destruct (IH n Hn) as [Hlen Hall].
      destruct (split sep n rest) as [|hd tl]; [discriminate|].
      split; [exact Hlen|].
      inversion Hall as [|? ? Hhd Htl]; subst.
      constructor; [|exact Htl].
      cbn [has_char]. rewrite Hc, Hhd. reflexivity.
Qed.

Lemma lstrip_has_char (s : string) :
  has_char sep s = false -> has_char sep (lstrip s) = false.
Proof.
  induction s as [|c rest IH]; cbn [lstrip has_char]; intro H; [reflexivity|].
  destruct (is_space c).
  - apply orb_false_iff in H. apply IH, H.
  - exact H.
Qed.

Lemma rstrip_has_char (s : string) :
  has_char sep s = false -> has_char sep (rstrip s) = false.
Proof.
  induction s as [|c rest IH]; cbn [rstrip has_char]; intro H; [reflexivity|].
  apply orb_false_iff in H. destruct H as [Hc Hrest].
  specialize (IH Hrest).
  destruct (rstrip rest) as [|k kept].
  - destruct (is_space c); cbn [has_char]; [reflexivity|].
    rewrite Hc. reflexivity.
  - cbn [has_char] in *. rewrite Hc. exact IH.
Qed.

End Groups.

Lemma lstrip_starts (s : string) : starts_with_space (lstrip s) = false.
Proof.
  induction s as [|c rest IH]; cbn [lstrip]; [reflexivity|].
  destruct (is_space c) eqn:Hc; [exact IH|]. exact Hc.
Qed.

Lemma rstrip_starts (s : string) :
  starts_with_space s = false -> starts_with_space (rstrip s) = false.
Proof.
  destruct s as [|c rest]; cbn [rstrip starts_with_space]; intro H;
    [reflexivity|].
  destruct (rstrip rest); [rewrite H|]; exact H.
Qed.

Lemma rstrip_ends (s : string) : ends_with_space (rstrip s) = false.
Proof.
  induction s as [|c rest IH]; cbn [rstrip]; [reflexivity|].
  destruct (rstrip rest) as [|k kept].
  - destruct (is_space c) eqn:Hc; cbn; [reflexivity|exact Hc].
  - exact IH.
Qed.

Lemma split_ascii (sep : ascii) (s : string) :
  forall n, ascii_only s = true ->
    Forall (fun piece => ascii_only piece = true) (split sep n s).
Proof.
  induction s as [|c rest IH]; intros n Hs.
  - repeat constructor.
  - cbn [ascii_only] in Hs. apply andb_true_iff in Hs. destruct Hs as [Hc Hrest].
    cbn [split]. destruct (Ascii.eqb c sep).
    + destruct n as [|m].
      * constructor; [|constructor].
        cbn [ascii_only]. rewrite Hc, Hrest. reflexivity.
      * constructor; [reflexivity|]. apply IH. exact Hrest.
    + specialize (IH n Hrest).
      destruct (split sep n rest) as [|hd tl].
      * constructor; [|constructor]. cbn [ascii_only]. rewrite Hc. reflexivity.
      * inversion IH as [|? ? Hhd Htl]; subst.
        constructor; [|exact Htl].
        cbn [ascii_only]. rewrite Hc, Hhd. reflexivity.
Qed.

Lemma lstrip_ascii (s : string) :
  ascii_only s = true -> ascii_only (lstrip s) = true.
Proof.
  induction s as [|c rest IH]; cbn [lstrip]; intro Hs; [reflexivity|].
  destruct (is_space c); [|exact Hs].
  cbn [ascii_only] in Hs. apply andb_true_iff in Hs. apply IH, Hs.
Qed.

Lemma rstrip_ascii (s : string) :
  ascii_only s = true -> ascii_only (rstrip s) = true.
Proof.
  induction s as [|c rest IH]; cbn [rstrip]; intro Hs; [reflexivity|].
  cbn [ascii_only] in Hs. apply andb_true_iff in Hs. destruct Hs as [Hc Hrest].
  specialize (IH Hrest).
  destruct (rstrip rest) as [|k kept].
  - destruct (is_space c); cbn [ascii_only]; [reflexivity|].
    rewrite Hc. reflexivity.
  - cbn [ascii_only] in *. rewrite Hc. exact IH.
Qed.

Lemma strip_trimmed (s : string) : trimmed (strip s).
Proof.
  split.
  - apply rstrip_starts, lstrip_starts.
  - apply rstrip_ends.
Qed.

(** X18.  For a [groups] option of ASCII characters, the configured groups
    are the fields of the option between its commas, one more than it has
    commas, each without the white space around it: every group is ASCII,
    none holds a comma, none starts or ends with white space, and there is
    always at least one, the empty name included. *)
Theorem configured_groups_are_the_trimmed_fields (parser : Parser.t)
    (self : TeamCityLDAPConf.t) (value : string) :
  TeamCityLDAPConf.init parser = Ok self ->
  Parser.getitem parser "ldap" "groups" = inr value ->
  ascii_only value = true ->
  length (Conf.ldap_groups (TeamCityLDAPConf.conf self))
  = S (count_char "," value)
  /\ Forall (fun group => ascii_only group = true
                          /\ has_char "," group = false /\ trimmed group)
       (Conf.ldap_groups (TeamCityLDAPConf.conf self)).
Proof.
  intros H Hvalue Hascii. apply init_ok in H.
  assert (Hgroups : Conf.ldap_groups (TeamCityLDAPConf.conf self)
                    = map strip (split_all "," value)).
  { reads H; try discriminate.
    all: injection H as <-; cbn; congruence. }
  rewrite Hgroups. unfold split_all.
  destruct (split_pieces "," value (String.length value)
              (count_char_length "," value)) as [Hlen Hall].
  pose proof (split_ascii "," value (String.length value) Hascii) as Hpieces.
  split.
  - rewrite length_map. exact Hlen.
  - apply Forall_map. rewrite Forall_forall in *.
    intros piece Hin. split; [|split].
    + apply rstrip_ascii, lstrip_ascii, Hpieces, Hin.
    + apply rstrip_has_char, lstrip_has_char, Hall, Hin.
    + apply strip_trimmed.
Qed.

Lemma configured_groups_are_the_trimmed_fields_witness :
  TeamCityLDAPConf.init (Example.parser_of Example.file)
  = Ok Example.settings
  /\ Conf.ldap_groups (TeamCityLDAPConf.conf Example.settings)
     = ["Admins.Zabbix.Team"; "Devs.Zabbix.Team"; ""]
  /\ ascii_only "Admins.Zabbix.Team, Devs.Zabbix.Team ," = true
  /\ length (Conf.ldap_groups (TeamCityLDAPConf.conf Example.settings)) = 3
  /\ Forall (fun group => ascii_only group = true
                          /\ has_char "," group = false /\ trimmed group)
       (Conf.ldap_groups (TeamCityLDAPConf.conf Example.settings)).
Proof.
  split; [reflexivity|]. split; [reflexivity|]. split; [reflexivity|].
  exact (configured_groups_are_the_trimmed_fields
           (Example.parser_of Example.file) Example.settings
           "Admins.Zabbix.Team, Devs.Zabbix.Team ,"
           eq_refl eq_refl eq_refl).
Defined.

(** ** The media type (lines 299-312) *)

(** X19.  The media type of a configuration is the [description] of the
    [[media]] section when the parser has it and [Email] otherwise: the
    [media] option of [[ldap]] and its default [mail], which lines 299-302
    store first, never come through. *)
Theorem media_is_the_description_or_email (parser : Parser.t)
    (self : TeamCityLDAPConf.t) :
  TeamCityLDAPConf.init parser = Ok self ->
  (Parser.has_option parser "media" "description" = true
   /\ Parser.getitem parser "media" "description"
      = inr (TeamCityLDAPConf.ldap_media self))
  \/ (Parser.has_option parser "media" "description" = false
      /\ TeamCityLDAPConf.ldap_media self = "Email").
Proof.
  intro H. apply init_ok in H.
  reads H; try discriminate.
  all: injection H as <-; cbn; first [left; split; congruence
                                     |right; split; congruence].
Qed.

Lemma media_is_the_description_or_email_witness :
  Parser.getitem (Example.parser_of Example.file) "ldap" "media" = inr "jabber"
  /\ TeamCityLDAPConf.ldap_media Example.settings = "Email".
Proof.
  split; [reflexivity|].
  destruct (media_is_the_description_or_email
              (Example.parser_of Example.file) Example.settings eq_refl)
    as [[Hhas _]|[_ Hmedia]].
  - discriminate Hhas.
  - exact Hmedia.
Defined.
